(** * GoFast server: data plane

    A shallow embedding of the wire codec, the typed keyspace and the command
    dispatcher of the GoFast cache server (protocol.go, config.go and the
    handler, container and server files), and the properties of the
    specification checked against it.

    Conventions.  A Go [[]byte] is a [list byte]; a Go [string] (keys, set
    members, hash fields, patterns) is a [string]; [uint32], [int] and
    [int64] values are [Z] with the conversions and the wrap-around written
    out ([int] is the 64-bit [int] of the amd64 and arm64 builds).  A handler
    is a function from the server state to the new state and the response
    bytes; commands run one at a time.  The statistics counters are
    write-only for the data plane (no command reads them) and are left out of
    the state. *)

From Stdlib Require Import ZArith List Lia Bool.
From Stdlib Require Import Strings.String Strings.Ascii Strings.Byte.
From Stdlib Require Import DecimalString.
From Stdlib Require DecimalPos.
From stdpp Require Import gmap strings list fin_maps sorting.

Local Open Scope Z_scope.

Abbreviation bytes := (list byte).

(** ** Machine integers *)

(** Conversion to [uint32] and two's complement [int64] arithmetic. *)
Definition uint32 (z : Z) : Z := z mod 2 ^ 32.
Definition wrap64 (z : Z) : Z := (z + 2 ^ 63) mod 2 ^ 64 - 2 ^ 63.

Definition byte_of_Z (z : Z) : byte :=
  match Byte.of_N (Z.to_N (z mod 256)) with
  | Some b => b
  | None => "000"%byte
  end.

Definition Z_of_byte (b : byte) : Z := Z.of_N (Byte.to_N b).

(** [len] is Go's [len] on a byte slice. *)
Definition len (b : bytes) : Z := Z.of_nat (length b).

(** [binary.BigEndian.PutUint32] into a 4-byte window, and
    [binary.BigEndian.Uint32], which panics ([None]) on fewer than 4 bytes. *)
Definition PutUint32 (v : Z) : bytes :=
  [byte_of_Z (v / 2 ^ 24); byte_of_Z (v / 2 ^ 16); byte_of_Z (v / 2 ^ 8); byte_of_Z v].

Definition Uint32 (b : bytes) : option Z :=
  match b with
  | b0 :: b1 :: b2 :: b3 :: _ =>
      Some (((Z_of_byte b0 * 256 + Z_of_byte b1) * 256 + Z_of_byte b2) * 256 + Z_of_byte b3)
  | _ => None
  end.

(** ** Slices

    [slice data lo hi] is [data[lo:hi]], [index data i] is [data[i]].  [None]
    stands for a read past [len(data)]: Go panics when the bound exceeds the
    capacity of the buffer and otherwise yields whatever the pooled buffer
    held there; the model makes no statement about either. *)
Definition slice (data : bytes) (lo hi : Z) : option bytes :=
  if (0 <=? lo) && (lo <=? hi) && (hi <=? len data)
  then Some (take (Z.to_nat (hi - lo)) (drop (Z.to_nat lo) data))
  else None.

Definition index (data : bytes) (i : Z) : option byte :=
  if (0 <=? i) && (i <? len data) then data !! Z.to_nat i else None.

(** [binary.BigEndian.Uint32(data[off : off+4])]. *)
Definition u32_at (data : bytes) (off : Z) : option Z :=
  slice data off (off + 4) ≫= Uint32.

(** [b := make([]byte, n); copy(b, data[off : off+n])]. *)
Definition bytes_at (data : bytes) (off n : Z) : option bytes :=
  slice data off (off + n).

(** ** Text

    [str s] is [[]byte(s)], [gostring b] is [string(b)]; [itoa] is
    [fmt.Sprintf("%d", n)] and [strconv.FormatInt(n, 10)]. *)
Definition str (s : string) : bytes := list_byte_of_string s.
Definition gostring (b : bytes) : string := string_of_list_byte b.

Definition itoa_string (n : Z) : string := NilZero.string_of_int (Z.to_int n).
Definition itoa (n : Z) : bytes := str (itoa_string n).
Definition FormatInt (n : Z) : string := itoa_string n.

(** [strconv.ParseUint(s, 10, 64)]: a non-empty run of decimal digits whose
    value fits 64 bits. *)
Definition digit_of_ascii (c : ascii) : option Z :=
  let n := Z.of_N (N_of_ascii c) in
  if (48 <=? n) && (n <=? 57) then Some (n - 48) else None.

Fixpoint ParseUint_loop (s : string) (n : Z) : option Z :=
  match s with
  | EmptyString => Some n
  | String c s' =>
      match digit_of_ascii c with
      | None => None
      | Some d =>
          let n1 := n * 10 + d in
          if 2 ^ 64 <=? n1 then None else ParseUint_loop s' n1
      end
  end.

Definition ParseUint (s : string) : option Z :=
  match s with
  | EmptyString => None
  | _ => ParseUint_loop s 0
  end.

(** [strconv.ParseInt(s, 10, 64)]: an optional sign, then [ParseUint], then
    the range check against [cutoff = 1 << 63].  [None] is a non-nil error. *)
Definition ParseInt (s : string) : option Z :=
  match s with
  | EmptyString => None
  | String c rest =>
      let '(neg, digits) :=
        if Ascii.eqb c "+" then (false, rest)
        else if Ascii.eqb c "-" then (true, rest)
        else (false, s) in
      match ParseUint digits with
      | None => None
      | Some un =>
          let cutoff := 2 ^ 63 in
          if negb neg && (cutoff <=? un) then None
          else if neg && (cutoff <? un) then None
          else Some (if neg then wrap64 (- wrap64 un) else wrap64 un)
      end
  end.

(** ** Protocol constants (types.go) *)

Abbreviation PROTOCOL_VERSION := 1 (only parsing).

Abbreviation CMD_SET := 1 (only parsing).
Abbreviation CMD_GET := 2 (only parsing).
Abbreviation CMD_DEL := 3 (only parsing).
Abbreviation CMD_EXISTS := 4 (only parsing).
Abbreviation CMD_EXPIRE := 5 (only parsing).
Abbreviation CMD_TTL := 6 (only parsing).
Abbreviation CMD_MGET := 7 (only parsing).
Abbreviation CMD_MSET := 8 (only parsing).
Abbreviation CMD_PIPELINE := 9 (only parsing).
Abbreviation CMD_LPUSH := 16 (only parsing).
Abbreviation CMD_RPUSH := 17 (only parsing).
Abbreviation CMD_LPOP := 18 (only parsing).
Abbreviation CMD_RPOP := 19 (only parsing).
Abbreviation CMD_LLEN := 20 (only parsing).
Abbreviation CMD_LINDEX := 21 (only parsing).
Abbreviation CMD_LRANGE := 22 (only parsing).
Abbreviation CMD_SADD := 32 (only parsing).
Abbreviation CMD_SREM := 33 (only parsing).
Abbreviation CMD_SMEMBERS := 34 (only parsing).
Abbreviation CMD_SCARD := 35 (only parsing).
Abbreviation CMD_SISMEMBER := 36 (only parsing).
Abbreviation CMD_HSET := 48 (only parsing).
Abbreviation CMD_HGET := 49 (only parsing).
Abbreviation CMD_HDEL := 50 (only parsing).
Abbreviation CMD_HGETALL := 51 (only parsing).
Abbreviation CMD_HLEN := 52 (only parsing).
Abbreviation CMD_HEXISTS := 53 (only parsing).
Abbreviation CMD_INCR := 64 (only parsing).
Abbreviation CMD_DECR := 65 (only parsing).
Abbreviation CMD_GETSET := 66 (only parsing).
Abbreviation CMD_KEYS := 67 (only parsing).
Abbreviation CMD_SCAN := 68 (only parsing).

Definition RESP_OK : Z := 0.
Definition RESP_ERROR : Z := 1.
Definition RESP_NOT_FOUND : Z := 2.

Definition TYPE_STRING : Z := 1.
Definition TYPE_LIST : Z := 2.
Definition TYPE_SET : Z := 3.
Definition TYPE_HASH : Z := 4.

(** ** Messages and cache items (types.go) *)

Record Message := mkMessage {
  Length : Z;
  Version : Z;
  Command : Z;
  Key : bytes;
  Value : bytes;
  TTL : Z
}.

(** The dynamically typed [Value any] slot: [[]byte], [*List], [*Set] or
    [*Hash].  A [List] is its sequence of node values from head to tail, a
    [Set] its members, a [Hash] its field map.  Every stored [[]byte] is an
    allocated slice (the readers, [handleMSet] and [handleIncr] all allocate
    it), so Go's nil slice does not occur here. *)
Inductive ItemValue :=
  | VString (v : bytes)
  | VList (l : list bytes)
  | VSet (members : gset string)
  | VHash (fields : gmap string bytes).

Record CacheItem := mkItem {
  ItemVal : ItemValue;
  ExpiresAt : Z;
  CreatedAt : Z
}.

(** Every construction site sets the tag together with the value, so the
    [DataType] field is a function of the variant. *)
Definition DataType (item : CacheItem) : Z :=
  match ItemVal item with
  | VString _ => TYPE_STRING
  | VList _ => TYPE_LIST
  | VSet _ => TYPE_SET
  | VHash _ => TYPE_HASH
  end.

(** ** Typed containers *)

Definition NewList : list bytes := [].
Definition LeftPush (value : bytes) (l : list bytes) : list bytes * Z :=
  let l' := value :: l in (l', Z.of_nat (length l')).
Definition RightPush (value : bytes) (l : list bytes) : list bytes * Z :=
  let l' := l ++ [value] in (l', Z.of_nat (length l')).
Definition LeftPop (l : list bytes) : option (bytes * list bytes) :=
  match l with
  | [] => None
  | v :: l' => Some (v, l')
  end.
Definition RightPop (l : list bytes) : option (bytes * list bytes) :=
  match rev l with
  | [] => None
  | v :: r => Some (v, rev r)
  end.
Definition ListLength (l : list bytes) : Z := Z.of_nat (length l).
Definition ListIndex (l : list bytes) (i : Z) : option bytes :=
  if (i <? 0) || (ListLength l <=? i) then None else l !! Z.to_nat i.
Definition ListRange (l : list bytes) (start end_ : Z) : list bytes :=
  let start := if start <? 0 then 0 else start in
  let end_ := if ListLength l <=? end_ then ListLength l - 1 else end_ in
  if end_ <? start then []
  else take (Z.to_nat (end_ - start + 1)) (drop (Z.to_nat start) l).

Definition NewSet : gset string := ∅.
Definition SetAdd (member : string) (s : gset string) : gset string * bool :=
  ({[member]} ∪ s, bool_decide (member ∉ s)).
Definition SetRemove (member : string) (s : gset string) : gset string * bool :=
  (s ∖ {[member]}, bool_decide (member ∈ s)).
(** Go iterates a map in an unspecified order; [elements] fixes one. *)
Definition SetMembers (s : gset string) : list string := elements s.
Definition SetCard (s : gset string) : Z := Z.of_nat (size s).
Definition SetIsMember (member : string) (s : gset string) : bool :=
  bool_decide (member ∈ s).

Definition NewHash : gmap string bytes := ∅.
Definition HashSet (field : string) (value : bytes) (h : gmap string bytes)
    : gmap string bytes * bool :=
  (<[field := value]> h, bool_decide (h !! field = None)).
Definition HashGet (field : string) (h : gmap string bytes) : option bytes := h !! field.
Definition HashDel (field : string) (h : gmap string bytes) : gmap string bytes * bool :=
  (delete field h, bool_decide (is_Some (h !! field))).
Definition HashGetAll (h : gmap string bytes) : gmap string bytes := h.
Definition HashLen (h : gmap string bytes) : Z := Z.of_nat (size h).
Definition HashExists (field : string) (h : gmap string bytes) : bool :=
  bool_decide (is_Some (h !! field)).

(** ** Server state

    [storage] is the [sync.Map] keyspace, [ttlIndex] the deadline index.
    [deferred] collects the keys that KEYS and SCAN hand to a deleting
    goroutine; when those run is up to the scheduler, see [run_deferred]. *)
Record GoFastServer := mkServer {
  storage : gmap string CacheItem;
  ttlIndex : gmap string Z;
  deferred : list string
}.

Definition NewGoFastServer : GoFastServer := mkServer ∅ ∅ [].

Definition Store (key : string) (item : CacheItem) (s : GoFastServer) : GoFastServer :=
  mkServer (<[key := item]> (storage s)) (ttlIndex s) (deferred s).
Definition Delete (key : string) (s : GoFastServer) : GoFastServer :=
  mkServer (delete key (storage s)) (ttlIndex s) (deferred s).
Definition ttlIndex_set (key : string) (deadline : Z) (s : GoFastServer) : GoFastServer :=
  mkServer (storage s) (<[key := deadline]> (ttlIndex s)) (deferred s).
Definition ttlIndex_delete (key : string) (s : GoFastServer) : GoFastServer :=
  mkServer (storage s) (delete key (ttlIndex s)) (deferred s).
Definition spawn_delete (key : string) (s : GoFastServer) : GoFastServer :=
  mkServer (storage s) (ttlIndex s) (deferred s ++ [key]).

(** The recurring guard [item.ExpiresAt > 0 && item.ExpiresAt <= now] and
    the eviction that follows it: [storage.Delete] then [delete(ttlIndex)]. *)
Definition expired (item : CacheItem) (now : Z) : bool :=
  (0 <? ExpiresAt item) && (ExpiresAt item <=? now).
Definition evict (key : string) (s : GoFastServer) : GoFastServer :=
  ttlIndex_delete key (Delete key s).

(** One deferred deletion running to completion. *)
Definition run_deferred (s : GoFastServer) : GoFastServer :=
  match deferred s with
  | [] => s
  | k :: rest => evict k (mkServer (storage s) (ttlIndex s) rest)
  end.

(** One round of the sweeper ([cleanupExpiredKeys]): every key whose index
    entry is due is deleted from the keyspace and from the index. *)
Definition cleanupExpiredKeys_round (now : Z) (s : GoFastServer) : GoFastServer :=
  let expiredKeys :=
    map fst (List.filter (fun '(_, expiresAt) => expiresAt <=? now)
               (map_to_list (ttlIndex s))) in
  fold_left (fun s0 key => evict key s0) expiredKeys s.

(** ** Response encoding (protocol.go, config.go) *)

Definition createResponse (status : Z) (data : bytes) : bytes :=
  byte_of_Z status :: PutUint32 (uint32 (len data)) ++ data.

Definition encodeArray (values : list bytes) : bytes :=
  PutUint32 (uint32 (Z.of_nat (length values)))
  ++ flat_map (fun val => PutUint32 (uint32 (len val)) ++ val) values.

Definition encodeStringArray (values : list string) : bytes :=
  encodeArray (map str values).

Definition encodeHashMap (fields : gmap string bytes) : bytes :=
  PutUint32 (uint32 (Z.of_nat (size fields)))
  ++ flat_map (fun '(field, val) =>
       PutUint32 (uint32 (len (str field))) ++ str field
       ++ PutUint32 (uint32 (len val)) ++ val) (map_to_list fields).

(** A [nil] entry of [values] is [None]. *)
Definition encodeMGetResponse (values : list (option bytes)) : bytes :=
  PutUint32 (uint32 (Z.of_nat (length values)))
  ++ flat_map (fun val =>
       match val with
       | None => PutUint32 4294967295
       | Some v => PutUint32 (uint32 (len v)) ++ v
       end) values.

Definition encodePipelineResponse (responses : list bytes) : bytes :=
  PutUint32 (uint32 (Z.of_nat (length responses))) ++ concat responses.

Definition encodeScanResponse (cursor : Z) (keys : list string) : bytes :=
  PutUint32 cursor ++ PutUint32 (uint32 (Z.of_nat (length keys)))
  ++ flat_map (fun key => PutUint32 (uint32 (len (str key))) ++ str key) keys.

Definition WRONGTYPE : bytes :=
  createResponse RESP_ERROR
    (str "WRONGTYPE Operation against a key holding the wrong kind of value").
Definition ERR_not_integer : bytes :=
  createResponse RESP_ERROR (str "ERR value is not an integer or out of range").

(** ** Pattern matching *)

Definition byte_is (c : string) (b : option byte) : bool :=
  match b, str c with
  | Some x, [y] => Byte.eqb x y
  | _, _ => false
  end.
Definition same_byte (a b : option byte) : bool :=
  match a, b with
  | Some x, Some y => Byte.eqb x y
  | _, _ => false
  end.

(** The main loop of [wildcardMatch] over the state [(i, j, starIdx, match)];
    the trailing loop that skips the remaining stars and the final test
    [j == len(pattern)] are the [forallb].  Each round either advances [i],
    advances [j], or restarts one position further right;
    [wildcardMatch_fuel_enough] below shows that [wildcard_fuel] rounds are
    never used up. *)
Fixpoint wildcardMatch_loop (fuel : nat) (pattern s : bytes)
    (i j starIdx mtch : Z) : bool :=
  match fuel with
  | O => false
  | S fuel' =>
      if i <? len s then
        if (j <? len pattern)
           && (byte_is "?" (index pattern j) || same_byte (index pattern j) (index s i))
        then wildcardMatch_loop fuel' pattern s (i + 1) (j + 1) starIdx mtch
        else if (j <? len pattern) && byte_is "*" (index pattern j)
        then wildcardMatch_loop fuel' pattern s i (j + 1) j i
        else if negb (starIdx =? -1)
        then wildcardMatch_loop fuel' pattern s (mtch + 1) (starIdx + 1) starIdx (mtch + 1)
        else false
      else forallb (fun b => byte_is "*" (Some b)) (drop (Z.to_nat j) pattern)
  end.

Definition wildcard_fuel (pattern s : bytes) : nat :=
  ((length s + 1) * (length s + length pattern + 2))%nat.

Definition wildcardMatch (pattern s : string) : bool :=
  wildcardMatch_loop (wildcard_fuel (str pattern) (str s)) (str pattern) (str s) 0 0 (-1) 0.

Definition matchPattern (pattern key : string) : bool :=
  if String.eqb pattern "" || String.eqb pattern "*" then true
  else wildcardMatch pattern key.

(** ** Command handlers

    A handler returns the state after the command and the response.  A
    container reached through a live item is mutated in place in the source;
    here the keyspace entry is rewritten with the new container and the same
    [ExpiresAt] and [CreatedAt]. *)

Definition Reply : Type := GoFastServer * bytes.

Definition with_value (item : CacheItem) (v : ItemValue) : CacheItem :=
  mkItem v (ExpiresAt item) (CreatedAt item).

(** *** Lists *)

Definition push_into (key : string) (item : CacheItem) (l : list bytes)
    (value : bytes) (isLeft : bool) (s : GoFastServer) : Reply :=
  let '(l', length) := if isLeft then LeftPush value l else RightPush value l in
  (Store key (with_value item (VList l')) s, createResponse RESP_OK (itoa length)).

Definition handleListPush (key : string) (value : bytes) (isLeft : bool) (now : Z)
    (s : GoFastServer) : Reply :=
  let create s0 :=
    let item := mkItem (VList NewList) 0 now in
    push_into key item NewList value isLeft (Store key item s0) in
  match storage s !! key with
  | Some item =>
      if expired item now then create (evict key s)
      else match ItemVal item with
           | VList l => push_into key item l value isLeft s
           | _ => (s, WRONGTYPE)
           end
  | None => create s
  end.

Definition handleListPop (key : string) (isLeft : bool) (now : Z)
    (s : GoFastServer) : Reply :=
  match storage s !! key with
  | None => (s, createResponse RESP_NOT_FOUND [])
  | Some item =>
      if expired item now then (evict key s, createResponse RESP_NOT_FOUND [])
      else match ItemVal item with
           | VList l =>
               match (if isLeft then LeftPop l else RightPop l) with
               | None => (s, createResponse RESP_NOT_FOUND [])
               | Some (value, l') =>
                   let s1 := Store key (with_value item (VList l')) s in
                   let s2 := if ListLength l' =? 0 then evict key s1 else s1 in
                   (s2, createResponse RESP_OK value)
               end
           | _ => (s, WRONGTYPE)
           end
  end.

Definition handleListLen (key : string) (now : Z) (s : GoFastServer) : Reply :=
  match storage s !! key with
  | None => (s, createResponse RESP_OK (str "0"))
  | Some item =>
      if expired item now then (evict key s, createResponse RESP_OK (str "0"))
      else match ItemVal item with
           | VList l => (s, createResponse RESP_OK (itoa (ListLength l)))
           | _ => (s, WRONGTYPE)
           end
  end.

Definition handleListIndex (key : string) (idx : Z) (now : Z) (s : GoFastServer) : Reply :=
  match storage s !! key with
  | None => (s, createResponse RESP_NOT_FOUND [])
  | Some item =>
      if expired item now then (evict key s, createResponse RESP_NOT_FOUND [])
      else match ItemVal item with
           | VList l =>
               match ListIndex l idx with
               | None => (s, createResponse RESP_NOT_FOUND [])
               | Some value => (s, createResponse RESP_OK value)
               end
           | _ => (s, WRONGTYPE)
           end
  end.

Definition handleListRange (key : string) (start end_ : Z) (now : Z)
    (s : GoFastServer) : Reply :=
  match storage s !! key with
  | None => (s, createResponse RESP_OK (encodeArray []))
  | Some item =>
      if expired item now then (evict key s, createResponse RESP_OK (encodeArray []))
      else match ItemVal item with
           | VList l => (s, createResponse RESP_OK (encodeArray (ListRange l start end_)))
           | _ => (s, WRONGTYPE)
           end
  end.

(** *** Sets *)

Definition add_into (key : string) (item : CacheItem) (set : gset string)
    (member : string) (s : GoFastServer) : Reply :=
  let '(set', wasNew) := SetAdd member set in
  (Store key (with_value item (VSet set')) s,
   createResponse RESP_OK (str (if wasNew then "1" else "0"))).

Definition handleSetAdd (key member : string) (now : Z) (s : GoFastServer) : Reply :=
  let create s0 :=
    let item := mkItem (VSet NewSet) 0 now in
    add_into key item NewSet member (Store key item s0) in
  match storage s !! key with
  | Some item =>
      if expired item now then create (evict key s)
      else match ItemVal item with
           | VSet set => add_into key item set member s
           | _ => (s, WRONGTYPE)
           end
  | None => create s
  end.

Definition handleSetRem (key member : string) (now : Z) (s : GoFastServer) : Reply :=
  match storage s !! key with
  | None => (s, createResponse RESP_OK (str "0"))
  | Some item =>
      if expired item now then (evict key s, createResponse RESP_OK (str "0"))
      else match ItemVal item with
           | VSet set =>
               let '(set', removed) := SetRemove member set in
               let s1 := Store key (with_value item (VSet set')) s in
               let s2 := if SetCard set' =? 0 then evict key s1 else s1 in
               (s2, createResponse RESP_OK (str (if removed then "1" else "0")))
           | _ => (s, WRONGTYPE)
           end
  end.

Definition handleSetMembers (key : string) (now : Z) (s : GoFastServer) : Reply :=
  match storage s !! key with
  | None => (s, createResponse RESP_OK (encodeStringArray []))
  | Some item =>
      if expired item now then (evict key s, createResponse RESP_OK (encodeStringArray []))
      else match ItemVal item with
           | VSet set => (s, createResponse RESP_OK (encodeStringArray (SetMembers set)))
           | _ => (s, WRONGTYPE)
           end
  end.

Definition handleSetCard (key : string) (now : Z) (s : GoFastServer) : Reply :=
  match storage s !! key with
  | None => (s, createResponse RESP_OK (str "0"))
  | Some item =>
      if expired item now then (evict key s, createResponse RESP_OK (str "0"))
      else match ItemVal item with
           | VSet set => (s, createResponse RESP_OK (itoa (SetCard set)))
           | _ => (s, WRONGTYPE)
           end
  end.

Definition handleSetIsMember (key member : string) (now : Z) (s : GoFastServer) : Reply :=
  match storage s !! key with
  | None => (s, createResponse RESP_OK (str "0"))
  | Some item =>
      if expired item now then (evict key s, createResponse RESP_OK (str "0"))
      else match ItemVal item with
           | VSet set =>
               (s, createResponse RESP_OK (str (if SetIsMember member set then "1" else "0")))
           | _ => (s, WRONGTYPE)
           end
  end.

(** *** Hashes *)

Definition set_into (key : string) (item : CacheItem) (hash : gmap string bytes)
    (field : string) (value : bytes) (s : GoFastServer) : Reply :=
  let '(hash', wasNew) := HashSet field value hash in
  (Store key (with_value item (VHash hash')) s,
   createResponse RESP_OK (str (if wasNew then "1" else "0"))).

(** The second half of [handleHashSet]: find or create the hash, set the
    field. *)
Definition hash_store (key field : string) (value : bytes) (now : Z) (s : GoFastServer)
    : Reply :=
  let create s0 :=
    let item := mkItem (VHash NewHash) 0 now in
    set_into key item NewHash field value (Store key item s0) in
  match storage s !! key with
  | Some item =>
      if expired item now then create (evict key s)
      else match ItemVal item with
           | VHash hash => set_into key item hash field value s
           | _ => (s, WRONGTYPE)
           end
  | None => create s
  end.

(** [data] is the packed [[fieldlen:4][field][value]].  The bound
    [4+fieldLen] is computed in [uint32] and wraps; when it wraps below 4 the
    slice [data[4 : 4+fieldLen]] panics ([None]). *)
Definition handleHashSet (key : string) (data : bytes) (now : Z) (s : GoFastServer)
    : option Reply :=
  let invalid := Some (s, createResponse RESP_ERROR (str "Invalid HSET data")) in
  if len data <? 4 then invalid
  else
    fieldLen ← u32_at data 0;
    let hi := uint32 (4 + fieldLen) in
    if len data <? hi then invalid
    else
      fieldBytes ← slice data 4 hi;
      value ← slice data hi (len data);
      Some (hash_store key (gostring fieldBytes) value now s).

Definition handleHashGet (key field : string) (now : Z) (s : GoFastServer) : Reply :=
  match storage s !! key with
  | None => (s, createResponse RESP_NOT_FOUND [])
  | Some item =>
      if expired item now then (evict key s, createResponse RESP_NOT_FOUND [])
      else match ItemVal item with
           | VHash hash =>
               match HashGet field hash with
               | None => (s, createResponse RESP_NOT_FOUND [])
               | Some value => (s, createResponse RESP_OK value)
               end
           | _ => (s, WRONGTYPE)
           end
  end.

Definition handleHashDel (key field : string) (now : Z) (s : GoFastServer) : Reply :=
  match storage s !! key with
  | None => (s, createResponse RESP_OK (str "0"))
  | Some item =>
      if expired item now then (evict key s, createResponse RESP_OK (str "0"))
      else match ItemVal item with
           | VHash hash =>
               let '(hash', removed) := HashDel field hash in
               let s1 := Store key (with_value item (VHash hash')) s in
               let s2 := if HashLen hash' =? 0 then evict key s1 else s1 in
               (s2, createResponse RESP_OK (str (if removed then "1" else "0")))
           | _ => (s, WRONGTYPE)
           end
  end.

Definition handleHashGetAll (key : string) (now : Z) (s : GoFastServer) : Reply :=
  match storage s !! key with
  | None => (s, createResponse RESP_OK (encodeHashMap ∅))
  | Some item =>
      if expired item now then (evict key s, createResponse RESP_OK (encodeHashMap ∅))
      else match ItemVal item with
           | VHash hash => (s, createResponse RESP_OK (encodeHashMap (HashGetAll hash)))
           | _ => (s, WRONGTYPE)
           end
  end.

Definition handleHashLen (key : string) (now : Z) (s : GoFastServer) : Reply :=
  match storage s !! key with
  | None => (s, createResponse RESP_OK (str "0"))
  | Some item =>
      if expired item now then (evict key s, createResponse RESP_OK (str "0"))
      else match ItemVal item with
           | VHash hash => (s, createResponse RESP_OK (itoa (HashLen hash)))
           | _ => (s, WRONGTYPE)
           end
  end.

Definition handleHashExists (key field : string) (now : Z) (s : GoFastServer) : Reply :=
  match storage s !! key with
  | None => (s, createResponse RESP_OK (str "0"))
  | Some item =>
      if expired item now then (evict key s, createResponse RESP_OK (str "0"))
      else match ItemVal item with
           | VHash hash =>
               (s, createResponse RESP_OK (str (if HashExists field hash then "1" else "0")))
           | _ => (s, WRONGTYPE)
           end
  end.

(** *** Counters and GETSET *)

(** [delta] is [+1] for [handleIncr] and [-1] for [handleDecr], which are
    otherwise the same text.  The deadline of [existing] is carried over
    whenever the key was found, also when it was found expired. *)
Definition handleIncrBy (delta : Z) (key : string) (now : Z) (s : GoFastServer) : Reply :=
  let existing := storage s !! key in
  let parsed : bytes + GoFastServer * Z :=
    match existing with
    | Some item =>
        if expired item now then inr (evict key s, 0)
        else match ItemVal item with
             | VString v =>
                 match ParseInt (gostring v) with
                 | None => inl ERR_not_integer
                 | Some parsed => inr (s, parsed)
                 end
             | _ => inl WRONGTYPE
             end
    | None => inr (s, 0)
    end in
  match parsed with
  | inl response => (s, response)
  | inr (s1, currentValue) =>
      let newValue := wrap64 (currentValue + delta) in
      let newValueStr := FormatInt newValue in
      let expiresAt :=
        match existing with
        | Some existingItem =>
            if 0 <? ExpiresAt existingItem then ExpiresAt existingItem else 0
        | None => 0
        end in
      (Store key (mkItem (VString (str newValueStr)) expiresAt now) s1,
       createResponse RESP_OK (str newValueStr))
  end.

Definition handleIncr : string -> Z -> GoFastServer -> Reply := handleIncrBy 1.
Definition handleDecr : string -> Z -> GoFastServer -> Reply := handleIncrBy (-1).

(** [oldValue] stays [nil] ([None]) unless a live STRING was found. *)
Definition handleGetSet (key : string) (newValue : bytes) (now : Z) (s : GoFastServer)
    : Reply :=
  let found : bytes + GoFastServer * option bytes * Z :=
    match storage s !! key with
    | Some item =>
        if expired item now then inr (evict key s, None, 0)
        else match ItemVal item with
             | VString v => inr (s, Some v, ExpiresAt item)
             | _ => inl WRONGTYPE
             end
    | None => inr (s, None, 0)
    end in
  match found with
  | inl response => (s, response)
  | inr (s1, oldValue, preserveTTL) =>
      let s2 := Store key (mkItem (VString newValue) preserveTTL now) s1 in
      match oldValue with
      | Some old => (s2, createResponse RESP_OK old)
      | None => (s2, createResponse RESP_NOT_FOUND [])
      end
  end.

(** *** KEYS and SCAN

    [storage.Range] visits the entries in an unspecified order;
    [map_to_list] fixes one.  Expired entries are skipped and their deletion
    is handed to a goroutine. *)
Definition range_live (now : Z) (s : GoFastServer) : GoFastServer * list string :=
  fold_left (fun '(s0, keys) '(keyStr, item) =>
      if expired item now then (spawn_delete keyStr s0, keys)
      else (s0, keys ++ [keyStr]))
    (map_to_list (storage s)) (s, []).

Definition handleKeys (pattern : string) (now : Z) (s : GoFastServer) : Reply :=
  let '(s1, keys) := range_live now s in
  (s1, createResponse RESP_OK (encodeStringArray (List.filter (matchPattern pattern) keys))).

(** [sort.Strings]: ascending byte-wise lexicographic order. *)
Definition string_le (a b : string) : Prop := String.leb a b = true.
#[global] Instance string_le_dec : RelDecision string_le :=
  fun a b => decide (String.leb a b = true).
Definition sort_strings (keys : list string) : list string := merge_sort string_le keys.

Definition handleScan (cursor : Z) (pattern : string) (count : Z) (now : Z)
    (s : GoFastServer) : Reply :=
  let '(s1, collected) := range_live now s in
  let keys := sort_strings collected in
  let n := Z.of_nat (length keys) in
  let startIndex := cursor in
  if n <=? startIndex then (s1, createResponse RESP_OK (encodeScanResponse 0 []))
  else
    let '(endIndex, nextCursor) :=
      if n <? startIndex + count then (n, 0)
      else (startIndex + count, uint32 (startIndex + count)) in
    let window := take (Z.to_nat (endIndex - startIndex)) (drop (Z.to_nat startIndex) keys) in
    let matchingKeys := List.filter (matchPattern pattern) window in
    (s1, createResponse RESP_OK (encodeScanResponse nextCursor matchingKeys)).

(** ** Batch engines *)

(** *** MGET *)

Definition ERROR (msg : string) : bytes := createResponse RESP_ERROR (str msg).

(** The key-parsing loop, [n] iterations left; [inl] is an early error
    response. *)
Fixpoint mget_parse (n : nat) (data : bytes) (offset : Z) (keys : list string)
    : option (bytes + list string) :=
  match n with
  | O => Some (inr keys)
  | S n' =>
      if len data <? offset + 4
      then Some (inl (ERROR "Invalid MGET data - insufficient data"))
      else
        keyLen ← u32_at data offset;
        let offset := offset + 4 in
        if len data <? offset + keyLen
        then Some (inl (ERROR "Invalid MGET data - key too long"))
        else
          key ← bytes_at data offset keyLen;
          mget_parse n' data (offset + keyLen) (keys ++ [gostring key])
  end.

(** The fetch loop: one entry of [values] per key, [None] for [nil]. *)
Fixpoint mget_fetch (keys : list string) (now : Z) (s : GoFastServer)
    : GoFastServer * list (option bytes) :=
  match keys with
  | [] => (s, [])
  | key :: rest =>
      let '(s1, value) :=
        match storage s !! key with
        | Some item =>
            if expired item now then (evict key s, None)
            else match ItemVal item with
                 | VString v => (s, Some v)
                 | _ => (s, None)
                 end
        | None => (s, None)
        end in
      let '(s2, values) := mget_fetch rest now s1 in
      (s2, value :: values)
  end.

Definition handleMGet (data : bytes) (now : Z) (s : GoFastServer) : option Reply :=
  if len data <? 4 then Some (s, ERROR "Invalid MGET data")
  else
    count ← u32_at data 0;
    if count =? 0 then Some (s, createResponse RESP_OK (encodeMGetResponse []))
    else
      parsed ← mget_parse (Z.to_nat count) data 4 [];
      match parsed with
      | inl response => Some (s, response)
      | inr keys =>
          let '(s1, values) := mget_fetch keys now s in
          Some (s1, createResponse RESP_OK (encodeMGetResponse values))
      end.

(** *** MSET *)

(** The SET step shared by SET, the pipelined SET and MSET: a fresh STRING
    item; the TTL index is written only when [ttl > 0]. *)
Definition set_string (key : string) (value : bytes) (ttl : Z) (now : Z)
    (s : GoFastServer) : GoFastServer :=
  if 0 <? ttl then
    let expiresAt := wrap64 (now + ttl) in
    Store key (mkItem (VString value) expiresAt now) (ttlIndex_set key expiresAt s)
  else Store key (mkItem (VString value) 0 now) s.

(** The parse-and-store loop; pairs stored before a parse error stay. *)
Fixpoint mset_loop (n : nat) (data : bytes) (offset : Z) (successCount : Z) (now : Z)
    (s : GoFastServer) : option Reply :=
  match n with
  | O => Some (s, createResponse RESP_OK (itoa successCount))
  | S n' =>
      if len data <? offset + 4
      then Some (s, ERROR "Invalid MSET data - insufficient key length")
      else
        keyLen ← u32_at data offset;
        let offset := offset + 4 in
        if len data <? offset + keyLen
        then Some (s, ERROR "Invalid MSET data - key too long")
        else
          key ← bytes_at data offset keyLen;
          let offset := offset + keyLen in
          if len data <? offset + 4
          then Some (s, ERROR "Invalid MSET data - insufficient value length")
          else
            valueLen ← u32_at data offset;
            let offset := offset + 4 in
            if len data <? offset + valueLen
            then Some (s, ERROR "Invalid MSET data - value too long")
            else
              value ← bytes_at data offset valueLen;
              let offset := offset + valueLen in
              if len data <? offset + 4
              then Some (s, ERROR "Invalid MSET data - insufficient TTL")
              else
                ttl ← u32_at data offset;
                mset_loop n' data (offset + 4) (successCount + 1) now
                  (set_string (gostring key) value ttl now s)
  end.

Definition handleMSet (data : bytes) (now : Z) (s : GoFastServer) : option Reply :=
  if len data <? 4 then Some (s, ERROR "Invalid MSET data")
  else
    count ← u32_at data 0;
    if count =? 0 then Some (s, createResponse RESP_OK (str "0"))
    else mset_loop (Z.to_nat count) data 4 0 now s.

(** ** The single-command dispatcher used inside a pipeline *)

Definition string_cmd_set (msg : Message) (now : Z) (s : GoFastServer) : Reply :=
  (set_string (gostring (Key msg)) (Value msg) (TTL msg) now s, createResponse RESP_OK []).

Definition string_cmd_get (key : string) (now : Z) (s : GoFastServer) : Reply :=
  match storage s !! key with
  | None => (s, createResponse RESP_NOT_FOUND [])
  | Some item =>
      if expired item now then (evict key s, createResponse RESP_NOT_FOUND [])
      else match ItemVal item with
           | VString v => (s, createResponse RESP_OK v)
           | _ => (s, WRONGTYPE)
           end
  end.

(** [LoadAndDelete], then the TTL entry when the key was there. *)
Definition string_cmd_del (key : string) (s : GoFastServer) : Reply :=
  match storage s !! key with
  | Some _ => (ttlIndex_delete key (Delete key s), createResponse RESP_OK (str "1"))
  | None => (s, createResponse RESP_OK (str "0"))
  end.

Definition string_cmd_exists (key : string) (now : Z) (s : GoFastServer) : Reply :=
  match storage s !! key with
  | None => (s, createResponse RESP_OK (str "0"))
  | Some item =>
      if expired item now then (evict key s, createResponse RESP_OK (str "0"))
      else (s, createResponse RESP_OK (str "1"))
  end.

(** EXPIRE loads the item and rewrites its deadline; there is no expiry
    test on this path. *)
Definition string_cmd_expire (key : string) (ttl : Z) (now : Z) (s : GoFastServer) : Reply :=
  match storage s !! key with
  | None => (s, createResponse RESP_OK (str "0"))
  | Some item =>
      if 0 <? ttl then
        let expiresAt := wrap64 (now + ttl) in
        (Store key (mkItem (ItemVal item) expiresAt (CreatedAt item))
           (ttlIndex_set key expiresAt s),
         createResponse RESP_OK (str "1"))
      else
        (Store key (mkItem (ItemVal item) 0 (CreatedAt item)) (ttlIndex_delete key s),
         createResponse RESP_OK (str "1"))
  end.

Definition string_cmd_ttl (key : string) (now : Z) (s : GoFastServer) : Reply :=
  match storage s !! key with
  | None => (s, createResponse RESP_OK (str "-2"))
  | Some item =>
      if ExpiresAt item =? 0 then (s, createResponse RESP_OK (str "-1"))
      else
        let ttl := wrap64 (ExpiresAt item - now) in
        if ttl <=? 0 then (evict key s, createResponse RESP_OK (str "-2"))
        else (s, createResponse RESP_OK (itoa ttl))
  end.

(** The cases shared verbatim by [processCommand] and
    [processIndividualCommand]; [None] from [Uint32] is the panic of LRANGE
    on a [Value] shorter than 4 bytes, [None] from [handleHashSet] its slice
    panic.  The outer [None] means the command is not one of these. *)
Definition dispatch_common (msg : Message) (now : Z) (s : GoFastServer)
    : option (option Reply) :=
  let key := gostring (Key msg) in
  match Command msg with
  | CMD_SET => Some (Some (string_cmd_set msg now s))
  | CMD_GET => Some (Some (string_cmd_get key now s))
  | CMD_DEL => Some (Some (string_cmd_del key s))
  | CMD_EXISTS => Some (Some (string_cmd_exists key now s))
  | CMD_EXPIRE => Some (Some (string_cmd_expire key (TTL msg) now s))
  | CMD_TTL => Some (Some (string_cmd_ttl key now s))
  | CMD_LPUSH => Some (Some (handleListPush key (Value msg) true now s))
  | CMD_RPUSH => Some (Some (handleListPush key (Value msg) false now s))
  | CMD_LPOP => Some (Some (handleListPop key true now s))
  | CMD_RPOP => Some (Some (handleListPop key false now s))
  | CMD_LLEN => Some (Some (handleListLen key now s))
  | CMD_LINDEX => Some (Some (handleListIndex key (TTL msg) now s))
  | CMD_LRANGE =>
      Some (end_ ← Uint32 (Value msg); Some (handleListRange key (TTL msg) end_ now s))
  | CMD_SADD => Some (Some (handleSetAdd key (gostring (Value msg)) now s))
  | CMD_SREM => Some (Some (handleSetRem key (gostring (Value msg)) now s))
  | CMD_SMEMBERS => Some (Some (handleSetMembers key now s))
  | CMD_SCARD => Some (Some (handleSetCard key now s))
  | CMD_SISMEMBER => Some (Some (handleSetIsMember key (gostring (Value msg)) now s))
  | CMD_HSET => Some (handleHashSet key (Value msg) now s)
  | CMD_HGET => Some (Some (handleHashGet key (gostring (Value msg)) now s))
  | CMD_HDEL => Some (Some (handleHashDel key (gostring (Value msg)) now s))
  | CMD_HGETALL => Some (Some (handleHashGetAll key now s))
  | CMD_HLEN => Some (Some (handleHashLen key now s))
  | CMD_HEXISTS => Some (Some (handleHashExists key (gostring (Value msg)) now s))
  | CMD_INCR => Some (Some (handleIncr key now s))
  | CMD_DECR => Some (Some (handleDecr key now s))
  | CMD_GETSET => Some (Some (handleGetSet key (Value msg) now s))
  | CMD_KEYS => Some (Some (handleKeys (gostring (Value msg)) now s))
  | CMD_SCAN => Some (Some (handleScan (TTL msg) (gostring (Value msg)) 10 now s))
  | _ => None
  end.

Definition processIndividualCommand (msg : Message) (now : Z) (s : GoFastServer)
    : option Reply :=
  match dispatch_common msg now s with
  | Some r => r
  | None => Some (s, ERROR "Unknown command in pipeline")
  end.

(** ** PIPELINE *)

Inductive ParseResult :=
  | Parsed (msg : Message) (newOffset : Z)
  | ParseError (newOffset : Z) (err : string).

(** [make([]byte, n)] and [copy(dst[at:], src)]; the latter panics when
    [at] is past the end of [dst] and copies what fits otherwise. *)
Definition make (n : Z) : bytes := repeat "000"%byte (Z.to_nat n).
Definition copy_at (dst : bytes) (at_ : Z) (src : bytes) : option bytes :=
  if (0 <=? at_) && (at_ <=? len dst) then
    let room := Z.to_nat (len dst - at_) in
    Some (take (Z.to_nat at_) dst ++ take room src
          ++ drop (Z.to_nat at_ + length (take room src)) dst)
  else None.

(** [keyLen := Uint32(data[offset:offset+4]); msg.Key = copy of
    data[offset+4 : offset+4+keyLen]]; yields the key and the offset after
    it. *)
Definition read_field (data : bytes) (offset : Z) : option (bytes * Z) :=
  fieldLen ← u32_at data offset;
  field ← bytes_at data (offset + 4) fieldLen;
  Some (field, offset + 4 + fieldLen).

(** The [switch command] of [parsePipelineMessage].  [offset] is the start
    of the payload, [remaining] its declared size and [endOffset] the start
    of the next frame.  None of the reads is checked against [remaining]. *)
Definition parse_payload (data : bytes) (offset : Z) (msgLen version command : Z)
    : option ParseResult :=
  let remaining := msgLen - 2 in
  let endOffset := offset + remaining in
  let message key value ttl :=
    Some (Parsed (mkMessage msgLen version command key value ttl) endOffset) in
  let too_short err := Some (ParseError endOffset err) in
  match command with
  | CMD_SET =>
      if remaining <? 12 then too_short "invalid SET message in pipeline"
      else
        '(key, offset) ← read_field data offset;
        ttl ← u32_at data offset;
        '(value, _) ← read_field data (offset + 4);
        message key value ttl
  | CMD_EXPIRE =>
      if remaining <? 8 then too_short "invalid EXPIRE message in pipeline"
      else
        '(key, offset) ← read_field data offset;
        ttl ← u32_at data offset;
        message key [] ttl
  | CMD_LPUSH | CMD_RPUSH | CMD_SADD | CMD_GETSET =>
      if remaining <? 8 then too_short "invalid list/set operation in pipeline"
      else
        '(key, offset) ← read_field data offset;
        '(value, _) ← read_field data offset;
        message key value 0
  | CMD_SCAN =>
      if remaining <? 8 then too_short "invalid SCAN message in pipeline"
      else
        cursor ← u32_at data offset;
        '(pattern, _) ← read_field data (offset + 4);
        message [] pattern cursor
  | CMD_HSET =>
      if remaining <? 12 then too_short "invalid HSET message in pipeline"
      else
        '(key, offset) ← read_field data offset;
        fieldLen ← u32_at data offset;
        fieldBytes ← bytes_at data (offset + 4) fieldLen;
        let offset := offset + 4 + fieldLen in
        valueLen ← u32_at data offset;
        let offset := offset + 4 in
        let buf := make (uint32 (4 + fieldLen + valueLen)) in
        buf ← (if len buf <? 4 then None else copy_at buf 0 (PutUint32 fieldLen));
        buf ← copy_at buf 4 fieldBytes;
        valueBytes ← slice data offset (offset + valueLen);
        buf ← copy_at buf (uint32 (4 + fieldLen)) valueBytes;
        message key buf 0
  | CMD_HGET | CMD_HDEL | CMD_HEXISTS =>
      if remaining <? 8 then too_short "invalid hash field operation in pipeline"
      else
        '(key, offset) ← read_field data offset;
        '(field, _) ← read_field data offset;
        message key field 0
  | CMD_LINDEX =>
      if remaining <? 8 then too_short "invalid LINDEX message in pipeline"
      else
        '(key, offset) ← read_field data offset;
        idx ← u32_at data offset;
        message key [] idx
  | CMD_LRANGE =>
      if remaining <? 12 then too_short "invalid LRANGE message in pipeline"
      else
        '(key, offset) ← read_field data offset;
        start ← u32_at data offset;
        endBytes ← slice data (offset + 4) (offset + 8);
        message key endBytes start
  | CMD_LPOP | CMD_RPOP | CMD_SREM | CMD_SISMEMBER =>
      keyLen ← u32_at data offset;
      key ← bytes_at data (offset + 4) keyLen;
      let offset := offset + 4 + keyLen in
      let remainingAfterKey := remaining - 4 - keyLen in
      if (0 <? remainingAfterKey) && ((command =? CMD_SREM) || (command =? CMD_SISMEMBER))
      then
        '(value, _) ← read_field data offset;
        message key value 0
      else message key [] 0
  | CMD_GET | CMD_DEL | CMD_EXISTS | CMD_TTL | CMD_LLEN | CMD_SMEMBERS | CMD_SCARD
  | CMD_HGETALL | CMD_HLEN | CMD_INCR | CMD_DECR | CMD_KEYS =>
      if remaining <? 4 then too_short "invalid key-only message in pipeline"
      else
        '(key, _) ← read_field data offset;
        message key [] 0
  | _ =>
      Some (ParseError endOffset
              ("unsupported command in pipeline: " +:+ itoa_string command))
  end.

Definition parsePipelineMessage (data : bytes) (offset : Z) : option ParseResult :=
  if len data <? offset + 6
  then Some (ParseError offset "insufficient data for message header")
  else
    msgLen ← u32_at data offset;
    let offset := offset + 4 in
    if len data <? offset + msgLen
    then Some (ParseError offset "message length exceeds available data")
    else
      version ← index data offset;
      command ← index data (offset + 1);
      parse_payload data (offset + 2) msgLen (Z_of_byte version) (Z_of_byte command).

(** The body of the loop of [handlePipeline]: the response of one slot, the
    state after it and the offset of the next slot. *)
Definition pipeline_slot (data : bytes) (offset : Z) (now : Z) (s : GoFastServer)
    : option (GoFastServer * bytes * Z) :=
  if len data <=? offset
  then Some (s, ERROR "Incomplete pipeline command", offset)
  else
    parsed ← parsePipelineMessage data offset;
    match parsed with
    | ParseError newOffset err =>
        Some (s, ERROR ("Pipeline parse error: " +:+ err), newOffset)
    | Parsed msg newOffset =>
        '(s1, response) ← processIndividualCommand msg now s;
        Some (s1, response, newOffset)
    end.

Fixpoint pipeline_loop (n : nat) (data : bytes) (offset : Z) (now : Z) (s : GoFastServer)
    : option (GoFastServer * list bytes) :=
  match n with
  | O => Some (s, [])
  | S n' =>
      '(s1, response, offset1) ← pipeline_slot data offset now s;
      '(s2, responses) ← pipeline_loop n' data offset1 now s1;
      Some (s2, response :: responses)
  end.

Definition handlePipeline (data : bytes) (now : Z) (s : GoFastServer) : option Reply :=
  if len data <? 4 then Some (s, ERROR "Invalid PIPELINE data")
  else
    count ← u32_at data 0;
    if count =? 0 then Some (s, createResponse RESP_OK (encodePipelineResponse []))
    else
      '(s1, responses) ← pipeline_loop (Z.to_nat count) data 4 now s;
      Some (s1, createResponse RESP_OK (encodePipelineResponse responses)).

(** ** The top-level dispatcher *)

Definition processCommand (msg : Message) (now : Z) (s : GoFastServer) : option Reply :=
  match Command msg with
  | CMD_MGET => handleMGet (Value msg) now s
  | CMD_MSET => handleMSet (Value msg) now s
  | CMD_PIPELINE => handlePipeline (Value msg) now s
  | _ =>
      match dispatch_common msg now s with
      | Some r => r
      | None => Some (s, ERROR "Unknown command")
      end
  end.

(** ** The frame reader (readMessage)

    The connection is the sequence of bytes still to arrive.  [ReadFull n]
    takes [n] bytes off it, or fails when the peer closes first.  The header
    reads return that failure ([ReadEOF]); the payload reads drop it and go
    on with a partly filled buffer ([ReadTruncated], about which nothing is
    stated). *)
Inductive ReadResult :=
  | ReadMessage (msg : Message) (rest : bytes)
  | ReadError (err : string) (rest : bytes)
  | ReadEOF
  | ReadTruncated.

Definition ReadFull (n : Z) (r : bytes) : option (bytes * bytes) :=
  if (0 <=? n) && (n <=? len r)
  then Some (take (Z.to_nat n) r, drop (Z.to_nat n) r)
  else None.

Definition read_u32 (r : bytes) : option (Z * bytes) :=
  '(b, r) ← ReadFull 4 r;
  v ← Uint32 b;
  Some (v, r).

(** A length-prefixed field: [[len:4][bytes]]. *)
Definition read_prefixed (r : bytes) : option (bytes * bytes) :=
  '(n, r) ← read_u32 r;
  ReadFull n r.

(** The [switch msg.Command] of [readMessage]: [inl] is the error returned
    for a frame that is too short for its command, [inr] the payload reads. *)
Definition read_payload (r : bytes) (length version command : Z)
    : string + option (Message * bytes) :=
  let remaining := length - 2 in
  let message key value ttl r :=
    Some (mkMessage length version command key value ttl, r) in
  let key_only err :=
    if remaining <? 4 then inl err
    else inr ('(key, r) ← read_prefixed r; message key [] 0 r) in
  let key_value err :=
    if remaining <? 8 then inl err
    else inr ('(key, r) ← read_prefixed r;
              '(value, r) ← read_prefixed r;
              message key value 0 r) in
  let whole err :=
    if remaining <? 4 then inl err
    else inr ('(value, r) ← ReadFull remaining r; message [] value 0 r) in
  match command with
  | CMD_SET =>
      if remaining <? 12 then inl "invalid SET message length"%string
      else inr ('(key, r) ← read_prefixed r;
                '(ttl, r) ← read_u32 r;
                '(value, r) ← read_prefixed r;
                message key value ttl r)
  | CMD_GET | CMD_DEL | CMD_EXISTS | CMD_TTL | CMD_LLEN | CMD_SMEMBERS | CMD_SCARD
  | CMD_HGETALL | CMD_HLEN => key_only "invalid message length"%string
  | CMD_EXPIRE =>
      if remaining <? 8 then inl "invalid EXPIRE message length"%string
      else inr ('(key, r) ← read_prefixed r;
                '(ttl, r) ← read_u32 r;
                message key [] ttl r)
  | CMD_LPUSH | CMD_RPUSH | CMD_SADD =>
      key_value "invalid list/set operation message length"%string
  | CMD_LPOP | CMD_RPOP | CMD_SREM | CMD_SISMEMBER =>
      inr ('(keyLen, r) ← read_u32 r;
           '(key, r) ← ReadFull keyLen r;
           let remainingAfterKey := remaining - 4 - keyLen in
           if (0 <? remainingAfterKey)
              && ((command =? CMD_SREM) || (command =? CMD_SISMEMBER))
           then '(value, r) ← read_prefixed r; message key value 0 r
           else message key [] 0 r)
  | CMD_LINDEX =>
      if remaining <? 8 then inl "invalid LINDEX message length"%string
      else inr ('(key, r) ← read_prefixed r;
                '(idx, r) ← read_u32 r;
                message key [] idx r)
  | CMD_LRANGE =>
      if remaining <? 12 then inl "invalid LRANGE message length"%string
      else inr ('(key, r) ← read_prefixed r;
                '(start, r) ← read_u32 r;
                '(endBytes, r) ← ReadFull 4 r;
                message key endBytes start r)
  | CMD_HSET | CMD_HGET | CMD_HDEL | CMD_HEXISTS =>
      if remaining <? 8 then inl "invalid hash operation message length"%string
      else inr ('(keyLen, r) ← read_u32 r;
                '(key, r) ← ReadFull keyLen r;
                '(fieldLen, r) ← read_u32 r;
                '(fieldBytes, r) ← ReadFull fieldLen r;
                let remainingAfterField := remaining - 8 - keyLen - fieldLen in
                if (0 <? remainingAfterField) && (command =? CMD_HSET)
                then
                  '(valueLen, r) ← read_u32 r;
                  let size := len fieldBytes + 4 + valueLen in
                  let from := uint32 (4 + fieldLen) in
                  '(tail, r) ← ReadFull (size - from) r;
                  message key (take (Z.to_nat from) (PutUint32 fieldLen ++ fieldBytes) ++ tail)
                    0 r
                else message key fieldBytes 0 r)
  | CMD_MGET => whole "invalid MGET message length"%string
  | CMD_MSET => whole "invalid MSET message length"%string
  | CMD_PIPELINE => whole "invalid PIPELINE message length"%string
  | CMD_INCR | CMD_DECR => key_only "invalid INCR/DECR message length"%string
  | CMD_GETSET => key_value "invalid GETSET message length"%string
  | CMD_KEYS =>
      if remaining <? 4 then inl "invalid KEYS message length"%string
      else inr ('(pattern, r) ← read_prefixed r; message [] pattern 0 r)
  | CMD_SCAN =>
      if remaining <? 8 then inl "invalid SCAN message length"%string
      else inr ('(cursor, r) ← read_u32 r;
                '(pattern, r) ← read_prefixed r;
                message [] pattern cursor r)
  | _ => inr (message [] [] 0 r)
  end.

(** One byte off the connection. *)
Definition read_byte (r : bytes) : option (Z * bytes) :=
  match r with
  | [] => None
  | b :: r => Some (Z_of_byte b, r)
  end.

Definition readMessage (reader : bytes) : ReadResult :=
  match read_u32 reader with
  | None => ReadEOF
  | Some (length, r) =>
      match read_byte r with
      | None => ReadEOF
      | Some (version, r) =>
          match read_byte r with
          | None => ReadEOF
          | Some (command, r) =>
              if negb (version =? PROTOCOL_VERSION)
              then ReadError ("unsupported protocol version: " +:+ itoa_string version
                              +:+ " (expected 1)") r
              else match read_payload r length version command with
                   | inl err => ReadError err r
                   | inr (Some (msg, rest)) => ReadMessage msg rest
                   | inr None => ReadTruncated
                   end
          end
      end
  end.

(** * Properties *)

(** ** Vocabulary *)

(** [key] holds [item], and [item] is not expired at time [now]. *)
Definition live_at (s : GoFastServer) (key : string) (now : Z) (item : CacheItem) : Prop :=
  storage s !! key = Some item /\ expired item now = false.

(** The reply is an ERROR whose data begins with "WRONGTYPE". *)
Definition wrongtype_reply (response : bytes) : Prop :=
  exists rest, response = createResponse RESP_ERROR (str "WRONGTYPE" ++ rest).

(** Wire grammar of the request payloads: a length-prefixed field, the MSET
    and MGET payloads, an embedded frame and the PIPELINE payload. *)
Definition field (b : bytes) : bytes := PutUint32 (len b) ++ b.

Definition mset_triple (pair : bytes * bytes * Z) : bytes :=
  let '(key, value, ttl) := pair in field key ++ field value ++ PutUint32 ttl.

Definition mset_payload (pairs : list (bytes * bytes * Z)) : bytes :=
  PutUint32 (Z.of_nat (length pairs)) ++ flat_map mset_triple pairs.

Definition mget_payload (keys : list bytes) : bytes :=
  PutUint32 (Z.of_nat (length keys)) ++ flat_map field keys.

Definition frame (version command : Z) (payload : bytes) : bytes :=
  PutUint32 (2 + len payload) ++ [byte_of_Z version; byte_of_Z command] ++ payload.

Definition pipeline_payload (frames : list bytes) : bytes :=
  PutUint32 (Z.of_nat (length frames)) ++ concat frames.

(** The packed HSET value the readers build. *)
Definition hset_data (field value : bytes) : bytes :=
  PutUint32 (len field) ++ field ++ value.

(** A byte string whose length fits a [uint32] length prefix. *)
Definition fits32 (b : bytes) : Prop := len b < 2 ^ 32.

(** The messages [readMessage] hands to the dispatcher for a key-only
    command, SCAN, MGET, MSET and PIPELINE. *)
Definition counter_message (command : Z) (key : bytes) : Message :=
  mkMessage (6 + len key) PROTOCOL_VERSION command key [] 0.

Definition scan_message (cursor : Z) (pattern : string) : Message :=
  mkMessage (10 + len (str pattern)) 1 CMD_SCAN [] (str pattern) cursor.

Definition mget_message (keys : list bytes) : Message :=
  mkMessage (2 + len (mget_payload keys)) 1 CMD_MGET [] (mget_payload keys) 0.

Definition mset_message (pairs : list (bytes * bytes * Z)) : Message :=
  mkMessage (2 + len (mset_payload pairs)) 1 CMD_MSET [] (mset_payload pairs) 0.

Definition pipeline_message (frames : list bytes) : Message :=
  mkMessage (2 + len (pipeline_payload frames)) 1 CMD_PIPELINE []
    (pipeline_payload frames) 0.

(** ** Byte-level facts *)

Lemma createResponse_status status data :
  head (createResponse status data) = Some (byte_of_Z status).
Proof. reflexivity. Qed.

Lemma OK_is_not_ERROR data data' :
  createResponse RESP_OK data <> createResponse RESP_ERROR data'.
Proof. unfold createResponse. intros H. inversion H. Qed.

Lemma Z_of_byte_of_Z z : Z_of_byte (byte_of_Z z) = z mod 256.
Proof.
  unfold Z_of_byte, byte_of_Z.
  assert (Hr : 0 <= z mod 256 < 256) by (apply Z.mod_pos_bound; lia).
  destruct (Byte.of_N (Z.to_N (z mod 256))) as [b|] eqn:Hb.
  - apply Byte.to_of_N in Hb. rewrite Hb. lia.
  - apply Byte.of_N_None_iff in Hb. lia.
Qed.

Lemma Z_of_byte_range b : 0 <= Z_of_byte b < 256.
Proof. unfold Z_of_byte. pose proof (Byte.to_N_bounded b). lia. Qed.

Lemma Uint32_PutUint32 v rest :
  0 <= v < 2 ^ 32 -> Uint32 (PutUint32 v ++ rest) = Some v.
Proof.
  intros Hv. unfold PutUint32. simpl. rewrite !Z_of_byte_of_Z. f_equal.
  change (2 ^ 24) with 16777216. change (2 ^ 16) with 65536. change (2 ^ 8) with 256.
  change (2 ^ 32) with 4294967296 in Hv.
  Z.to_euclidean_division_equations. lia.
Qed.

Lemma Uint32_is_Some b : 4 <= len b -> is_Some (Uint32 b).
Proof.
  unfold len. destruct b as [|b0 [|b1 [|b2 [|b3 rest]]]]; simpl; try lia. eauto.
Qed.

Lemma Uint32_range b v : Uint32 b = Some v -> 0 <= v < 2 ^ 32.
Proof.
  destruct b as [|b0 [|b1 [|b2 [|b3 rest]]]]; try discriminate. simpl. intros [= <-].
  pose proof (Z_of_byte_range b0). pose proof (Z_of_byte_range b1).
  pose proof (Z_of_byte_range b2). pose proof (Z_of_byte_range b3). lia.
Qed.

Lemma wrap64_small z : - 2 ^ 63 <= z < 2 ^ 63 -> wrap64 z = z.
Proof. intros Hz. unfold wrap64. rewrite Z.mod_small; lia. Qed.

Lemma len_nonneg b : 0 <= len b.
Proof. unfold len. lia. Qed.

Lemma len_app a b : len (a ++ b) = len a + len b.
Proof. unfold len. rewrite length_app. lia. Qed.

Lemma len_PutUint32 v : len (PutUint32 v) = 4.
Proof. reflexivity. Qed.

Lemma len_nil : len [] = 0.
Proof. reflexivity. Qed.

Lemma len_frame version command payload :
  len (frame version command payload) = 6 + len payload.
Proof. unfold frame. rewrite !len_app, len_PutUint32. unfold len. simpl. lia. Qed.

Ltac len_facts :=
  repeat match goal with
         | |- context [len ?b] =>
             lazymatch goal with
             | _ : 0 <= len b |- _ => fail
             | _ => pose proof (len_nonneg b)
             end
         end.

Ltac len_lia := rewrite ?len_app, ?len_PutUint32; len_facts; unfold fits32 in *; lia.

Ltac bound_check :=
  match goal with
  | |- context [?a <? ?b] =>
      replace (a <? b) with false
        by (symmetry; apply Z.ltb_ge; rewrite ?len_app, ?len_PutUint32;
            len_facts; unfold fits32 in *; lia)
  end.

(** A read that succeeds on [data] reads the same bytes when [data] sits
    inside a longer buffer. *)
Lemma slice_ctx pre post data lo hi x :
  slice data lo hi = Some x ->
  slice (pre ++ data ++ post) (len pre + lo) (len pre + hi) = Some x.
Proof.
  unfold slice. pose proof (len_nonneg pre). pose proof (len_nonneg post).
  destruct ((0 <=? lo) && (lo <=? hi) && (hi <=? len data)) eqn:Hc; [|done].
  apply andb_prop in Hc as [Hc Hc3]. apply andb_prop in Hc as [Hc1 Hc2].
  intros [= <-].
  rewrite !len_app.
  replace ((0 <=? len pre + lo) && (len pre + lo <=? len pre + hi)
           && (len pre + hi <=? len pre + (len data + len post))) with true
    by (symmetry; repeat (apply andb_true_intro; split); lia).
  f_equal. unfold len in *.
  replace (Z.to_nat (Z.of_nat (length pre) + lo)) with (length pre + Z.to_nat lo)%nat by lia.
  replace (Z.of_nat (length pre) + hi - (Z.of_nat (length pre) + lo)) with (hi - lo) by lia.
  rewrite drop_app_add.
  rewrite drop_app_le by lia.
  rewrite take_app_le; [done|]. rewrite length_drop. lia.
Qed.

Lemma slice_whole pre post x :
  slice (pre ++ x ++ post) (len pre) (len pre + len x) = Some x.
Proof.
  replace (len pre) with (len pre + 0) at 1 by lia.
  apply slice_ctx. unfold slice.
  replace ((0 <=? 0) && (0 <=? len x) && (len x <=? len x)) with true
    by (pose proof (len_nonneg x); symmetry; repeat (apply andb_true_intro; split); lia).
  f_equal. simpl. unfold len. rewrite Z.sub_0_r, Nat2Z.id. apply firstn_all.
Qed.

(** Reading behind a prefix is reading in what follows it. *)
Lemma slice_skip a data lo hi :
  0 <= lo -> slice (a ++ data) (len a + lo) (len a + hi) = slice data lo hi.
Proof.
  intros Hlo. unfold slice. rewrite len_app. pose proof (len_nonneg a) as Ha.
  replace ((0 <=? len a + lo) && (len a + lo <=? len a + hi)
           && (len a + hi <=? len a + len data))
    with ((0 <=? lo) && (lo <=? hi) && (hi <=? len data)).
  2: { destruct (Z.leb_spec 0 lo), (Z.leb_spec lo hi), (Z.leb_spec hi (len data));
       simpl; symmetry;
       first [ repeat (apply andb_true_intro; split); lia
             | apply andb_false_iff; first [right; lia | left; apply andb_false_iff];
               first [right; lia | left; lia] ]. }
  destruct ((0 <=? lo) && (lo <=? hi) && (hi <=? len data)); [|done].
  f_equal. unfold len in *.
  replace (Z.to_nat (Z.of_nat (length a) + lo)) with (length a + Z.to_nat lo)%nat by lia.
  replace (Z.of_nat (length a) + hi - (Z.of_nat (length a) + lo)) with (hi - lo) by lia.
  by rewrite drop_app_add.
Qed.

Lemma slice_in_bounds data lo hi :
  0 <= lo <= hi -> hi <= len data ->
  exists x, slice data lo hi = Some x /\ len x = hi - lo.
Proof.
  intros Hlo Hhi. unfold slice.
  replace ((0 <=? lo) && (lo <=? hi) && (hi <=? len data)) with true
    by (symmetry; repeat (apply andb_true_intro; split); lia).
  eexists. split; [reflexivity|].
  unfold len in *. rewrite length_take, length_drop. lia.
Qed.

Lemma index_ctx pre post data i b :
  index data i = Some b -> index (pre ++ data ++ post) (len pre + i) = Some b.
Proof.
  unfold index. pose proof (len_nonneg pre). pose proof (len_nonneg post).
  destruct ((0 <=? i) && (i <? len data)) eqn:Hc; [|done].
  apply andb_prop in Hc as [Hc1 Hc2]. intros Hb.
  rewrite !len_app.
  replace ((0 <=? len pre + i) && (len pre + i <? len pre + (len data + len post)))
    with true by (symmetry; apply andb_true_intro; split; lia).
  unfold len in *.
  replace (Z.to_nat (Z.of_nat (length pre) + i)) with (length pre + Z.to_nat i)%nat by lia.
  rewrite lookup_app_r by lia.
  replace (length pre + Z.to_nat i - length pre)%nat with (Z.to_nat i) by lia.
  by rewrite lookup_app_l by (apply lookup_lt_Some in Hb; lia).
Qed.

Lemma u32_at_ctx pre post data off v :
  u32_at data off = Some v -> u32_at (pre ++ data ++ post) (len pre + off) = Some v.
Proof.
  unfold u32_at. destruct (slice data off (off + 4)) as [x|] eqn:Hs; [|done].
  simpl. intros Hv.
  replace (len pre + off + 4) with (len pre + (off + 4)) by lia.
  by rewrite (slice_ctx _ _ _ _ _ _ Hs).
Qed.

Lemma bytes_at_ctx pre post data off n x :
  bytes_at data off n = Some x -> bytes_at (pre ++ data ++ post) (len pre + off) n = Some x.
Proof.
  unfold bytes_at. intros Hs.
  replace (len pre + off + n) with (len pre + (off + n)) by lia.
  by apply slice_ctx.
Qed.

Lemma read_field_ctx pre post data off x off' :
  read_field data off = Some (x, off') ->
  read_field (pre ++ data ++ post) (len pre + off) = Some (x, len pre + off').
Proof.
  unfold read_field.
  destruct (u32_at data off) as [n|] eqn:Hn; [|done]. simpl.
  destruct (bytes_at data (off + 4) n) as [y|] eqn:Hy; [|done]. simpl.
  intros [= <- <-].
  rewrite (u32_at_ctx _ _ _ _ _ Hn). simpl.
  replace (len pre + off + 4) with (len pre + (off + 4)) by lia.
  rewrite (bytes_at_ctx _ _ _ _ _ _ Hy). simpl. do 2 f_equal. lia.
Qed.

Lemma u32_at_PutUint32 pre post v :
  0 <= v < 2 ^ 32 -> u32_at (pre ++ PutUint32 v ++ post) (len pre) = Some v.
Proof.
  intros Hv. unfold u32_at.
  change 4 with (len (PutUint32 v)). rewrite slice_whole.
  pose proof (Uint32_PutUint32 v [] Hv) as Hu. by rewrite app_nil_r in Hu.
Qed.

Lemma u32_at_head v rest :
  0 <= v < 2 ^ 32 -> u32_at (PutUint32 v ++ rest) 0 = Some v.
Proof. intros Hv. exact (u32_at_PutUint32 [] rest v Hv). Qed.

Lemma bytes_at_whole pre post x :
  bytes_at (pre ++ x ++ post) (len pre) (len x) = Some x.
Proof. apply slice_whole. Qed.

Lemma u32_at_skip a data off :
  0 <= off -> u32_at (a ++ data) (len a + off) = u32_at data off.
Proof.
  intros Hoff. unfold u32_at.
  replace (len a + off + 4) with (len a + (off + 4)) by lia. by rewrite slice_skip.
Qed.

Lemma bytes_at_skip a data off n :
  0 <= off -> bytes_at (a ++ data) (len a + off) n = bytes_at data off n.
Proof.
  intros Hoff. unfold bytes_at.
  replace (len a + off + n) with (len a + (off + n)) by lia. by rewrite slice_skip.
Qed.

Lemma bytes_at_head x post : bytes_at (x ++ post) 0 (len x) = Some x.
Proof. exact (bytes_at_whole [] post x). Qed.

Lemma u32_at_in_bounds data off :
  0 <= off -> off + 4 <= len data ->
  exists v, u32_at data off = Some v /\ 0 <= v < 2 ^ 32.
Proof.
  intros Hoff Hlen. unfold u32_at.
  destruct (slice_in_bounds data off (off + 4)) as (x & -> & Hx); [lia|lia|].
  cbn [mbind option_bind].
  destruct (Uint32_is_Some x) as [v Hv]; [lia|].
  exists v. split; [done | by eapply Uint32_range].
Qed.

Lemma bytes_at_in_bounds data off n :
  0 <= off -> 0 <= n -> off + n <= len data -> is_Some (bytes_at data off n).
Proof.
  intros Hoff Hn Hlen. unfold bytes_at.
  destruct (slice_in_bounds data off (off + n)) as (x & -> & _); [lia|lia|eauto].
Qed.

(** Resolve the read at the head of the goal: skip the chunks in front of
    it, then read the chunk itself. *)
Ltac read_head :=
  repeat match goal with
         | |- (u32_at (?a ++ ?d) ?o ≫= _) = _ =>
             replace o with (len a + (o - len a)) by lia;
             rewrite (u32_at_skip a d (o - len a)) by len_lia
         | |- (bytes_at (?a ++ ?d) ?o ?n ≫= _) = _ =>
             replace o with (len a + (o - len a)) by lia;
             rewrite (bytes_at_skip a d (o - len a) n) by len_lia
         end;
  match goal with
  | |- (u32_at (PutUint32 ?v ++ ?d) ?o ≫= _) = _ =>
      replace o with 0 by len_lia; rewrite (u32_at_head v d) by len_lia
  | |- (bytes_at (?x ++ ?d) ?o ?n ≫= _) = _ =>
      replace o with 0 by len_lia; replace n with (len x) by len_lia;
      rewrite (bytes_at_head x d)
  end;
  cbn [mbind option_bind].

(** Go on under a guard that did not fire. *)
Ltac guarded :=
  match goal with
  | |- is_Some (if ?a <? ?b then _ else _) =>
      destruct (Z.ltb_spec a b); [eauto|]
  | |- is_Some (u32_at ?d ?o ≫= _) =>
      let v := fresh "v" in
      let Hv := fresh "Hv" in
      let Hr := fresh "Hr" in
      destruct (u32_at_in_bounds d o) as (v & Hv & Hr); [lia | lia |];
      rewrite Hv; cbn [mbind option_bind]
  | |- is_Some (bytes_at ?d ?o ?n ≫= _) =>
      let x := fresh "x" in
      let Hx := fresh "Hx" in
      destruct (bytes_at_in_bounds d o n) as [x Hx]; [lia | lia | lia |];
      rewrite Hx; cbn [mbind option_bind]
  end.

Lemma flat_map_map {A B C} (f : A -> B) (g : B -> list C) l :
  flat_map g (map f l) = flat_map (fun x => g (f x)) l.
Proof. induction l as [|x l IH]; simpl; [done | by rewrite IH]. Qed.

#[global] Instance gostring_inj : Inj (=) (=) gostring.
Proof.
  intros a b H. unfold gostring in H.
  rewrite <- (list_byte_of_string_of_list_byte a), <- (list_byte_of_string_of_list_byte b).
  by rewrite H.
Qed.

(** ** The pattern matcher terminates within its fuel *)

Definition wildcard_measure (pattern s : bytes) (i j mtch : Z) : Z :=
  (len s - mtch) * (len s + len pattern + 1) + (len s - i) + (len pattern - j).

(** Beyond the measure of the state the amount of fuel does not matter. *)
Lemma wildcardMatch_loop_fuel pattern s : forall fuel1 fuel2 i j starIdx mtch,
  0 <= mtch <= i -> i <= len s -> 0 <= j <= len pattern -> -1 <= starIdx < len pattern ->
  wildcard_measure pattern s i j mtch < Z.of_nat fuel1 ->
  wildcard_measure pattern s i j mtch < Z.of_nat fuel2 ->
  wildcardMatch_loop fuel1 pattern s i j starIdx mtch
  = wildcardMatch_loop fuel2 pattern s i j starIdx mtch.
Proof.
  unfold wildcard_measure.
  induction fuel1 as [|fuel1 IH]; intros fuel2 i j starIdx mtch Hm Hi Hj Hstar H1 H2.
  { exfalso. assert (0 <= (len s - mtch) * (len s + len pattern + 1)) by nia. lia. }
  destruct fuel2 as [|fuel2].
  { exfalso. assert (0 <= (len s - mtch) * (len s + len pattern + 1)) by nia. lia. }
  cbn [wildcardMatch_loop].
  destruct (Z.ltb_spec i (len s)) as [Hlt|]; [|done].
  destruct (Z.ltb_spec j (len pattern)) as [Hjlt|Hjge]; cbn [andb].
  - destruct (byte_is "?" (index pattern j) || same_byte (index pattern j) (index s i)).
    + apply IH; lia.
    + destruct (byte_is "*" (index pattern j)).
      * apply IH; try lia; nia.
      * destruct (Z.eqb_spec starIdx (-1)); cbn [negb]; [done|].
        apply IH; try lia;
          replace ((len s - (mtch + 1)) * (len s + len pattern + 1))
            with ((len s - mtch) * (len s + len pattern + 1) - (len s + len pattern + 1))
            by ring; lia.
  - destruct (Z.eqb_spec starIdx (-1)); cbn [negb]; [done|].
    apply IH; try lia;
      replace ((len s - (mtch + 1)) * (len s + len pattern + 1))
        with ((len s - mtch) * (len s + len pattern + 1) - (len s + len pattern + 1))
        by ring; lia.
Qed.

(** The fuel [wildcardMatch] starts with is never used up: any larger
    amount gives the same answer. *)
Lemma wildcardMatch_fuel_enough pattern s extra :
  wildcardMatch_loop (wildcard_fuel (str pattern) (str s) + extra) (str pattern) (str s)
    0 0 (-1) 0
  = wildcardMatch pattern s.
Proof.
  unfold wildcardMatch.
  pose proof (len_nonneg (str pattern)) as Hp. pose proof (len_nonneg (str s)) as Hs.
  assert (Hfuel : wildcard_measure (str pattern) (str s) 0 0 0
                  < Z.of_nat (wildcard_fuel (str pattern) (str s))).
  { unfold wildcard_measure, wildcard_fuel, len in *. nia. }
  apply wildcardMatch_loop_fuel; try lia.
Qed.

(** ** Type checks *)

Lemma handleHashSet_packed key field value now s :
  4 + len field < 2 ^ 32 ->
  handleHashSet key (hset_data field value) now s
  = Some (hash_store key (gostring field) value now s).
Proof.
  intros Hf. pose proof (len_nonneg field) as Hnf. pose proof (len_nonneg value) as Hnv.
  unfold handleHashSet, hset_data.
  rewrite !len_app, len_PutUint32.
  replace (4 + (len field + len value) <? 4) with false by lia.
  rewrite u32_at_head by lia.
  cbn [mbind option_bind]. unfold uint32. rewrite Z.mod_small by lia.
  replace (4 + (len field + len value) <? 4 + len field) with false by lia.
  pose proof (slice_whole (PutUint32 (len field)) value field) as H1.
  rewrite len_PutUint32 in H1. rewrite H1. cbn [mbind option_bind].
  pose proof (slice_whole (PutUint32 (len field) ++ field) [] value) as H2.
  rewrite len_app, len_PutUint32, app_nil_r, <- app_assoc in H2.
  replace (4 + len field + len value) with (4 + (len field + len value)) in H2 by lia.
  rewrite H2. reflexivity.
Qed.

Lemma WRONGTYPE_wrongtype_reply : wrongtype_reply WRONGTYPE.
Proof.
  exists (str " Operation against a key holding the wrong kind of value"). reflexivity.
Qed.

(** The value type a command works on; [None] for the commands that do not
    look at the type. *)
Definition command_type (command : Z) : option Z :=
  match command with
  | CMD_GET | CMD_INCR | CMD_DECR | CMD_GETSET => Some TYPE_STRING
  | CMD_LPUSH | CMD_RPUSH | CMD_LPOP | CMD_RPOP | CMD_LLEN | CMD_LINDEX | CMD_LRANGE =>
      Some TYPE_LIST
  | CMD_SADD | CMD_SREM | CMD_SMEMBERS | CMD_SCARD | CMD_SISMEMBER => Some TYPE_SET
  | CMD_HSET | CMD_HGET | CMD_HDEL | CMD_HGETALL | CMD_HLEN | CMD_HEXISTS => Some TYPE_HASH
  | _ => None
  end.

(** What the dispatcher needs from the arguments before it reaches the type
    check: LRANGE decodes its end index from 4 bytes, HSET unpacks its
    field/value payload. *)
Definition arguments_ok (msg : Message) : Prop :=
  (Command msg = CMD_LRANGE -> 4 <= len (Value msg))
  /\ (Command msg = CMD_HSET ->
      exists field value, Value msg = hset_data field value /\ 4 + len field < 2 ^ 32).

Definition typed_commands : list Z :=
  [CMD_GET; CMD_INCR; CMD_DECR; CMD_GETSET;
   CMD_LPUSH; CMD_RPUSH; CMD_LPOP; CMD_RPOP; CMD_LLEN; CMD_LINDEX; CMD_LRANGE;
   CMD_SADD; CMD_SREM; CMD_SMEMBERS; CMD_SCARD; CMD_SISMEMBER;
   CMD_HSET; CMD_HGET; CMD_HDEL; CMD_HGETALL; CMD_HLEN; CMD_HEXISTS].

Lemma command_type_typed command ty :
  command_type command = Some ty -> In command typed_commands.
Proof.
  unfold command_type.
  repeat (match goal with
          | |- context [match ?c with _ => _ end] => destruct c; try discriminate
          end); intros _; simpl; tauto.
Qed.

Ltac wrong_type Hl He Hty :=
  rewrite ?Hl, ?He;
  let v := fresh "v" in
  destruct (ItemVal _) as [v|v|v|v] eqn:?; unfold DataType in Hty;
  repeat match goal with H : ItemVal _ = _ |- _ => rewrite H in Hty end;
  first [ by exfalso; apply Hty | reflexivity ].

Lemma typed_command_rejects msg now s item ty :
  live_at s (gostring (Key msg)) now item ->
  command_type (Command msg) = Some ty ->
  DataType item <> ty ->
  arguments_ok msg ->
  processCommand msg now s = Some (s, WRONGTYPE).
Proof.
  intros [Hl He] Hcmd Hty [Hlrange Hhset].
  pose proof (command_type_typed _ _ Hcmd) as Hin.
  destruct msg as [length version command key value ttl]. simpl in *.
  unfold typed_commands in Hin.
  repeat (destruct Hin as [<- | Hin]); try contradiction;
    injection Hcmd as <-;
    unfold processCommand, dispatch_common; simpl;
    unfold string_cmd_get, handleIncr, handleDecr, handleIncrBy, handleGetSet,
      handleListPush, handleListPop, handleListLen, handleListIndex, handleListRange,
      handleSetAdd, handleSetRem, handleSetMembers, handleSetCard, handleSetIsMember,
      handleHashGet, handleHashDel, handleHashGetAll, handleHashLen, handleHashExists.
  all: try (f_equal; wrong_type Hl He Hty).
  - destruct (Uint32_is_Some value (Hlrange eq_refl)) as [end_ ->]. simpl.
    f_equal. wrong_type Hl He Hty.
  - destruct (Hhset eq_refl) as (field & v & -> & Hf).
    rewrite handleHashSet_packed by done. unfold hash_store.
    f_equal. wrong_type Hl He Hty.
Qed.

Lemma OK_not_wrongtype data : ~ wrongtype_reply (createResponse RESP_OK data).
Proof. intros [rest H]. exact (OK_is_not_ERROR _ _ H). Qed.

(** C1 (as amended).  On a live key, every command that works on one value
    type (GET, GETSET, INCR, DECR, the list, set and hash commands) replies
    with the WRONGTYPE error and leaves the state as it was when the key
    holds another type.  SET, DEL and EXISTS do not look at the type: SET
    replies OK and stores the new STRING, DEL replies "1" and removes the
    key, EXISTS replies "1". *)
Theorem type_check_by_command (msg : Message) (now : Z) (s : GoFastServer)
    (item : CacheItem) :
  live_at s (gostring (Key msg)) now item ->
  let key := gostring (Key msg) in
  (forall ty,
     command_type (Command msg) = Some ty -> DataType item <> ty -> arguments_ok msg ->
     exists response,
       processCommand msg now s = Some (s, response) /\ wrongtype_reply response)
  /\ (Command msg = CMD_SET ->
      exists s', processCommand msg now s = Some (s', createResponse RESP_OK [])
                 /\ (exists item', storage s' !! key = Some item'
                                   /\ ItemVal item' = VString (Value msg)))
  /\ (Command msg = CMD_DEL ->
      exists s', processCommand msg now s = Some (s', createResponse RESP_OK (str "1"))
                 /\ storage s' !! key = None /\ ttlIndex s' !! key = None)
  /\ (Command msg = CMD_EXISTS ->
      processCommand msg now s = Some (s, createResponse RESP_OK (str "1"))).
Proof.
  intros Hlive key. split; [|split; [|split]].
  - intros ty Hcmd Hty Hargs. exists WRONGTYPE.
    split; [by eapply typed_command_rejects | apply WRONGTYPE_wrongtype_reply].
  - destruct msg as [length version command k value ttl]. simpl in *. intros ->.
    eexists. split; [reflexivity|]. unfold set_string. simpl.
    destruct (0 <? ttl); eexists; (split; [apply lookup_insert_eq | reflexivity]).
  - destruct msg as [length version command k value ttl]. simpl in *. intros ->.
    destruct Hlive as [Hl He].
    unfold processCommand, dispatch_common; simpl. unfold string_cmd_del. rewrite Hl.
    eexists. split; [reflexivity|]. split; apply lookup_delete_eq.
  - destruct msg as [length version command k value ttl]. simpl in *. intros ->.
    destruct Hlive as [Hl He].
    unfold processCommand, dispatch_common; simpl. unfold string_cmd_exists.
    by rewrite Hl, He.
Qed.

Definition list_demo : GoFastServer :=
  ttlIndex_set "jobs" 2000
    (Store "jobs" (mkItem (VList [str "a"]) 2000 900) NewGoFastServer).

Definition get_jobs : Message := mkMessage 10 1 CMD_GET (str "jobs") [] 0.
Definition set_jobs : Message := mkMessage 22 1 CMD_SET (str "jobs") (str "v") 0.
Definition del_jobs : Message := mkMessage 10 1 CMD_DEL (str "jobs") [] 0.
Definition exists_jobs : Message := mkMessage 10 1 CMD_EXISTS (str "jobs") [] 0.

Lemma type_check_by_command_witness :
  exists response,
    processCommand get_jobs 1000 list_demo = Some (list_demo, response)
    /\ wrongtype_reply response.
Proof.
  pose proof (type_check_by_command get_jobs 1000 list_demo
                (mkItem (VList [str "a"]) 2000 900)) as H.
  destruct H as [H _]; [split; vm_compute; reflexivity|].
  apply (H TYPE_STRING); [reflexivity | discriminate | split; discriminate].
Defined.

(** C1 as stated fails: against the key "jobs", which holds a live LIST,
    SET, DEL and EXISTS reply OK, and SET and DEL change what is stored. *)
Lemma set_del_exists_ignore_type :
  live_at list_demo "jobs" 1000 (mkItem (VList [str "a"]) 2000 900)
  /\ processCommand set_jobs 1000 list_demo
     = Some (set_string "jobs" (str "v") 0 1000 list_demo, createResponse RESP_OK [])
  /\ storage (set_string "jobs" (str "v") 0 1000 list_demo) !! "jobs"
     = Some (mkItem (VString (str "v")) 0 1000)
  /\ processCommand del_jobs 1000 list_demo
     = Some (evict "jobs" list_demo, createResponse RESP_OK (str "1"))
  /\ processCommand exists_jobs 1000 list_demo
     = Some (list_demo, createResponse RESP_OK (str "1"))
  /\ ~ wrongtype_reply (createResponse RESP_OK [])
  /\ ~ wrongtype_reply (createResponse RESP_OK (str "1")).
Proof.
  split; [split; vm_compute; reflexivity|].
  split; [reflexivity|].
  split; [vm_compute; reflexivity|].
  split; [vm_compute; reflexivity|].
  split; [vm_compute; reflexivity|].
  split; apply OK_not_wrongtype.
Qed.

(** ** Lazy expiration *)

(** The commands that test the deadline before they look at the value. *)
Definition expiring_readers : list Z :=
  [CMD_GET; CMD_EXISTS; CMD_LPOP; CMD_RPOP; CMD_LLEN; CMD_LINDEX;
   CMD_SREM; CMD_SMEMBERS; CMD_SCARD; CMD_SISMEMBER;
   CMD_HGET; CMD_HDEL; CMD_HGETALL; CMD_HLEN; CMD_HEXISTS].

(** On an expired key each of them evicts the key from both maps. *)
Lemma readers_evict_expired msg now s item :
  storage s !! gostring (Key msg) = Some item ->
  expired item now = true ->
  In (Command msg) expiring_readers ->
  exists response,
    processCommand msg now s = Some (evict (gostring (Key msg)) s, response).
Proof.
  intros Hl He Hin. destruct msg as [length version command key value ttl].
  simpl in *. unfold expiring_readers in Hin.
  repeat (destruct Hin as [<- | Hin]); try contradiction;
    unfold processCommand, dispatch_common; simpl;
    unfold string_cmd_get, string_cmd_exists, handleListPop, handleListLen,
      handleListIndex, handleSetRem, handleSetMembers, handleSetCard, handleSetIsMember,
      handleHashGet, handleHashDel, handleHashGetAll, handleHashLen, handleHashExists;
    rewrite Hl, He; eexists; reflexivity.
Qed.

(** EXPIRE answers "1" for every stored key, whatever its deadline, and
    keeps the key. *)
Lemma expire_skips_expiry_test msg now s item :
  storage s !! gostring (Key msg) = Some item ->
  Command msg = CMD_EXPIRE ->
  exists s' item',
    processCommand msg now s = Some (s', createResponse RESP_OK (str "1"))
    /\ storage s' !! gostring (Key msg) = Some item'
    /\ ItemVal item' = ItemVal item.
Proof.
  intros Hl Hcmd. destruct msg as [length version command key value ttl].
  simpl in *. subst command.
  unfold processCommand, dispatch_common; simpl. unfold string_cmd_expire. rewrite Hl.
  destruct (0 <? ttl); eexists _, _; (split; [reflexivity|]); simpl;
    by rewrite lookup_insert_eq.
Qed.

(** "session" holds a STRING whose deadline 100 has passed at time 200. *)
Definition expired_demo : GoFastServer :=
  ttlIndex_set "session" 100
    (Store "session" (mkItem (VString (str "v")) 100 50) NewGoFastServer).

Definition expire_session : Message := mkMessage 14 1 CMD_EXPIRE (str "session") [] 60.
Definition exists_session : Message := mkMessage 13 1 CMD_EXISTS (str "session") [] 0.
Definition get_session : Message := mkMessage 13 1 CMD_GET (str "session") [] 0.

Definition revived_demo : GoFastServer :=
  ttlIndex_set "session" 260
    (Store "session" (mkItem (VString (str "v")) 260 50) NewGoFastServer).

(** C2 at its failing input.  At time 200 the key "session" is expired.
    EXISTS evicts it and answers "0"; EXPIRE with TTL 60 answers "1", gives
    the stale item the deadline 260 and keeps it in both maps, after which
    GET returns the old value. *)
Theorem expire_revives_expired_key :
  expired (mkItem (VString (str "v")) 100 50) 200 = true
  /\ storage expired_demo !! "session" = Some (mkItem (VString (str "v")) 100 50)
  /\ processCommand exists_session 200 expired_demo
     = Some (NewGoFastServer, createResponse RESP_OK (str "0"))
  /\ processCommand expire_session 200 expired_demo
     = Some (revived_demo, createResponse RESP_OK (str "1"))
  /\ processCommand get_session 201 revived_demo
     = Some (revived_demo, createResponse RESP_OK (str "v")).
Proof. repeat split; vm_compute; reflexivity. Qed.

(** ** The TTL index *)

(** Invariant 2 of the data model: a deadline in the item has the same
    entry in the index, and every index entry names a stored key with that
    deadline. *)
Definition ttl_index_consistent (s : GoFastServer) : Prop :=
  (forall key item,
     storage s !! key = Some item -> 0 < ExpiresAt item ->
     ttlIndex s !! key = Some (ExpiresAt item))
  /\ (forall key deadline,
        ttlIndex s !! key = Some deadline ->
        exists item, storage s !! key = Some item /\ ExpiresAt item = deadline).

(** States reachable from the empty server by top-level commands. *)
Inductive reachable : GoFastServer -> Prop :=
  | reachable_init : reachable NewGoFastServer
  | reachable_step s msg now s' response :
      reachable s -> processCommand msg now s = Some (s', response) -> reachable s'.

(** EXPIRE with TTL 0 removes the index entry; SET with TTL 0 leaves the
    index as it is. *)
Lemma expire_zero_clears_index key now s item :
  storage s !! key = Some item ->
  ttlIndex (fst (string_cmd_expire key 0 now s)) !! key = None.
Proof.
  intros Hl. unfold string_cmd_expire. rewrite Hl. simpl. apply lookup_delete_eq.
Qed.

Lemma set_zero_keeps_index key value now s :
  ttlIndex (set_string key value 0 now s) = ttlIndex s.
Proof. reflexivity. Qed.

Definition set_k (value : string) (ttl : Z) : Message :=
  mkMessage 0 1 CMD_SET (str "k") (str value) ttl.
Definition mset_k (value : string) (ttl : Z) : Message :=
  mkMessage 0 1 CMD_MSET [] (mset_payload [(str "k", str value, ttl)]) 0.

(** After SET k v with TTL 5 at time 1000. *)
Definition k_with_ttl : GoFastServer :=
  ttlIndex_set "k" 1005 (Store "k" (mkItem (VString (str "v")) 1005 1000) NewGoFastServer).
(** After the overwrite with TTL 0 at time 1001: the item has no deadline,
    the index still has 1005. *)
Definition k_overwritten : GoFastServer :=
  ttlIndex_set "k" 1005 (Store "k" (mkItem (VString (str "w")) 0 1001) NewGoFastServer).

(** C3 at its failing input.  SET k v TTL=5 followed by SET (or MSET)
    k w TTL=0 reaches a state in which the item has no deadline while the
    TTL index still holds the old one; the next sweeper round after that
    deadline deletes the key. *)
Theorem overwrite_without_ttl_keeps_index_entry :
  processCommand (set_k "v" 5) 1000 NewGoFastServer
  = Some (k_with_ttl, createResponse RESP_OK [])
  /\ ttl_index_consistent k_with_ttl
  /\ processCommand (set_k "w" 0) 1001 k_with_ttl
     = Some (k_overwritten, createResponse RESP_OK [])
  /\ processCommand (mset_k "w" 0) 1001 k_with_ttl
     = Some (k_overwritten, createResponse RESP_OK (str "1"))
  /\ reachable k_overwritten
  /\ ~ ttl_index_consistent k_overwritten
  /\ storage (cleanupExpiredKeys_round 1010 k_overwritten) !! "k" = None.
Proof.
  assert (H1 : processCommand (set_k "v" 5) 1000 NewGoFastServer
               = Some (k_with_ttl, createResponse RESP_OK []))
    by (vm_compute; reflexivity).
  assert (H2 : processCommand (set_k "w" 0) 1001 k_with_ttl
               = Some (k_overwritten, createResponse RESP_OK []))
    by (vm_compute; reflexivity).
  split; [exact H1|]. split; [|split; [exact H2|split; [|split; [|split]]]].
  - split.
    + intros key item. unfold k_with_ttl. simpl.
      destruct (decide (key = "k")) as [->|Hne].
      * rewrite !lookup_insert_eq. by intros [= <-].
      * rewrite lookup_insert_ne by done. by rewrite lookup_empty.
    + intros key deadline. unfold k_with_ttl. simpl.
      destruct (decide (key = "k")) as [->|Hne].
      * rewrite !lookup_insert_eq. intros [= <-]. by eexists.
      * rewrite lookup_insert_ne by done. by rewrite lookup_empty.
  - vm_compute; reflexivity.
  - eapply reachable_step; [|exact H2].
    eapply reachable_step; [apply reachable_init | exact H1].
  - intros [_ Hindex].
    destruct (Hindex "k" 1005) as (item & Hitem & Hdeadline).
    + reflexivity.
    + unfold k_overwritten in Hitem. simpl in Hitem.
      rewrite lookup_insert_eq in Hitem. injection Hitem as <-. discriminate.
  - vm_compute; reflexivity.
Qed.

(** ** Declared lengths and the bytes that remain *)

Lemma mget_parse_total n : forall data offset keys,
  0 <= offset -> is_Some (mget_parse n data offset keys).
Proof.
  induction n as [|n IH]; intros data offset keys Hoff; [simpl; eauto|].
  cbn [mget_parse]. repeat guarded. apply IH. lia.
Qed.

Lemma handleMGet_total data now s : is_Some (handleMGet data now s).
Proof.
  unfold handleMGet. repeat guarded.
  destruct (v =? 0); [eauto|].
  destruct (mget_parse_total (Z.to_nat v) data 4 []) as [[response|keys] ->]; [lia| |];
    cbn [mbind option_bind]; [eauto|].
  destruct (mget_fetch keys now s). eauto.
Qed.

Lemma mset_loop_total n : forall data offset successCount now s,
  0 <= offset -> is_Some (mset_loop n data offset successCount now s).
Proof.
  induction n as [|n IH]; intros data offset cnt now s Hoff; [simpl; eauto|].
  cbn [mset_loop]. repeat guarded. apply IH. lia.
Qed.

Lemma handleMSet_total data now s : is_Some (handleMSet data now s).
Proof.
  unfold handleMSet. repeat guarded.
  destruct (v =? 0); [eauto|]. apply mset_loop_total. lia.
Qed.

(** A GET frame of declared length 6: version, command and a key length of
    3, with no key bytes in the frame. *)
Definition short_get : bytes := frame 1 CMD_GET (PutUint32 3).
(** A well-formed GET "ab". *)
Definition get_ab : bytes := frame 1 CMD_GET (field (str "ab")).

(** C4 at its failing input.  At top level the reader takes the frame
    [short_get] (10 bytes on the wire) followed by [get_ab] without an
    error: it fills the key from the first three bytes of the next frame and
    leaves the connection three bytes into that frame.  Inside a PIPELINE
    the same slot is parsed without error, is executed as a GET of those
    three bytes and answers NOT_FOUND; when nothing follows the short frame
    the parser reads past the end of the payload. *)
Theorem declared_length_is_not_checked :
  len short_get = 10
  /\ readMessage (short_get ++ get_ab)
     = ReadMessage (mkMessage 6 1 CMD_GET (take 3 get_ab) [] 0) (drop 3 get_ab)
  /\ parsePipelineMessage (pipeline_payload [short_get; get_ab]) 4
     = Some (Parsed (mkMessage 6 1 CMD_GET (take 3 get_ab) [] 0) 14)
  /\ handlePipeline (pipeline_payload [short_get; get_ab]) 0 NewGoFastServer
     = Some (NewGoFastServer,
             createResponse RESP_OK
               (encodePipelineResponse
                  [createResponse RESP_NOT_FOUND []; createResponse RESP_NOT_FOUND []]))
  /\ parsePipelineMessage (pipeline_payload [short_get]) 4 = None
  /\ handlePipeline (pipeline_payload [short_get]) 0 NewGoFastServer = None.
Proof. repeat split; vm_compute; reflexivity. Qed.

(** ** SCAN *)

#[global] Instance string_le_total : Total string_le.
Proof. intros a b. unfold string_le. apply String.leb_total. Qed.

Lemma sort_strings_sorted keys :
  Sorted string_le (sort_strings keys) /\ sort_strings keys ≡ₚ keys.
Proof.
  split; [apply Sorted_merge_sort, _ | apply merge_sort_Permutation].
Qed.

(** The snapshot is the set of keys whose item is not expired. *)
Lemma range_live_keys now s :
  snd (range_live now s)
  = map fst (List.filter (fun '(_, item) => negb (expired item now))
               (map_to_list (storage s))).
Proof.
  unfold range_live.
  assert (H : forall l s0 acc,
    snd (fold_left (fun '(s0, keys) '(keyStr, item) =>
           if expired item now then (spawn_delete keyStr s0, keys)
           else (s0, keys ++ [keyStr])) l (s0, acc))
    = acc ++ map fst (List.filter (fun '(_, item) => negb (expired item now)) l)).
  { induction l as [|[k item] l IH]; intros s0 acc; simpl; [by rewrite app_nil_r|].
    destruct (expired item now); simpl; rewrite IH; [done|].
    by rewrite <- app_assoc. }
  apply (H _ s []).
Qed.

Lemma scan_past_end cursor pattern now s :
  Z.of_nat (length (sort_strings (snd (range_live now s)))) <= cursor ->
  snd (handleScan cursor pattern 10 now s)
  = createResponse RESP_OK (encodeScanResponse 0 []).
Proof.
  intros Hn. unfold handleScan. destruct (range_live now s) as [s1 collected].
  simpl in *. by replace (_ <=? cursor) with true by lia.
Qed.

Lemma scan_window cursor pattern now s :
  let keys := sort_strings (snd (range_live now s)) in
  let n := Z.of_nat (length keys) in
  0 <= cursor < n ->
  snd (handleScan cursor pattern 10 now s)
  = createResponse RESP_OK
      (encodeScanResponse (if n <? cursor + 10 then 0 else uint32 (cursor + 10))
         (List.filter (matchPattern pattern) (take 10 (drop (Z.to_nat cursor) keys)))).
Proof.
  intros keys n Hc. unfold handleScan. subst keys n.
  destruct (range_live now s) as [s1 collected]. simpl in *.
  set (keys := sort_strings collected) in *.
  replace (Z.of_nat (length keys) <=? cursor) with false by lia.
  destruct (Z.ltb_spec (Z.of_nat (length keys)) (cursor + 10)); simpl; [|do 4 f_equal; lia].
  do 3 f_equal.
  rewrite !take_ge; [done | | ]; rewrite length_drop; lia.
Qed.

Definition ten_names : list string :=
  ["k0"; "k1"; "k2"; "k3"; "k4"; "k5"; "k6"; "k7"; "k8"; "k9"]%string.

(** Ten live keys, inserted in descending order. *)
Definition ten_keys : GoFastServer :=
  fold_left (fun s name => Store name (mkItem (VString (str "x")) 0 0) s) (rev ten_names)
    NewGoFastServer.

(** C5 at its failing input.  With exactly ten live keys, SCAN from cursor
    0 returns all ten in sorted order, so the returned slice ends where the
    snapshot ends, and yet the next cursor is 10; only the following call,
    from cursor 10, returns cursor 0 with no keys.  With the key "k9"
    removed the first call returns cursor 0. *)
Theorem scan_exact_page_returns_nonzero_cursor :
  sort_strings (snd (range_live 0 ten_keys)) = ten_names
  /\ processCommand (scan_message 0 "*") 0 ten_keys
     = Some (ten_keys, createResponse RESP_OK (encodeScanResponse 10 ten_names))
  /\ processCommand (scan_message 10 "*") 0 ten_keys
     = Some (ten_keys, createResponse RESP_OK (encodeScanResponse 0 []))
  /\ processCommand (scan_message 0 "*") 0 (Delete "k9" ten_keys)
     = Some (Delete "k9" ten_keys,
             createResponse RESP_OK (encodeScanResponse 0 (take 9 ten_names))).
Proof. repeat split; vm_compute; reflexivity. Qed.

(** ** PIPELINE *)

Definition newOffset_of (r : ParseResult) : Z :=
  match r with
  | Parsed _ newOffset => newOffset
  | ParseError newOffset _ => newOffset
  end.

(** The same result, found [d] bytes further into a buffer. *)
Definition shift (d : Z) (r : ParseResult) : ParseResult :=
  match r with
  | Parsed msg newOffset => Parsed msg (d + newOffset)
  | ParseError newOffset err => ParseError (d + newOffset) err
  end.

(** The commands [parsePipelineMessage] has a case for. *)
Definition pipeline_commands : list Z :=
  [CMD_SET; CMD_EXPIRE; CMD_LPUSH; CMD_RPUSH; CMD_SADD; CMD_GETSET; CMD_SCAN; CMD_HSET;
   CMD_HGET; CMD_HDEL; CMD_HEXISTS; CMD_LINDEX; CMD_LRANGE;
   CMD_LPOP; CMD_RPOP; CMD_SREM; CMD_SISMEMBER;
   CMD_GET; CMD_DEL; CMD_EXISTS; CMD_TTL; CMD_LLEN; CMD_SMEMBERS; CMD_SCARD;
   CMD_HGETALL; CMD_HLEN; CMD_INCR; CMD_DECR; CMD_KEYS].

Lemma parse_payload_unsupported command :
  In command pipeline_commands
  \/ forall data offset msgLen version,
       parse_payload data offset msgLen version command
       = Some (ParseError (offset + (msgLen - 2))
                 ("unsupported command in pipeline: " +:+ itoa_string command)).
Proof.
  unfold parse_payload.
  repeat (match goal with
          | |- context [match ?c with _ => _ end] =>
              is_var c; destruct c; try (right; reflexivity)
          end);
    left; simpl; tauto.
Qed.

(** Pair the read at the head of [H] (on [data]) with the read at the head
    of the goal (on the enclosing buffer). *)
Ltac ctx_read H pre post :=
  match type of H with
  | (if ?c then _ else _) = Some _ => destruct c
  | (read_field ?d ?o ≫= _) = Some _ =>
      let E := fresh "E" in
      destruct (read_field d o) as [[? ?]|] eqn:E; [|discriminate H];
      cbn [mbind option_bind] in H;
      match goal with
      | |- (read_field _ ?go ≫= _) = _ => replace go with (len pre + o) by lia
      end;
      rewrite (read_field_ctx pre post _ _ _ _ E); cbn [mbind option_bind]
  | (u32_at ?d ?o ≫= _) = Some _ =>
      let E := fresh "E" in
      destruct (u32_at d o) eqn:E; [|discriminate H];
      cbn [mbind option_bind] in H;
      match goal with
      | |- (u32_at _ ?go ≫= _) = _ => replace go with (len pre + o) by lia
      end;
      rewrite (u32_at_ctx pre post _ _ _ E); cbn [mbind option_bind]
  | (bytes_at ?d ?o ?n ≫= _) = Some _ =>
      let E := fresh "E" in
      destruct (bytes_at d o n) eqn:E; [|discriminate H];
      cbn [mbind option_bind] in H;
      match goal with
      | |- (bytes_at _ ?go _ ≫= _) = _ => replace go with (len pre + o) by lia
      end;
      rewrite (bytes_at_ctx pre post _ _ _ _ E); cbn [mbind option_bind]
  | (slice ?d ?lo ?hi ≫= _) = Some _ =>
      let E := fresh "E" in
      destruct (slice d lo hi) eqn:E; [|discriminate H];
      cbn [mbind option_bind] in H;
      match goal with
      | |- (slice _ ?glo _ ≫= _) = _ => replace glo with (len pre + lo) by lia
      end;
      match goal with
      | |- (slice _ _ ?ghi ≫= _) = _ => replace ghi with (len pre + hi) by lia
      end;
      rewrite (slice_ctx pre post _ _ _ _ E); cbn [mbind option_bind]
  | (?X ≫= _) = Some _ =>
      destruct X; [|discriminate H]; cbn [mbind option_bind] in H |- *
  end.

Ltac ctx_done H :=
  match type of H with
  | Some _ = Some _ => injection H as <-; cbn [shift]; do 2 f_equal; lia
  end.

Lemma parse_payload_ctx pre post data offset msgLen version command r :
  parse_payload data offset msgLen version command = Some r ->
  parse_payload (pre ++ data ++ post) (len pre + offset) msgLen version command
  = Some (shift (len pre) r).
Proof.
  intros H.
  destruct (parse_payload_unsupported command) as [Hin | Hdef].
  - unfold pipeline_commands in Hin.
    repeat (destruct Hin as [<- | Hin]); try contradiction;
      cbv beta iota zeta delta [parse_payload] in H |- *;
      cbn [Z.eqb Pos.eqb orb andb] in H |- *;
      repeat ctx_read H pre post; ctx_done H.
  - rewrite Hdef in H. injection H as <-.
    rewrite Hdef. cbn [shift]. do 2 f_equal. lia.
Qed.

(** Whatever the payload parser returns, it returns the end of the frame as
    the next offset. *)
Lemma parse_payload_newOffset data offset msgLen version command r :
  parse_payload data offset msgLen version command = Some r ->
  newOffset_of r = offset + (msgLen - 2).
Proof.
  destruct (parse_payload_unsupported command) as [Hin | Hdef].
  - unfold pipeline_commands in Hin.
    repeat (destruct Hin as [<- | Hin]); try contradiction;
      cbv beta iota zeta delta [parse_payload];
      repeat match goal with
             | |- context [if ?c then _ else _] => destruct c
             | |- (?X ≫= _) = Some _ -> _ =>
                 destruct X as [[? ?]|]; cbn [mbind option_bind]
             | |- (?X ≫= _) = Some _ -> _ => destruct X; cbn [mbind option_bind]
             end;
      first [ discriminate | by intros [= <-] ].
  - rewrite Hdef. by intros [= <-].
Qed.

(** An embedded frame whose length field is the size of what follows it. *)
Definition well_framed (fr : bytes) : Prop :=
  exists version command payload,
    fr = frame version command payload /\ 2 + len payload < 2 ^ 32.

(** What one embedded frame does when it is parsed on its own, from offset 0
    of a buffer that holds nothing else.  [None] when the parser reads
    outside the frame. *)
Definition slot_reply (fr : bytes) (now : Z) (s : GoFastServer) : option Reply :=
  parsed ← parsePipelineMessage fr 0;
  match parsed with
  | ParseError _ err => Some (s, ERROR ("Pipeline parse error: " +:+ err))
  | Parsed msg _ => processIndividualCommand msg now s
  end.

(** The frames executed one after the other, each on the state the previous
    one left. *)
Fixpoint run_frames (frames : list bytes) (now : Z) (s : GoFastServer)
    : option (GoFastServer * list bytes) :=
  match frames with
  | [] => Some (s, [])
  | fr :: rest =>
      '(s1, response) ← slot_reply fr now s;
      '(s2, responses) ← run_frames rest now s1;
      Some (s2, response :: responses)
  end.

Lemma parsePipelineMessage_frame pre post version command payload :
  2 + len payload < 2 ^ 32 ->
  parsePipelineMessage (pre ++ frame version command payload ++ post) (len pre)
  = parse_payload (pre ++ frame version command payload ++ post) (len pre + 6)
      (2 + len payload) (Z_of_byte (byte_of_Z version)) (Z_of_byte (byte_of_Z command)).
Proof.
  intros Hlen. pose proof (len_nonneg payload) as Hp. pose proof (len_nonneg pre) as Hpre.
  pose proof (len_nonneg post) as Hpost.
  unfold parsePipelineMessage.
  assert (Hl : len (pre ++ frame version command payload ++ post)
               = len pre + (6 + len payload) + len post)
    by (rewrite !len_app, len_frame; lia).
  rewrite Hl.
  replace (len pre + (6 + len payload) + len post <? len pre + 6) with false by lia.
  assert (Hu : u32_at (pre ++ frame version command payload ++ post) (len pre)
               = Some (2 + len payload)).
  { unfold frame. rewrite <- !app_assoc. apply u32_at_PutUint32. lia. }
  rewrite Hu. cbn [mbind option_bind].
  replace (len pre + (6 + len payload) + len post <? len pre + 4 + (2 + len payload))
    with false by lia.
  assert (Hv : index (frame version command payload) 4 = Some (byte_of_Z version)).
  { unfold index. rewrite len_frame.
    replace ((0 <=? 4) && (4 <? 6 + len payload)) with true
      by (symmetry; apply andb_true_intro; split; lia).
    reflexivity. }
  assert (Hc : index (frame version command payload) 5 = Some (byte_of_Z command)).
  { unfold index. rewrite len_frame.
    replace ((0 <=? 5) && (5 <? 6 + len payload)) with true
      by (symmetry; apply andb_true_intro; split; lia).
    reflexivity. }
  rewrite (index_ctx pre post _ _ _ Hv). cbn [mbind option_bind].
  replace (len pre + 4 + 1) with (len pre + 5) by lia.
  rewrite (index_ctx pre post _ _ _ Hc). cbn [mbind option_bind].
  f_equal. lia.
Qed.

Lemma slot_in_context pre post fr now s s1 response :
  well_framed fr ->
  slot_reply fr now s = Some (s1, response) ->
  pipeline_slot (pre ++ fr ++ post) (len pre) now s
  = Some (s1, response, len pre + len fr).
Proof.
  intros (version & command & payload & -> & Hlen) Hslot.
  pose proof (len_nonneg payload) as Hp. pose proof (len_nonneg post) as Hpost.
  unfold pipeline_slot.
  replace (len (pre ++ frame version command payload ++ post) <=? len pre) with false
    by (rewrite !len_app, len_frame; lia).
  rewrite parsePipelineMessage_frame by done.
  unfold slot_reply in Hslot.
  pose proof (parsePipelineMessage_frame [] [] version command payload Hlen) as Hiso.
  rewrite app_nil_l, app_nil_r in Hiso. change (len []) with 0 in Hiso.
  rewrite Hiso in Hslot. clear Hiso.
  destruct (parse_payload (frame version command payload) (0 + 6) _ _ _) as [r|] eqn:Hr;
    [|done].
  cbn [mbind option_bind] in Hslot.
  pose proof (parse_payload_newOffset _ _ _ _ _ _ Hr) as Hoff.
  apply (parse_payload_ctx pre post) in Hr.
  replace (len pre + (0 + 6)) with (len pre + 6) in Hr by lia.
  rewrite Hr. cbn [mbind option_bind].
  rewrite len_frame.
  destruct r as [msg o | o err]; cbn [shift newOffset_of] in *.
  - rewrite Hslot. cbn [mbind option_bind]. do 2 f_equal. lia.
  - injection Hslot as <- <-. do 2 f_equal. lia.
Qed.

Lemma pipeline_loop_frames now frames : forall pre s s' responses,
  Forall well_framed frames ->
  run_frames frames now s = Some (s', responses) ->
  pipeline_loop (length frames) (pre ++ concat frames) (len pre) now s
  = Some (s', responses)
  /\ length responses = length frames.
Proof.
  induction frames as [|fr rest IH]; intros pre s s' responses Hwf Hrun.
  - injection Hrun as <- <-. done.
  - apply Forall_cons in Hwf as [Hfr Hrest].
    cbn [run_frames] in Hrun.
    destruct (slot_reply fr now s) as [[s1 response]|] eqn:Hslot; [|done].
    cbn [mbind option_bind] in Hrun.
    destruct (run_frames rest now s1) as [[s2 rs]|] eqn:Hrs; [|done].
    cbn [mbind option_bind] in Hrun. injection Hrun as <- <-.
    cbn [length pipeline_loop concat].
    rewrite (slot_in_context pre (concat rest) fr now s s1 response Hfr Hslot).
    cbn [mbind option_bind].
    destruct (IH (pre ++ fr) s1 s2 rs Hrest Hrs) as [Hloop Hlen].
    rewrite len_app, <- app_assoc in Hloop. rewrite Hloop.
    cbn [mbind option_bind]. split; [done | by rewrite Hlen].
Qed.

(** An embedded frame that carries MGET, MSET or PIPELINE. *)
Definition carries_batch (fr : bytes) : Prop :=
  exists version command payload,
    fr = frame version command payload /\ 2 + len payload < 2 ^ 32
    /\ (command = CMD_MGET \/ command = CMD_MSET \/ command = CMD_PIPELINE).

Lemma batch_slot_is_error fr now s :
  carries_batch fr ->
  exists text, slot_reply fr now s = Some (s, ERROR text).
Proof.
  intros (version & command & payload & -> & Hlen & Hcmd).
  unfold slot_reply.
  pose proof (parsePipelineMessage_frame [] [] version command payload Hlen) as Hiso.
  rewrite app_nil_l, app_nil_r in Hiso. change (len []) with 0 in Hiso.
  rewrite Hiso. clear Hiso.
  destruct Hcmd as [-> | [-> | ->]]; eexists; reflexivity.
Qed.

Lemma run_frames_lookup now frames : forall s s' responses i fr,
  run_frames frames now s = Some (s', responses) ->
  frames !! i = Some fr ->
  exists s0 s1 response,
    slot_reply fr now s0 = Some (s1, response) /\ responses !! i = Some response.
Proof.
  induction frames as [|fr0 rest IH]; intros s s' responses i fr Hrun Hi; [done|].
  cbn [run_frames] in Hrun.
  destruct (slot_reply fr0 now s) as [[s1 response]|] eqn:Hslot; [|done].
  cbn [mbind option_bind] in Hrun.
  destruct (run_frames rest now s1) as [[s2 rs]|] eqn:Hrs; [|done].
  cbn [mbind option_bind] in Hrun. injection Hrun as <- <-.
  destruct i as [|i]; simpl in Hi.
  - injection Hi as <-. by exists s, s1, response.
  - by apply (IH s1 s2 rs i fr).
Qed.

(** C6.  A PIPELINE payload made of a count and that many well-framed
    embedded frames, none of which makes the parser read outside its own
    frame, is answered with status OK and a body made of the count followed
    by the responses of the frames, each as the dispatcher produced it and
    in the order of the frames, every frame running on the state left by the
    one before.  A frame that carries MGET, MSET or PIPELINE produces an
    ERROR response in its slot and leaves the state to the next slot
    unchanged. *)
Theorem pipeline_replies_in_order (frames : list bytes) (now : Z) (s s' : GoFastServer)
    (responses : list bytes) :
  Forall well_framed frames ->
  Z.of_nat (length frames) < 2 ^ 32 ->
  run_frames frames now s = Some (s', responses) ->
  processCommand (pipeline_message frames) now s
  = Some (s', createResponse RESP_OK
                (PutUint32 (Z.of_nat (length frames)) ++ concat responses))
  /\ length responses = length frames
  /\ (forall i fr,
        frames !! i = Some fr -> carries_batch fr ->
        exists text, responses !! i = Some (ERROR text))
  /\ (forall fr s0,
        carries_batch fr -> exists text, slot_reply fr now s0 = Some (s0, ERROR text)).
Proof.
  intros Hwf Hcount Hrun.
  destruct (pipeline_loop_frames now frames (PutUint32 (Z.of_nat (length frames)))
              s s' responses Hwf Hrun) as [Hloop Hlen].
  split; [|split; [done|split]].
  - change (processCommand (pipeline_message frames) now s)
      with (handlePipeline (pipeline_payload frames) now s).
    unfold handlePipeline, pipeline_payload.
    bound_check.
    rewrite u32_at_head by lia. cbn [mbind option_bind].
    destruct frames as [|fr rest].
    + injection Hrun as <- <-. reflexivity.
    + replace (Z.of_nat (length (fr :: rest)) =? 0) with false
        by (symmetry; apply Z.eqb_neq; simpl; lia).
      rewrite Nat2Z.id. rewrite len_PutUint32 in Hloop. rewrite Hloop.
      cbn [mbind option_bind]. unfold encodePipelineResponse.
      rewrite Hlen. unfold uint32. rewrite Z.mod_small by lia. reflexivity.
  - intros i fr Hi Hbatch.
    destruct (run_frames_lookup now frames s s' responses i fr Hrun Hi)
      as (s0 & s1 & response & Hslot & Hresp).
    destruct (batch_slot_is_error fr now s0 Hbatch) as [text Htext].
    rewrite Htext in Hslot. injection Hslot as _ <-. by exists text.
  - intros fr s0. apply batch_slot_is_error.
Qed.

(** SET a 1 (TTL 0), an embedded MGET, GET a. *)
Definition demo_frames : list bytes :=
  [frame 1 CMD_SET (field (str "a") ++ PutUint32 0 ++ field (str "1"));
   frame 1 CMD_MGET (PutUint32 0);
   frame 1 CMD_GET (field (str "a"))].

Definition demo_after : GoFastServer :=
  Store "a" (mkItem (VString (str "1")) 0 0) NewGoFastServer.

Definition demo_responses : list bytes :=
  [createResponse RESP_OK [];
   ERROR "Pipeline parse error: unsupported command in pipeline: 7";
   createResponse RESP_OK (str "1")].

Lemma pipeline_replies_in_order_witness :
  processCommand (pipeline_message demo_frames) 0 NewGoFastServer
  = Some (demo_after, createResponse RESP_OK (PutUint32 3 ++ concat demo_responses)).
Proof.
  refine (proj1 (pipeline_replies_in_order demo_frames 0 NewGoFastServer demo_after
                   demo_responses _ _ _)).
  - repeat constructor; eexists _, _, _; (split; [reflexivity | vm_compute; reflexivity]).
  - vm_compute; reflexivity.
  - vm_compute; reflexivity.
Defined.

(** ** MGET and MSET *)

(** What MGET reports for one key: the bytes of a live STRING, [None]
    ([nil]) for a key that is missing, expired or of another type. *)
Definition mget_value (s : GoFastServer) (now : Z) (key : string) : option bytes :=
  match storage s !! key with
  | Some item =>
      if expired item now then None
      else match ItemVal item with
           | VString v => Some v
           | _ => None
           end
  | None => None
  end.

(** One entry of the MGET body: length and bytes, or the nil sentinel on
    its own. *)
Definition mget_entry (value : option bytes) : bytes :=
  match value with
  | Some v => PutUint32 (uint32 (len v)) ++ v
  | None => PutUint32 4294967295
  end.

Lemma mget_parse_payload keys : forall pre acc,
  Forall fits32 keys ->
  mget_parse (length keys) (pre ++ flat_map field keys) (len pre) acc
  = Some (inr (acc ++ map gostring keys)).
Proof.
  induction keys as [|k rest IH]; intros pre acc Hfit.
  - simpl. by rewrite app_nil_r.
  - apply Forall_cons in Hfit as [Hk Hrest].
    pose proof (len_nonneg k) as Hk0.
    assert (Hdata : pre ++ flat_map field (k :: rest)
                    = pre ++ PutUint32 (len k) ++ k ++ flat_map field rest)
      by (cbn [flat_map]; unfold field; by rewrite <- app_assoc).
    rewrite Hdata. clear Hdata.
    cbn [length mget_parse map].
    bound_check.
    rewrite u32_at_PutUint32 by (unfold fits32 in Hk; lia).
    cbn [mbind option_bind].
    bound_check.
    pose proof (bytes_at_whole (pre ++ PutUint32 (len k)) (flat_map field rest) k) as Hb.
    rewrite len_app, len_PutUint32, <- app_assoc in Hb. rewrite Hb.
    cbn [mbind option_bind].
    specialize (IH (pre ++ PutUint32 (len k) ++ k) (acc ++ [gostring k]) Hrest).
    rewrite !len_app, len_PutUint32, <- !app_assoc in IH.
    replace (len pre + 4 + len k) with (len pre + (4 + len k)) by lia.
    exact IH.
Qed.

(** Evicting an expired key does not change what MGET reports. *)
Lemma mget_value_evict s now key item k :
  storage s !! key = Some item -> expired item now = true ->
  mget_value (evict key s) now k = mget_value s now k.
Proof.
  intros Hl He. unfold mget_value. simpl.
  destruct (decide (key = k)) as [<-|Hne].
  - by rewrite lookup_delete_eq, Hl, He.
  - by rewrite lookup_delete_ne.
Qed.

Lemma mget_fetch_values keys now : forall s,
  snd (mget_fetch keys now s) = map (mget_value s now) keys.
Proof.
  induction keys as [|key rest IH]; intros s; [done|].
  cbn [mget_fetch map].
  assert (Hstep : exists s1,
    (match storage s !! key with
     | Some item =>
         if expired item now then (evict key s, None)
         else match ItemVal item with
              | VString v => (s, Some v)
              | _ => (s, None)
              end
     | None => (s, None)
     end) = (s1, mget_value s now key)
    /\ forall k, mget_value s1 now k = mget_value s now k).
  { unfold mget_value. destruct (storage s !! key) as [item|] eqn:Hl; [|by exists s].
    destruct (expired item now) eqn:He.
    - exists (evict key s). split; [done|]. intros k. by eapply mget_value_evict.
    - exists s. by destruct (ItemVal item). }
  destruct Hstep as (s1 & -> & Hsame).
  specialize (IH s1). destruct (mget_fetch rest now s1) as [s2 values]. simpl in *.
  rewrite IH. f_equal. by apply map_ext.
Qed.

Lemma encodeMGetResponse_layout values :
  encodeMGetResponse values
  = PutUint32 (uint32 (Z.of_nat (length values))) ++ flat_map mget_entry values.
Proof. reflexivity. Qed.

Lemma mget_answers keys now s :
  Forall fits32 keys -> Z.of_nat (length keys) < 2 ^ 32 ->
  exists s',
    processCommand (mget_message keys) now s
    = Some (s', createResponse RESP_OK
                  (encodeMGetResponse (map (fun k => mget_value s now (gostring k)) keys))).
Proof.
  intros Hfit Hcount.
  change (processCommand (mget_message keys) now s)
    with (handleMGet (mget_payload keys) now s).
  unfold handleMGet, mget_payload.
  bound_check.
  rewrite u32_at_head by lia. cbn [mbind option_bind].
  destruct keys as [|k rest]; [by eexists|].
  replace (Z.of_nat (length (k :: rest)) =? 0) with false
    by (symmetry; apply Z.eqb_neq; simpl; lia).
  rewrite Nat2Z.id.
  pose proof (mget_parse_payload (k :: rest) (PutUint32 (Z.of_nat (length (k :: rest)))) []
                Hfit) as Hp.
  rewrite len_PutUint32 in Hp. rewrite Hp. cbn [mbind option_bind app].
  pose proof (mget_fetch_values (map gostring (k :: rest)) now s) as Hv.
  destruct (mget_fetch (map gostring (k :: rest)) now s) as [s1 values]. simpl in Hv.
  exists s1. subst values. do 3 f_equal. simpl. f_equal. by rewrite map_map.
Qed.

Definition triple_fits (pair : bytes * bytes * Z) : Prop :=
  let '(key, value, ttl) := pair in fits32 key /\ fits32 value /\ 0 <= ttl < 2 ^ 32.

Definition mset_apply (now : Z) (s : GoFastServer) (pair : bytes * bytes * Z)
    : GoFastServer :=
  let '(key, value, ttl) := pair in set_string (gostring key) value ttl now s.

Lemma mset_loop_payload now pairs : forall pre successCount s,
  Forall triple_fits pairs ->
  mset_loop (length pairs) (pre ++ flat_map mset_triple pairs) (len pre) successCount now s
  = Some (fold_left (mset_apply now) pairs s,
          createResponse RESP_OK (itoa (successCount + Z.of_nat (length pairs)))).
Proof.
  induction pairs as [|[[k v] ttl] rest IH]; intros pre cnt s Hfit.
  - simpl. by rewrite Z.add_0_r.
  - apply Forall_cons in Hfit as [(Hk & Hv & Httl) Hrest].
    assert (Hdata : pre ++ flat_map mset_triple ((k, v, ttl) :: rest)
                    = pre ++ PutUint32 (len k) ++ k ++ PutUint32 (len v) ++ v
                      ++ PutUint32 ttl ++ flat_map mset_triple rest)
      by (cbn [flat_map mset_triple]; unfold field; by rewrite <- !app_assoc).
    rewrite Hdata.
    cbn [length mset_loop fold_left mset_apply].
    bound_check. read_head.
    bound_check. read_head.
    bound_check. read_head.
    bound_check. read_head.
    bound_check. read_head.
    specialize (IH (pre ++ PutUint32 (len k) ++ k ++ PutUint32 (len v) ++ v ++ PutUint32 ttl)
                  (cnt + 1) (set_string (gostring k) v ttl now s) Hrest).
    rewrite <- !app_assoc in IH. rewrite !len_app, !len_PutUint32 in IH.
    match goal with
    | |- mset_loop _ _ ?o _ _ _ = _ =>
        replace o with (len pre + (4 + (len k + (4 + (len v + 4))))) by len_lia
    end.
    rewrite IH. do 4 f_equal. lia.
Qed.

Definition key_of (pair : bytes * bytes * Z) : bytes := pair.1.1.
Definition value_of (pair : bytes * bytes * Z) : bytes := pair.1.2.
Definition ttl_of (pair : bytes * bytes * Z) : Z := pair.2.

(** The item MSET stores for a triple. *)
Definition mset_item (now : Z) (pair : bytes * bytes * Z) : CacheItem :=
  mkItem (VString (value_of pair))
    (if 0 <? ttl_of pair then wrap64 (now + ttl_of pair) else 0) now.

Lemma mset_apply_self now s pair :
  storage (mset_apply now s pair) !! gostring (key_of pair) = Some (mset_item now pair).
Proof.
  destruct pair as [[k v] ttl]. unfold mset_apply, mset_item, set_string, key_of, ttl_of.
  simpl. destruct (0 <? ttl); simpl; apply lookup_insert_eq.
Qed.

Lemma mset_apply_other now s pair key :
  key <> gostring (key_of pair) ->
  storage (mset_apply now s pair) !! key = storage s !! key.
Proof.
  destruct pair as [[k v] ttl]. unfold mset_apply, set_string, key_of. simpl. intros Hne.
  destruct (0 <? ttl); simpl; by rewrite lookup_insert_ne.
Qed.

Lemma mset_fold_other now pairs : forall s key,
  key ∉ map (fun p => gostring (key_of p)) pairs ->
  storage (fold_left (mset_apply now) pairs s) !! key = storage s !! key.
Proof.
  induction pairs as [|p rest IH]; intros s key Hnot; [done|].
  simpl in *. apply not_elem_of_cons in Hnot as [Hne Hrest].
  rewrite IH by done. by apply mset_apply_other.
Qed.

Lemma mset_fold_lookup now pairs : forall s,
  NoDup (map key_of pairs) ->
  Forall (fun p => storage (fold_left (mset_apply now) pairs s) !! gostring (key_of p)
                   = Some (mset_item now p)) pairs.
Proof.
  induction pairs as [|p rest IH]; intros s Hnodup; [constructor|].
  simpl in Hnodup. apply NoDup_cons in Hnodup as [Hnotin Hnodup].
  constructor.
  - simpl. rewrite mset_fold_other; [apply mset_apply_self|].
    intros Hin. apply Hnotin.
    apply list_elem_of_fmap in Hin as (q & Hq & Hin).
    apply (inj gostring) in Hq. rewrite Hq. by apply list_elem_of_fmap_2.
  - simpl. by apply IH.
Qed.

Lemma mset_item_live now later pair :
  0 <= now -> now + 2 ^ 32 < 2 ^ 63 -> 0 <= ttl_of pair < 2 ^ 32 ->
  ttl_of pair = 0 \/ later < now + ttl_of pair ->
  expired (mset_item now pair) later = false.
Proof.
  intros Hnow Hmax Httl Hlater. unfold expired, mset_item. simpl.
  destruct (Z.ltb_spec 0 (ttl_of pair)); [|done].
  rewrite wrap64_small by lia.
  apply andb_false_iff. right. apply Z.leb_gt. lia.
Qed.

Lemma mset_answers pairs now s :
  Forall triple_fits pairs -> Z.of_nat (length pairs) < 2 ^ 32 ->
  processCommand (mset_message pairs) now s
  = Some (fold_left (mset_apply now) pairs s,
          createResponse RESP_OK (itoa (Z.of_nat (length pairs)))).
Proof.
  intros Hfit Hcount.
  change (processCommand (mset_message pairs) now s)
    with (handleMSet (mset_payload pairs) now s).
  unfold handleMSet, mset_payload.
  bound_check.
  rewrite u32_at_head by lia. cbn [mbind option_bind].
  destruct pairs as [|p rest]; [done|].
  replace (Z.of_nat (length (p :: rest)) =? 0) with false
    by (symmetry; apply Z.eqb_neq; simpl; lia).
  rewrite Nat2Z.id.
  pose proof (mset_loop_payload now (p :: rest)
                (PutUint32 (Z.of_nat (length (p :: rest)))) 0 s Hfit) as Hp.
  rewrite len_PutUint32 in Hp. rewrite Hp. reflexivity.
Qed.

(** C7.  MGET of any list of keys replies OK with the count followed by one
    entry per key in request order: the length and bytes of a live STRING,
    the sentinel 0xFFFFFFFF alone for a key that is missing, expired or of
    another type.  Consequently MSET of triples with distinct keys followed,
    before any of their deadlines, by MGET of the same keys returns the
    values in request order. *)
Theorem mget_reports_each_key (keys : list bytes) (now : Z) (s : GoFastServer) :
  Forall fits32 keys ->
  Z.of_nat (length keys) < 2 ^ 32 ->
  (exists s',
     processCommand (mget_message keys) now s
     = Some (s', createResponse RESP_OK
                   (PutUint32 (Z.of_nat (length keys))
                    ++ flat_map (fun k => mget_entry (mget_value s now (gostring k))) keys)))
  /\ (forall pairs later,
        keys = map key_of pairs -> NoDup keys -> Forall triple_fits pairs ->
        0 <= now -> now + 2 ^ 32 < 2 ^ 63 ->
        Forall (fun p => ttl_of p = 0 \/ later < now + ttl_of p) pairs ->
        exists s1 s2,
          processCommand (mset_message pairs) now s
          = Some (s1, createResponse RESP_OK (itoa (Z.of_nat (length pairs))))
          /\ processCommand (mget_message keys) later s1
             = Some (s2, createResponse RESP_OK
                           (PutUint32 (Z.of_nat (length pairs))
                            ++ flat_map (fun p => mget_entry (Some (value_of p))) pairs))).
Proof.
  intros Hfit Hcount.
  assert (Hshape : forall t s0,
    exists s',
      processCommand (mget_message keys) t s0
      = Some (s', createResponse RESP_OK
                    (PutUint32 (Z.of_nat (length keys))
                     ++ flat_map (fun k => mget_entry (mget_value s0 t (gostring k))) keys))).
  { intros t s0. destruct (mget_answers keys t s0 Hfit Hcount) as [s' Hs'].
    exists s'. rewrite Hs'. do 2 f_equal.
    rewrite encodeMGetResponse_layout, length_map, flat_map_map.
    unfold uint32. rewrite Z.mod_small by lia. reflexivity. }
  split; [apply Hshape|].
  intros pairs later -> Hnodup Hpairs Hnow Hmax Hlater.
  rewrite length_map in Hcount.
  exists (fold_left (mset_apply now) pairs s).
  destruct (Hshape later (fold_left (mset_apply now) pairs s)) as [s2 Hs2].
  exists s2. split; [by apply mset_answers|].
  rewrite Hs2, length_map, flat_map_map.
  pose proof (mset_fold_lookup now pairs s Hnodup) as Hlookup.
  clear Hs2 Hshape Hnodup Hfit Hcount.
  generalize dependent (fold_left (mset_apply now) pairs s). intros s1 Hlookup.
  assert (Hentries :
    flat_map (fun p => mget_entry (mget_value s1 later (gostring (key_of p)))) pairs
    = flat_map (fun p => mget_entry (Some (value_of p))) pairs).
  { induction pairs as [|p rest IH]; [done|].
    apply Forall_cons in Hpairs as [Hfitp Hpairs].
    apply Forall_cons in Hlater as [Hlatep Hlater].
    apply Forall_cons in Hlookup as [Hp Hlookup].
    cbn [flat_map]. rewrite IH by done. f_equal.
    unfold mget_value. rewrite Hp.
    rewrite mset_item_live; [done|done|done| |done].
    destruct p as [[k v] ttl]. by destruct Hfitp as (_ & _ & Httl). }
  by rewrite Hentries.
Qed.

Definition present_demo : GoFastServer :=
  Store "present" (mkItem (VString (str "v")) 0 0) NewGoFastServer.

Lemma mget_reports_each_key_witness :
  exists s',
    processCommand (mget_message [str "present"; str "absent"]) 0 present_demo
    = Some (s', createResponse RESP_OK
                  (PutUint32 2 ++ (PutUint32 1 ++ str "v") ++ PutUint32 4294967295)).
Proof.
  destruct (mget_reports_each_key [str "present"; str "absent"] 0 present_demo)
    as [[s' Hs'] _].
  - repeat constructor; vm_compute; reflexivity.
  - vm_compute; reflexivity.
  - exists s'. rewrite Hs'. vm_compute. reflexivity.
Defined.

(** ** Emptied containers *)

(** [key] is in neither map, and GET and EXISTS report it missing at any
    later time. *)
Definition gone (s : GoFastServer) (key : bytes) : Prop :=
  storage s !! gostring key = None
  /\ ttlIndex s !! gostring key = None
  /\ forall q now,
       Key q = key ->
       (Command q = CMD_GET ->
        processCommand q now s = Some (s, createResponse RESP_NOT_FOUND []))
       /\ (Command q = CMD_EXISTS ->
           processCommand q now s = Some (s, createResponse RESP_OK (str "0"))).

Lemma absent_gone s key :
  storage s !! gostring key = None -> ttlIndex s !! gostring key = None -> gone s key.
Proof.
  intros Hs Ht. split; [done|]. split; [done|].
  intros [length version command k value ttl] now. simpl. intros ->.
  split; intros ->; unfold processCommand, dispatch_common; simpl.
  - unfold string_cmd_get. by rewrite Hs.
  - unfold string_cmd_exists. by rewrite Hs.
Qed.

Lemma evict_gone s key : gone (evict (gostring key) s) key.
Proof. apply absent_gone; simpl; apply lookup_delete_eq. Qed.

Lemma handleListPop_last key isLeft now s item v :
  live_at s key now item -> ItemVal item = VList [v] ->
  handleListPop key isLeft now s
  = (evict key (Store key (with_value item (VList [])) s), createResponse RESP_OK v).
Proof.
  intros [Hl He] Hv. unfold handleListPop. rewrite Hl, He, Hv. by destruct isLeft.
Qed.

Lemma handleSetRem_last key member now s item set :
  live_at s key now item -> ItemVal item = VSet set -> set ∖ {[member]} = ∅ ->
  fst (handleSetRem key member now s)
  = evict key (Store key (with_value item (VSet ∅)) s).
Proof.
  intros [Hl He] Hv Hempty. unfold handleSetRem. rewrite Hl, He, Hv.
  unfold SetRemove. rewrite Hempty. reflexivity.
Qed.

Lemma handleHashDel_last key field now s item hash :
  live_at s key now item -> ItemVal item = VHash hash -> delete field hash = ∅ ->
  fst (handleHashDel key field now s)
  = evict key (Store key (with_value item (VHash ∅)) s).
Proof.
  intros [Hl He] Hv Hempty. unfold handleHashDel. rewrite Hl, He, Hv.
  unfold HashDel. rewrite Hempty. reflexivity.
Qed.

(** LPUSH on a key that is missing or expired creates the one-element list. *)
Lemma handleListPush_fresh key value isLeft now s :
  (forall item, storage s !! key = Some item -> expired item now = true) ->
  exists s0,
    fst (handleListPush key value isLeft now s)
    = Store key (mkItem (VList [value]) 0 now) s0.
Proof.
  intros Hfree. unfold handleListPush.
  destruct (storage s !! key) as [item|] eqn:Hl.
  - rewrite (Hfree item eq_refl). unfold push_into.
    eexists. destruct isLeft; simpl; reflexivity.
  - unfold push_into. eexists. destruct isLeft; simpl; reflexivity.
Qed.

(** C8.  On a live container key, a pop that takes the last element of a
    list, an SREM that leaves the set empty and an HDEL that leaves the hash
    empty all remove the key from the keyspace and from the TTL index, so
    that GET answers NOT_FOUND and EXISTS answers "0" afterwards; and LPUSH
    of [v] on a missing (or expired) key followed by LPOP returns [v] and
    leaves the key removed in the same sense. *)
Theorem emptied_container_is_removed (key : bytes) (now : Z) (s : GoFastServer) :
  (forall item msg,
     live_at s (gostring key) now item -> Key msg = key ->
     (forall v, Command msg = CMD_LPOP \/ Command msg = CMD_RPOP ->
        ItemVal item = VList [v] ->
        exists s', processCommand msg now s = Some (s', createResponse RESP_OK v)
                   /\ gone s' key)
     /\ (forall set, Command msg = CMD_SREM -> ItemVal item = VSet set ->
           set ∖ {[gostring (Value msg)]} = ∅ ->
           exists s' response, processCommand msg now s = Some (s', response) /\ gone s' key)
     /\ (forall hash, Command msg = CMD_HDEL -> ItemVal item = VHash hash ->
           delete (gostring (Value msg)) hash = ∅ ->
           exists s' response, processCommand msg now s = Some (s', response) /\ gone s' key))
  /\ (forall push pop v later,
        (forall item, storage s !! gostring key = Some item -> expired item now = true) ->
        Command push = CMD_LPUSH -> Key push = key -> Value push = v ->
        Command pop = CMD_LPOP -> Key pop = key ->
        exists s1 r1 s2,
          processCommand push now s = Some (s1, r1)
          /\ processCommand pop later s1 = Some (s2, createResponse RESP_OK v)
          /\ gone s2 key).
Proof.
  split.
  - intros item [length version command k value ttl] Hlive. simpl. intros ->.
    split; [|split].
    + intros v Hcmd Hv. eexists.
      destruct Hcmd as [-> | ->]; unfold processCommand, dispatch_common; simpl;
        rewrite (handleListPop_last _ _ _ _ _ _ Hlive Hv); (split; [reflexivity|]);
        apply evict_gone.
    + intros set -> Hv Hempty. unfold processCommand, dispatch_common; simpl.
      eexists _, _. split; [f_equal; apply surjective_pairing|].
      rewrite (handleSetRem_last _ _ _ _ _ _ Hlive Hv Hempty). apply evict_gone.
    + intros hash -> Hv Hempty. unfold processCommand, dispatch_common; simpl.
      eexists _, _. split; [f_equal; apply surjective_pairing|].
      rewrite (handleHashDel_last _ _ _ _ _ _ Hlive Hv Hempty). apply evict_gone.
  - intros [l1 v1 c1 k1 val1 t1] [l2 v2 c2 k2 val2 t2] v later Hfree. simpl.
    intros -> -> -> -> ->.
    destruct (handleListPush_fresh (gostring key) v true now s Hfree) as [s0 Hs0].
    destruct (handleListPush (gostring key) v true now s) as [s1 r1] eqn:Hpush.
    simpl in Hs0. subst s1.
    exists (Store (gostring key) (mkItem (VList [v]) 0 now) s0), r1.
    eexists. split; [|split].
    + unfold processCommand, dispatch_common; simpl. by rewrite Hpush.
    + unfold processCommand, dispatch_common; simpl.
      rewrite (handleListPop_last (gostring key) true later _
                 (mkItem (VList [v]) 0 now) v); [reflexivity| |reflexivity].
      split; [simpl; apply lookup_insert_eq | reflexivity].
    + apply evict_gone.
Qed.

Definition queue_demo : GoFastServer :=
  ttlIndex_set "q" 50 (Store "q" (mkItem (VList [str "x"]) 50 5) NewGoFastServer).

Lemma emptied_container_is_removed_witness :
  exists s',
    processCommand (mkMessage 7 1 CMD_LPOP (str "q") [] 0) 10 queue_demo
    = Some (s', createResponse RESP_OK (str "x"))
    /\ gone s' (str "q").
Proof.
  destruct (emptied_container_is_removed (str "q") 10 queue_demo) as [H _].
  destruct (H (mkItem (VList [str "x"]) 50 5) (mkMessage 7 1 CMD_LPOP (str "q") [] 0))
    as [Hpop _].
  - split; vm_compute; reflexivity.
  - reflexivity.
  - apply Hpop; [by left | reflexivity].
Defined.

(** ** Container writes leave the deadline alone *)

(** The container type a write command works on. *)
Definition write_target (command : Z) (item : CacheItem) : Prop :=
  ((command = CMD_LPUSH \/ command = CMD_RPUSH) /\ exists l, ItemVal item = VList l)
  \/ (command = CMD_SADD /\ exists set, ItemVal item = VSet set)
  \/ (command = CMD_HSET /\ exists hash, ItemVal item = VHash hash).

(** [s'] differs from [s] at most in the container stored under [key]. *)
Definition only_contents_changed (key : string) (item : CacheItem) (s s' : GoFastServer)
    : Prop :=
  (exists item', storage s' !! key = Some item'
     /\ DataType item' = DataType item
     /\ ExpiresAt item' = ExpiresAt item
     /\ CreatedAt item' = CreatedAt item)
  /\ ttlIndex s' = ttlIndex s
  /\ (forall k, k <> key -> storage s' !! k = storage s !! k).

Lemma Store_with_value_frame key item v s :
  storage s !! key = Some item ->
  DataType (with_value item v) = DataType item ->
  only_contents_changed key item s (Store key (with_value item v) s).
Proof.
  intros Hl Hty. split; [|split].
  - exists (with_value item v). simpl. by rewrite lookup_insert_eq.
  - reflexivity.
  - intros k Hk. simpl. by rewrite lookup_insert_ne.
Qed.

Lemma unchanged_frame key item s :
  storage s !! key = Some item -> only_contents_changed key item s s.
Proof. intros Hl. split; [|split]; [by exists item | done | done]. Qed.

Lemma handleListPush_frame key value isLeft now s item l :
  live_at s key now item -> ItemVal item = VList l ->
  only_contents_changed key item s (fst (handleListPush key value isLeft now s)).
Proof.
  intros [Hl He] Hv. unfold handleListPush. rewrite Hl, He, Hv.
  unfold push_into. destruct isLeft; simpl;
    apply Store_with_value_frame; try done; unfold DataType; simpl; by rewrite Hv.
Qed.

Lemma handleSetAdd_frame key member now s item set :
  live_at s key now item -> ItemVal item = VSet set ->
  only_contents_changed key item s (fst (handleSetAdd key member now s)).
Proof.
  intros [Hl He] Hv. unfold handleSetAdd. rewrite Hl, He, Hv.
  unfold add_into. simpl.
  apply Store_with_value_frame; try done; unfold DataType; simpl; by rewrite Hv.
Qed.

Lemma hash_store_frame key field value now s item hash :
  live_at s key now item -> ItemVal item = VHash hash ->
  only_contents_changed key item s (fst (hash_store key field value now s)).
Proof.
  intros [Hl He] Hv. unfold hash_store. rewrite Hl, He, Hv. unfold set_into. simpl.
  apply Store_with_value_frame; try done; unfold DataType; simpl; by rewrite Hv.
Qed.

Lemma handleHashSet_frame key data now s item hash s' response :
  live_at s key now item -> ItemVal item = VHash hash ->
  handleHashSet key data now s = Some (s', response) ->
  only_contents_changed key item s s'.
Proof.
  intros Hlive Hv. unfold handleHashSet.
  destruct (len data <? 4).
  { intros [= <- _]. apply unchanged_frame, Hlive. }
  destruct (u32_at data 0) as [fieldLen|]; simpl; [|done].
  destruct (len data <? uint32 (4 + fieldLen)).
  { intros [= <- _]. apply unchanged_frame, Hlive. }
  destruct (slice data 4 _) as [fieldBytes|]; simpl; [|done].
  destruct (slice data _ (len data)) as [value|]; simpl; [|done].
  intros [= Hs]. replace s' with (fst (hash_store key (gostring fieldBytes) value now s))
    by (by rewrite Hs).
  by eapply hash_store_frame.
Qed.

(** C9.  On a live key of the matching container type LPUSH, RPUSH, SADD
    and HSET return and change at most the container stored under the key:
    the item keeps its type, [ExpiresAt] and [CreatedAt], the TTL index and
    all other keys are untouched.  (HSET returns for every packed
    field/value payload; any HSET that returns obeys the frame.) *)
Theorem container_write_keeps_deadline (msg : Message) (now : Z) (s : GoFastServer)
    (item : CacheItem) :
  live_at s (gostring (Key msg)) now item ->
  write_target (Command msg) item ->
  ((Command msg <> CMD_HSET
    \/ exists field value, Value msg = hset_data field value /\ 4 + len field < 2 ^ 32) ->
   is_Some (processCommand msg now s))
  /\ (forall s' response,
        processCommand msg now s = Some (s', response) ->
        only_contents_changed (gostring (Key msg)) item s s').
Proof.
  intros Hlive Htarget. destruct msg as [length version command key value ttl].
  simpl in *.
  destruct Htarget as [[[-> | ->] [l Hl]] | [[-> [set Hset]] | [-> [hash Hhash]]]];
    unfold processCommand, dispatch_common; simpl.
  - split; [eauto|]. intros s' r [= Hr]. change s' with (fst (s', r)). rewrite <- Hr.
    by eapply handleListPush_frame.
  - split; [eauto|]. intros s' r [= Hr]. change s' with (fst (s', r)). rewrite <- Hr.
    by eapply handleListPush_frame.
  - split; [eauto|]. intros s' r [= Hr]. change s' with (fst (s', r)). rewrite <- Hr.
    by eapply handleSetAdd_frame.
  - split.
    + intros [Hne | (field & v & -> & Hf)]; [done|].
      rewrite handleHashSet_packed by done. eauto.
    + intros s' r Hr. by eapply handleHashSet_frame.
Qed.

Lemma container_write_keeps_deadline_witness :
  is_Some (processCommand (mkMessage 17 1 CMD_LPUSH (str "jobs") (str "b") 0) 1000 list_demo)
  /\ forall s' response,
       processCommand (mkMessage 17 1 CMD_LPUSH (str "jobs") (str "b") 0) 1000 list_demo
       = Some (s', response) ->
       only_contents_changed "jobs" (mkItem (VList [str "a"]) 2000 900) list_demo s'.
Proof.
  pose proof (container_write_keeps_deadline
    (mkMessage 17 1 CMD_LPUSH (str "jobs") (str "b") 0) 1000 list_demo
    (mkItem (VList [str "a"]) 2000 900)) as H.
  destruct H as [H1 H2].
  - split; vm_compute; reflexivity.
  - left. split; [by left | by eexists].
  - split; [apply H1; by left | exact H2].
Defined.

(** ** INCR and DECR *)

Section Counters.
Variables (key : string) (now : Z) (s : GoFastServer) (item : CacheItem) (v : bytes).
Hypothesis Hlive : live_at s key now item.
Hypothesis Hstring : ItemVal item = VString v.

Lemma handleIncrBy_parsed delta n :
  ParseInt (gostring v) = Some n ->
  snd (handleIncrBy delta key now s)
  = createResponse RESP_OK (str (FormatInt (wrap64 (n + delta)))).
Proof.
  destruct Hlive as [Hl He]. intros Hp.
  unfold handleIncrBy. rewrite Hl, He, Hstring, Hp. reflexivity.
Qed.

Lemma handleIncrBy_unparsed delta :
  ParseInt (gostring v) = None ->
  handleIncrBy delta key now s = (s, ERR_not_integer).
Proof.
  destruct Hlive as [Hl He]. intros Hp.
  unfold handleIncrBy. rewrite Hl, He, Hstring, Hp. reflexivity.
Qed.

Lemma handleIncrBy_error_iff delta :
  snd (handleIncrBy delta key now s) = ERR_not_integer <-> ParseInt (gostring v) = None.
Proof.
  split.
  - destruct (ParseInt (gostring v)) as [n|] eqn:Hp; [|done].
    rewrite (handleIncrBy_parsed delta n Hp). intros H.
    exfalso. exact (OK_is_not_ERROR _ _ H).
  - intros Hp. by rewrite handleIncrBy_unparsed.
Qed.
End Counters.

Definition int64_max_text : bytes := str "9223372036854775807".
Definition int64_min_text : bytes := str "-9223372036854775808".

(** C10.  On a live STRING key INCR and DECR reply with the error
    "ERR value is not an integer or out of range" exactly when the stored
    bytes do not parse as a signed 64-bit decimal; whenever they parse, the
    reply is OK with the two's complement sum, so the largest value
    increments to the smallest and the smallest decrements to the largest. *)
Theorem incr_decr_wrap_around (key : bytes) (now : Z) (s : GoFastServer)
    (item : CacheItem) (v : bytes) :
  live_at s (gostring key) now item ->
  ItemVal item = VString v ->
  let incr := processCommand (counter_message CMD_INCR key) now s in
  let decr := processCommand (counter_message CMD_DECR key) now s in
  (snd <$> incr = Some ERR_not_integer <-> ParseInt (gostring v) = None)
  /\ (snd <$> decr = Some ERR_not_integer <-> ParseInt (gostring v) = None)
  /\ (forall n, ParseInt (gostring v) = Some n ->
        snd <$> incr = Some (createResponse RESP_OK (str (FormatInt (wrap64 (n + 1)))))
        /\ snd <$> decr = Some (createResponse RESP_OK (str (FormatInt (wrap64 (n - 1))))))
  /\ (v = int64_max_text -> snd <$> incr = Some (createResponse RESP_OK int64_min_text))
  /\ (v = int64_min_text -> snd <$> decr = Some (createResponse RESP_OK int64_max_text)).
Proof.
  intros Hlive Hstring incr decr.
  assert (Hi : snd <$> incr = Some (snd (handleIncrBy 1 (gostring key) now s))) by reflexivity.
  assert (Hd : snd <$> decr = Some (snd (handleIncrBy (-1) (gostring key) now s))) by reflexivity.
  rewrite Hi, Hd. clear Hi Hd incr decr.
  pose proof (handleIncrBy_error_iff _ _ _ _ _ Hlive Hstring) as Herr.
  pose proof (handleIncrBy_parsed _ _ _ _ _ Hlive Hstring) as Hok.
  repeat split.
  - intros [= H]. by apply (Herr 1).
  - intros H. f_equal. by apply (Herr 1).
  - intros [= H]. by apply (Herr (-1)).
  - intros H. f_equal. by apply (Herr (-1)).
  - f_equal. by apply Hok.
  - f_equal. rewrite (Hok (-1) n) by done. reflexivity.
  - intros ->. f_equal. by rewrite (Hok 1 9223372036854775807).
  - intros ->. f_equal. by rewrite (Hok (-1) (-9223372036854775808)).
Qed.

Definition counter_demo (v : bytes) : GoFastServer :=
  Store "n" (mkItem (VString v) 0 0) NewGoFastServer.

Lemma incr_decr_wrap_around_witness :
  snd <$> processCommand (counter_message CMD_INCR (str "n")) 1700000000
            (counter_demo int64_max_text)
  = Some (createResponse RESP_OK int64_min_text).
Proof.
  refine (proj1 (proj2 (proj2 (proj2
    (incr_decr_wrap_around (str "n") 1700000000 (counter_demo int64_max_text)
       (mkItem (VString int64_max_text) 0 0) int64_max_text _ _)))) _).
  - split; vm_compute; reflexivity.
  - reflexivity.
  - reflexivity.
Defined.

(** ** Worked examples: frames on the wire, replies, states *)

Definition set_foo_bar : bytes :=
  frame 1 CMD_SET (field (str "foo") ++ PutUint32 0 ++ field (str "bar")).
Definition get_foo : bytes := frame 1 CMD_GET (field (str "foo")).

Definition foo_stored : GoFastServer :=
  Store "foo" (mkItem (VString (str "bar")) 0 0) NewGoFastServer.

Example scenario_set_get :
  readMessage (set_foo_bar ++ get_foo)
  = ReadMessage (mkMessage 20 1 CMD_SET (str "foo") (str "bar") 0) get_foo
  /\ processCommand (mkMessage 20 1 CMD_SET (str "foo") (str "bar") 0) 0 NewGoFastServer
     = Some (foo_stored, createResponse RESP_OK [])
  /\ readMessage get_foo = ReadMessage (mkMessage 9 1 CMD_GET (str "foo") [] 0) []
  /\ processCommand (mkMessage 9 1 CMD_GET (str "foo") [] 0) 0 foo_stored
     = Some (foo_stored, createResponse RESP_OK (str "bar")).
Proof. repeat split; vm_compute; reflexivity. Qed.

Example scenario_expiration :
  processCommand (mkMessage 0 1 CMD_SET (str "k") (str "v") 1) 1000 NewGoFastServer
  = Some (ttlIndex_set "k" 1001
            (Store "k" (mkItem (VString (str "v")) 1001 1000) NewGoFastServer),
          createResponse RESP_OK [])
  /\ processCommand (mkMessage 0 1 CMD_GET (str "k") [] 0) 1002
       (ttlIndex_set "k" 1001
          (Store "k" (mkItem (VString (str "v")) 1001 1000) NewGoFastServer))
     = Some (NewGoFastServer, createResponse RESP_NOT_FOUND []).
Proof. split; vm_compute; reflexivity. Qed.

Definition counter_at (value : string) : GoFastServer :=
  Store "n" (mkItem (VString (str value)) 0 0) NewGoFastServer.

Example scenario_incr :
  processCommand (counter_message CMD_INCR (str "n")) 0 NewGoFastServer
  = Some (counter_at "1", createResponse RESP_OK (str "1"))
  /\ processCommand (counter_message CMD_INCR (str "n")) 0 (counter_at "1")
     = Some (counter_at "2", createResponse RESP_OK (str "2"))
  /\ processCommand (counter_message CMD_INCR (str "n")) 0 (counter_at "abc")
     = Some (counter_at "abc", ERR_not_integer).
Proof. repeat split; vm_compute; reflexivity. Qed.

(** * Further properties of the data plane *)

(** ** SET, GET, DEL, EXPIRE and TTL *)

(** The item SET stores. *)
Definition set_item (value : bytes) (ttl now : Z) : CacheItem :=
  mkItem (VString value) (if 0 <? ttl then wrap64 (now + ttl) else 0) now.

Lemma set_string_lookup key value ttl now s :
  storage (set_string key value ttl now s) !! key = Some (set_item value ttl now).
Proof.
  unfold set_string, set_item. destruct (0 <? ttl); simpl; apply lookup_insert_eq.
Qed.

Lemma set_item_expired value ttl now later :
  0 <= ttl < 2 ^ 32 -> 0 <= now -> now + 2 ^ 32 < 2 ^ 63 ->
  expired (set_item value ttl now) later = bool_decide (0 < ttl /\ now + ttl <= later).
Proof.
  intros Httl Hnow Hmax. unfold expired, set_item. simpl.
  destruct (Z.ltb_spec 0 ttl) as [Hpos|Hzero].
  - rewrite wrap64_small by lia.
    replace (0 <? now + ttl) with true by lia. simpl.
    destruct (Z.leb_spec (now + ttl) later).
    + by rewrite bool_decide_eq_true_2.
    + rewrite bool_decide_eq_false_2; [done | lia].
  - simpl. rewrite bool_decide_eq_false_2; [done | lia].
Qed.

(** SET followed by GET before the deadline (or with no TTL) returns the
    value; GET at or after the deadline replies NOT_FOUND and removes the key
    from the keyspace and from the TTL index. *)
Theorem set_then_get (set get : Message) (now later : Z) (s : GoFastServer) :
  Command set = CMD_SET -> Command get = CMD_GET -> Key get = Key set ->
  0 <= TTL set < 2 ^ 32 -> 0 <= now -> now + 2 ^ 32 < 2 ^ 63 ->
  exists s1,
    processCommand set now s = Some (s1, createResponse RESP_OK [])
    /\ (TTL set = 0 \/ later < now + TTL set ->
        processCommand get later s1 = Some (s1, createResponse RESP_OK (Value set)))
    /\ (0 < TTL set -> now + TTL set <= later ->
        exists s2,
          processCommand get later s1 = Some (s2, createResponse RESP_NOT_FOUND [])
          /\ storage s2 !! gostring (Key set) = None
          /\ ttlIndex s2 !! gostring (Key set) = None).
Proof.
  destruct set as [l1 v1 c1 key value ttl], get as [l2 v2 c2 k2 val2 t2]. simpl.
  intros -> -> -> Httl Hnow Hmax.
  exists (set_string (gostring key) value ttl now s).
  split; [reflexivity|].
  unfold processCommand, dispatch_common; simpl. unfold string_cmd_get.
  rewrite set_string_lookup, set_item_expired by done.
  split.
  - intros Hlive. rewrite bool_decide_eq_false_2 by lia. reflexivity.
  - intros Hpos Hdue. rewrite bool_decide_eq_true_2 by lia.
    eexists. split; [reflexivity|]. split; simpl; apply lookup_delete_eq.
Qed.

Lemma set_then_get_witness :
  exists s1,
    processCommand (mkMessage 0 1 CMD_SET (str "k") (str "v") 5) 100 NewGoFastServer
    = Some (s1, createResponse RESP_OK [])
    /\ processCommand (mkMessage 0 1 CMD_GET (str "k") [] 0) 104 s1
       = Some (s1, createResponse RESP_OK (str "v")).
Proof.
  destruct (set_then_get (mkMessage 0 1 CMD_SET (str "k") (str "v") 5)
              (mkMessage 0 1 CMD_GET (str "k") [] 0) 100 104 NewGoFastServer)
    as (s1 & Hset & Hget & _); try reflexivity; try (simpl; lia).
  exists s1. split; [exact Hset|]. apply Hget. right. simpl. lia.
Defined.

(** DEL replies "1" exactly when the key is stored (expired or not), and
    afterwards the key is in neither map while every other key and index
    entry is as before; DEL of a key that is not stored replies "0" and
    changes nothing. *)
Theorem del_removes_key_and_index (msg : Message) (now : Z) (s : GoFastServer) :
  Command msg = CMD_DEL ->
  exists s',
    processCommand msg now s
    = Some (s', createResponse RESP_OK
                  (str (if decide (is_Some (storage s !! gostring (Key msg)))
                        then "1" else "0")))
    /\ storage s' = delete (gostring (Key msg)) (storage s)
    /\ (is_Some (storage s !! gostring (Key msg)) ->
        ttlIndex s' = delete (gostring (Key msg)) (ttlIndex s))
    /\ (storage s !! gostring (Key msg) = None -> s' = s)
    /\ processCommand msg now s' = Some (s', createResponse RESP_OK (str "0")).
Proof.
  destruct msg as [l v c k val t]. simpl. intros ->.
  unfold processCommand, dispatch_common; simpl. unfold string_cmd_del.
  destruct (storage s !! gostring k) as [item|] eqn:Hl.
  - eexists. rewrite decide_True by eauto.
    split; [reflexivity|]. split; [reflexivity|]. split; [reflexivity|].
    split; [done|]. simpl. by rewrite lookup_delete_eq.
  - exists s. rewrite decide_False by (by intros [? ?]).
    split; [reflexivity|]. split; [by rewrite delete_id|].
    split; [by intros [? ?]|]. split; [done|]. by rewrite Hl.
Qed.

Lemma del_removes_key_and_index_witness :
  exists s',
    processCommand (mkMessage 13 1 CMD_DEL (str "session") [] 0) 2000 expired_demo
    = Some (s', createResponse RESP_OK (str "1"))
    /\ storage s' !! "session" = None /\ ttlIndex s' !! "session" = None.
Proof.
  destruct (del_removes_key_and_index
              (mkMessage 13 1 CMD_DEL (str "session") [] 0) 2000 expired_demo)
    as (s' & Hrun & Hstore & Hindex & _); [reflexivity|].
  exists s'. split; [exact Hrun|].
  rewrite Hstore, Hindex by (by eexists). split; apply lookup_delete_eq.
Defined.

(** EXPIRE on a stored key replies "1"; a following TTL then reports "-1"
    when the TTL was 0, the seconds left while the deadline is ahead, and
    "-2" with the key removed from both maps once it has passed. *)
Theorem expire_then_ttl (exp ttl : Message) (now later : Z) (s : GoFastServer)
    (item : CacheItem) :
  Command exp = CMD_EXPIRE -> Command ttl = CMD_TTL -> Key ttl = Key exp ->
  storage s !! gostring (Key exp) = Some item ->
  0 <= TTL exp < 2 ^ 32 -> 0 <= now < 2 ^ 62 -> 0 <= later < 2 ^ 62 ->
  exists s1,
    processCommand exp now s = Some (s1, createResponse RESP_OK (str "1"))
    /\ (TTL exp = 0 ->
        processCommand ttl later s1 = Some (s1, createResponse RESP_OK (str "-1")))
    /\ (0 < TTL exp -> later < now + TTL exp ->
        processCommand ttl later s1
        = Some (s1, createResponse RESP_OK (itoa (now + TTL exp - later))))
    /\ (0 < TTL exp -> now + TTL exp <= later ->
        exists s2,
          processCommand ttl later s1 = Some (s2, createResponse RESP_OK (str "-2"))
          /\ storage s2 !! gostring (Key exp) = None
          /\ ttlIndex s2 !! gostring (Key exp) = None).
Proof.
  destruct exp as [l1 v1 c1 key val1 t], ttl as [l2 v2 c2 k2 val2 t2]. simpl.
  intros -> -> -> Hitem Ht Hnow Hlater.
  unfold processCommand, dispatch_common; simpl.
  unfold string_cmd_expire, string_cmd_ttl. rewrite Hitem.
  destruct (Z.ltb_spec 0 t) as [Hpos|Hzero].
  - eexists. split; [reflexivity|]. simpl. rewrite lookup_insert_eq. simpl.
    rewrite (wrap64_small (now + t)) by lia.
    replace (now + t =? 0) with false by lia.
    rewrite wrap64_small by lia.
    split; [intros; lia|]. split.
    + intros _ Hahead. replace (now + t - later <=? 0) with false by lia. reflexivity.
    + intros _ Hdue. replace (now + t - later <=? 0) with true by lia.
      eexists. split; [reflexivity|]. split; simpl; apply lookup_delete_eq.
  - eexists. split; [reflexivity|]. simpl. rewrite lookup_insert_eq. simpl.
    split; [done|]. split; intros; lia.
Qed.

Lemma expire_then_ttl_witness :
  exists s1,
    processCommand (mkMessage 0 1 CMD_EXPIRE (str "foo") [] 60) 1000 foo_stored
    = Some (s1, createResponse RESP_OK (str "1"))
    /\ processCommand (mkMessage 0 1 CMD_TTL (str "foo") [] 0) 1020 s1
       = Some (s1, createResponse RESP_OK (str "40")).
Proof.
  destruct (expire_then_ttl (mkMessage 0 1 CMD_EXPIRE (str "foo") [] 60)
              (mkMessage 0 1 CMD_TTL (str "foo") [] 0) 1000 1020 foo_stored
              (mkItem (VString (str "bar")) 0 0))
    as (s1 & Hexp & _ & Hleft & _); try reflexivity; try (simpl; lia).
  exists s1. split; [exact Hexp|]. apply Hleft; simpl; lia.
Defined.

(** ** Decimal text: [FormatInt] read back by [ParseInt] *)


Lemma str_gostring (b : bytes) : str (gostring b) = b.
Proof. apply list_byte_of_string_of_list_byte. Qed.

(** The number a digit sequence stands for, read left to right onto [acc]. *)
Fixpoint uint_value (d : Decimal.uint) (acc : Z) : Z :=
  match d with
  | Decimal.Nil => acc
  | Decimal.D0 d => uint_value d (acc * 10 + 0)
  | Decimal.D1 d => uint_value d (acc * 10 + 1)
  | Decimal.D2 d => uint_value d (acc * 10 + 2)
  | Decimal.D3 d => uint_value d (acc * 10 + 3)
  | Decimal.D4 d => uint_value d (acc * 10 + 4)
  | Decimal.D5 d => uint_value d (acc * 10 + 5)
  | Decimal.D6 d => uint_value d (acc * 10 + 6)
  | Decimal.D7 d => uint_value d (acc * 10 + 7)
  | Decimal.D8 d => uint_value d (acc * 10 + 8)
  | Decimal.D9 d => uint_value d (acc * 10 + 9)
  end.

Lemma uint_value_ge d : forall acc, 0 <= acc -> acc <= uint_value d acc.
Proof.
  induction d; intros acc Hacc; simpl; try lia;
    match goal with
    | |- _ <= uint_value _ ?a => specialize (IHd a); lia
    end.
Qed.

Lemma ParseUint_loop_digits d : forall acc,
  0 <= acc -> uint_value d acc < 2 ^ 64 ->
  ParseUint_loop (NilEmpty.string_of_uint d) acc = Some (uint_value d acc).
Proof.
  induction d; intros acc Hacc Hfit; simpl in *; try reflexivity;
    match goal with
    | H : uint_value _ ?a < _ |- context [2 ^ 64 <=? ?b] =>
        pose proof (uint_value_ge d a ltac:(lia)) as Hge;
        change b with a;
        replace (2 ^ 64 <=? a) with false by lia;
        apply IHd; [lia | assumption]
    end.
Qed.

Lemma of_uint_acc_value d : forall acc,
  Z.pos (Pos.of_uint_acc d acc) = uint_value d (Z.pos acc).
Proof.
  induction d; intros acc; simpl; try reflexivity; rewrite IHd; f_equal; lia.
Qed.

Lemma of_uint_value d : Z.of_N (Pos.of_uint d) = uint_value d 0.
Proof.
  induction d; simpl; try reflexivity; try assumption;
    rewrite of_uint_acc_value; reflexivity.
Qed.

Lemma to_uint_value p : uint_value (Pos.to_uint p) 0 = Z.pos p.
Proof. rewrite <- of_uint_value, DecimalPos.Unsigned.of_to. reflexivity. Qed.

Lemma string_of_uint_digits d :
  d <> Decimal.Nil ->
  exists c rest,
    NilEmpty.string_of_uint d = String c rest
    /\ Ascii.eqb c "+" = false /\ Ascii.eqb c "-" = false.
Proof. destruct d; intros Hd; try congruence; simpl; eauto. Qed.

Lemma to_uint_nonnil p : Pos.to_uint p <> Decimal.Nil.
Proof.
  intros Hnil. pose proof (DecimalPos.Unsigned.of_to p) as Hp.
  rewrite Hnil in Hp. discriminate.
Qed.

Lemma ParseUint_to_uint p :
  Z.pos p < 2 ^ 64 ->
  ParseUint (NilEmpty.string_of_uint (Pos.to_uint p)) = Some (Z.pos p).
Proof.
  intros Hfit.
  destruct (string_of_uint_digits _ (to_uint_nonnil p)) as (c & rest & Hs & _).
  unfold ParseUint. rewrite Hs, <- Hs.
  rewrite ParseUint_loop_digits; rewrite ?to_uint_value; done.
Qed.

Lemma NilZero_string_of_to_uint p :
  NilZero.string_of_uint (Pos.to_uint p) = NilEmpty.string_of_uint (Pos.to_uint p).
Proof.
  pose proof (to_uint_nonnil p). unfold NilZero.string_of_uint.
  by destruct (Pos.to_uint p).
Qed.

(** What [FormatInt] writes for a 64-bit integer, [ParseInt] reads back. *)
Lemma ParseInt_FormatInt (n : Z) :
  - 2 ^ 63 <= n < 2 ^ 63 -> ParseInt (FormatInt n) = Some n.
Proof.
  intros Hn. unfold FormatInt, itoa_string.
  destruct n as [|p|p]; [reflexivity| |]; unfold Z.to_int, NilZero.string_of_int.
  - rewrite NilZero_string_of_to_uint.
    destruct (string_of_uint_digits _ (to_uint_nonnil p)) as (c & rest & Hs & Hplus & Hminus).
    unfold ParseInt. rewrite Hs, Hplus, Hminus, <- Hs.
    rewrite ParseUint_to_uint by lia. simpl negb. cbv beta iota zeta.
    replace (2 ^ 63 <=? Z.pos p) with false by lia. simpl.
    by rewrite wrap64_small by lia.
  - rewrite NilZero_string_of_to_uint. unfold ParseInt.
    change (Ascii.eqb "-" "+") with false. change (Ascii.eqb "-" "-") with true.
    cbv beta iota zeta.
    rewrite ParseUint_to_uint by lia. cbv beta iota zeta. simpl negb. simpl andb.
    replace (2 ^ 63 <? Z.pos p) with false by lia.
    f_equal. change (Z.neg p) with (- Z.pos p).
    destruct (Z.eq_dec (Z.pos p) (2 ^ 63)) as [Heq|Hne]; [by rewrite Heq|].
    unfold wrap64. rewrite (Z.mod_small (Z.pos p + 2 ^ 63)) by lia.
    replace (Z.pos p + 2 ^ 63 - 2 ^ 63) with (Z.pos p) by lia.
    rewrite Z.mod_small by lia. lia.
Qed.

(** ** Commands in sequence *)

(** The commands of [jobs] run one after the other, each at its own clock
    reading; the replies are collected in order. *)
Fixpoint run_commands (jobs : list (Message * Z)) (s : GoFastServer)
    : option (GoFastServer * list bytes) :=
  match jobs with
  | [] => Some (s, [])
  | (msg, now) :: rest =>
      '(s1, response) ← processCommand msg now s;
      '(s2, responses) ← run_commands rest s1;
      Some (s2, response :: responses)
  end.

(** ** INCR and DECR as a counter *)

Definition counter_step (msg : Message) : Z :=
  if Command msg =? CMD_INCR then 1 else -1.









(** INCR or DECR on a key whose deadline has passed answers as from 0, yet
    the item it stores carries the passed deadline again while the TTL index
    has lost the key: the next GET finds the fresh counter expired and
    replies NOT_FOUND. *)
Theorem counter_on_expired_key_is_born_expired (msg get : Message) (now later : Z)
    (s : GoFastServer) (item : CacheItem) :
  Command msg = CMD_INCR \/ Command msg = CMD_DECR ->
  Command get = CMD_GET -> Key get = Key msg ->
  storage s !! gostring (Key msg) = Some item ->
  expired item now = true -> now <= later ->
  exists s1,
    processCommand msg now s
    = Some (s1, createResponse RESP_OK (itoa (counter_step msg)))
    /\ storage s1 !! gostring (Key msg)
       = Some (mkItem (VString (itoa (counter_step msg))) (ExpiresAt item) now)
    /\ ttlIndex s1 !! gostring (Key msg) = None
    /\ processCommand get later s1
       = Some (evict (gostring (Key msg)) s1, createResponse RESP_NOT_FOUND []).
Proof.
  destruct msg as [l1 v1 c1 key val1 t], get as [l2 v2 c2 k2 val2 t2]. simpl.
  intros Hcmd -> -> Hitem Hexp Hlater.
  assert (Hdue : 0 < ExpiresAt item <= now).
  { unfold expired in Hexp. apply andb_true_iff in Hexp as [H1 H2]. lia. }
  assert (Hrun : processCommand (mkMessage l1 v1 c1 key val1 t) now s
                 = Some (handleIncrBy (counter_step (mkMessage l1 v1 c1 key val1 t))
                           (gostring key) now s)).
  { unfold counter_step, processCommand, dispatch_common.
    destruct Hcmd as [-> | ->]; reflexivity. }
  rewrite Hrun. unfold handleIncrBy. rewrite Hitem, Hexp. cbv beta iota zeta.
  replace (0 <? ExpiresAt item) with true by lia.
  assert (Hstep : wrap64 (0 + counter_step (mkMessage l1 v1 c1 key val1 t))
                  = counter_step (mkMessage l1 v1 c1 key val1 t)).
  { unfold counter_step. by destruct (_ =? _). }
  rewrite Hstep. eexists. split; [reflexivity|].
  split; [simpl; apply lookup_insert_eq|].
  split; [simpl; apply lookup_delete_eq|].
  unfold processCommand, dispatch_common. simpl. unfold string_cmd_get. simpl.
  rewrite lookup_insert_eq. unfold expired. simpl.
  replace (0 <? ExpiresAt item) with true by lia.
  replace (ExpiresAt item <=? later) with true by lia. reflexivity.
Qed.

Lemma counter_on_expired_key_is_born_expired_witness :
  exists s1,
    processCommand (counter_message CMD_INCR (str "session")) 2000 expired_demo
    = Some (s1, createResponse RESP_OK (itoa 1))
    /\ ttlIndex s1 !! "session" = None
    /\ processCommand (mkMessage 13 1 CMD_GET (str "session") [] 0) 2000 s1
       = Some (evict "session" s1, createResponse RESP_NOT_FOUND []).
Proof.
  destruct (counter_on_expired_key_is_born_expired
              (counter_message CMD_INCR (str "session"))
              (mkMessage 13 1 CMD_GET (str "session") [] 0) 2000 2000 expired_demo
              (mkItem (VString (str "v")) 100 50))
    as (s1 & Hrun & _ & Hidx & Hget); try reflexivity; try (by left); try lia.
  exists s1. by repeat split.
Defined.

(** ** GETSET *)

(** GETSET on a live STRING returns the old value and stores the new one
    under the old deadline without touching the TTL index, so a GET before
    that deadline returns the new value; on an absent key it replies
    NOT_FOUND and stores the new value with no deadline. *)
Theorem getset_swaps_value_and_keeps_deadline (msg get : Message) (now later : Z)
    (s : GoFastServer) :
  Command msg = CMD_GETSET -> Command get = CMD_GET -> Key get = Key msg ->
  exists s1,
    (forall item old,
       live_at s (gostring (Key msg)) now item -> ItemVal item = VString old ->
       processCommand msg now s = Some (s1, createResponse RESP_OK old)
       /\ storage s1 !! gostring (Key msg)
          = Some (mkItem (VString (Value msg)) (ExpiresAt item) now)
       /\ ttlIndex s1 = ttlIndex s
       /\ (expired item later = false ->
           processCommand get later s1
           = Some (s1, createResponse RESP_OK (Value msg))))
    /\ (storage s !! gostring (Key msg) = None ->
        processCommand msg now s = Some (s1, createResponse RESP_NOT_FOUND [])
        /\ storage s1 !! gostring (Key msg) = Some (mkItem (VString (Value msg)) 0 now)
        /\ ttlIndex s1 = ttlIndex s
        /\ processCommand get later s1
           = Some (s1, createResponse RESP_OK (Value msg))).
Proof.
  destruct msg as [l1 v1 c1 key newValue t], get as [l2 v2 c2 k2 val2 t2]. simpl.
  intros -> -> ->.
  exists (fst (handleGetSet (gostring key) newValue now s)).
  unfold processCommand, dispatch_common; simpl. unfold handleGetSet, string_cmd_get.
  split.
  - intros item old [Hl He] Hv. rewrite Hl, He, Hv. simpl.
    rewrite lookup_insert_eq. repeat (split; [reflexivity|]).
    unfold expired. simpl. by intros ->.
  - intros Hnone. rewrite Hnone. simpl. rewrite lookup_insert_eq.
    by repeat split.
Qed.

Lemma getset_swaps_value_and_keeps_deadline_witness :
  exists s1,
    processCommand (mkMessage 12 1 CMD_GETSET (str "foo") (str "new") 0) 50 foo_stored
    = Some (s1, createResponse RESP_OK (str "bar"))
    /\ processCommand (mkMessage 9 1 CMD_GET (str "foo") [] 0) 60 s1
       = Some (s1, createResponse RESP_OK (str "new")).
Proof.
  destruct (getset_swaps_value_and_keeps_deadline
              (mkMessage 12 1 CMD_GETSET (str "foo") (str "new") 0)
              (mkMessage 9 1 CMD_GET (str "foo") [] 0) 50 60 foo_stored)
    as (s1 & Hlive & _); try reflexivity.
  destruct (Hlive (mkItem (VString (str "bar")) 0 0) (str "bar"))
    as (Hrun & _ & _ & Hget); [by split | reflexivity |].
  exists s1. split; [exact Hrun | by apply Hget].
Defined.

(** ** Lists as queues and stacks *)

(** The key holds the list [l] with no deadline; the empty list is an absent
    key. *)
Definition holds_list (s : GoFastServer) (key : string) (l : list bytes) : Prop :=
  match l with
  | [] => storage s !! key = None
  | _ => exists created, storage s !! key = Some (mkItem (VList l) 0 created)
  end.

Definition push_command (isLeft : bool) : Z := if isLeft then CMD_LPUSH else CMD_RPUSH.
Definition pop_command (isLeft : bool) : Z := if isLeft then CMD_LPOP else CMD_RPOP.

Definition push_job (isLeft : bool) (key : string) (job : Message * Z) (value : bytes)
    : Prop :=
  Command job.1 = push_command isLeft /\ gostring (Key job.1) = key
  /\ Value job.1 = value.

Definition pop_job (isLeft : bool) (key : string) (job : Message * Z) : Prop :=
  Command job.1 = pop_command isLeft /\ gostring (Key job.1) = key.

(** The list after pushing [values] one by one at one end. *)
Definition pushed (isLeft : bool) (l values : list bytes) : list bytes :=
  if isLeft then rev values ++ l else l ++ values.

(** The first [n] values popped from one end, and what is left. *)
Definition popped (isLeft : bool) (n : nat) (l : list bytes) : list bytes :=
  if isLeft then take n l else take n (rev l).
Definition unpopped (isLeft : bool) (n : nat) (l : list bytes) : list bytes :=
  if isLeft then drop n l else rev (drop n (rev l)).

Lemma run_commands_app jobs1 jobs2 s s1 s2 rs1 rs2 :
  run_commands jobs1 s = Some (s1, rs1) ->
  run_commands jobs2 s1 = Some (s2, rs2) ->
  run_commands (jobs1 ++ jobs2) s = Some (s2, rs1 ++ rs2).
Proof.
  revert s rs1. induction jobs1 as [|[msg now] jobs1 IH]; intros s rs1 H1 H2; simpl in *.
  - by injection H1 as -> <-.
  - destruct (processCommand msg now s) as [[s0 r]|]; [|done]. simpl in *.
    destruct (run_commands jobs1 s0) as [[s3 rs]|] eqn:Hrest; [|done]. simpl in *.
    injection H1 as -> <-. by rewrite (IH _ _ Hrest H2).
Qed.

Lemma handleListPush_holds key value isLeft now s l :
  holds_list s key l ->
  exists s',
    handleListPush key value isLeft now s
    = (s', createResponse RESP_OK (itoa (Z.of_nat (S (length l)))))
    /\ holds_list s' key (pushed isLeft l [value]).
Proof.
  unfold handleListPush, holds_list, pushed, push_into, LeftPush, RightPush.
  destruct isLeft, l as [|v l]; simpl.
  - intros ->. eexists. split; [reflexivity|]. eexists. apply lookup_insert_eq.
  - intros [created ->]. eexists. split; [reflexivity|].
    eexists. apply lookup_insert_eq.
  - intros ->. eexists. split; [reflexivity|]. eexists. apply lookup_insert_eq.
  - intros [created ->]. simpl. eexists. split.
    + rewrite length_app, Nat.add_1_r. reflexivity.
    + simpl. eexists. apply lookup_insert_eq.
Qed.

Lemma handleListPop_holds key (isLeft : bool) now s l v l' :
  holds_list s key l ->
  (if isLeft then LeftPop l else RightPop l) = Some (v, l') ->
  exists s',
    handleListPop key isLeft now s = (s', createResponse RESP_OK v)
    /\ holds_list s' key l'.
Proof.
  intros Hl Hpop. unfold handleListPop.
  destruct l as [|v0 l0]; [by destruct isLeft|].
  destruct Hl as [created ->]. unfold expired.
  cbn [ItemVal ExpiresAt]. change (0 <? 0) with false. cbn [andb].
  rewrite Hpop. destruct l' as [|v1 l1]; simpl.
  - eexists. split; [reflexivity|]. simpl. apply lookup_delete_eq.
  - eexists. split; [reflexivity|]. simpl. eexists. apply lookup_insert_eq.
Qed.

Lemma pushed_cons isLeft l v values :
  pushed isLeft l (v :: values) = pushed isLeft (pushed isLeft l [v]) values.
Proof. unfold pushed. destruct isLeft; simpl; by rewrite <- app_assoc. Qed.

Lemma run_pushes isLeft key : forall jobs values s l,
  Forall2 (push_job isLeft key) jobs values -> holds_list s key l ->
  exists s',
    run_commands jobs s
    = Some (s', map (fun n => createResponse RESP_OK (itoa (Z.of_nat (length l + n))))
                  (seq 1 (length values)))
    /\ holds_list s' key (pushed isLeft l values).
Proof.
  induction jobs as [|[msg now] jobs IH]; intros values s l Hjobs Hl.
  - apply Forall2_nil_inv_l in Hjobs as ->. exists s. split; [reflexivity|].
    unfold pushed. destruct isLeft; by rewrite ?app_nil_r.
  - apply Forall2_cons_inv_l in Hjobs as (v & vs & (Hcmd & Hkey & Hval) & Hjobs & ->).
    simpl in Hcmd, Hkey, Hval.
    destruct (handleListPush_holds key v isLeft now s l Hl) as (s1 & Hpush & Hl1).
    destruct (IH vs s1 _ Hjobs Hl1) as (s' & Hrun & Hl').
    exists s'. split; [|by rewrite pushed_cons].
    assert (Hstep : processCommand msg now s
                    = Some (s1, createResponse RESP_OK (itoa (Z.of_nat (S (length l)))))).
    { unfold processCommand, dispatch_common, push_command in *.
      destruct isLeft; rewrite Hcmd; simpl; by rewrite Hkey, Hval, Hpush. }
    cbn [run_commands]. rewrite Hstep. cbn [mbind option_bind]. rewrite Hrun.
    cbn [mbind option_bind length seq map]. rewrite Nat.add_1_r. do 3 f_equal.
    rewrite <- (seq_shift (length vs) 1), map_map. apply map_ext. intros n.
    do 3 f_equal. unfold pushed. destruct isLeft; simpl; rewrite ?length_app; simpl; lia.
Qed.

Lemma run_pops isLeft key : forall jobs s l,
  Forall (pop_job isLeft key) jobs -> (length jobs <= length l)%nat ->
  holds_list s key l ->
  exists s',
    run_commands jobs s
    = Some (s', map (createResponse RESP_OK) (popped isLeft (length jobs) l))
    /\ holds_list s' key (unpopped isLeft (length jobs) l).
Proof.
  induction jobs as [|[msg now] jobs IH]; intros s l Hjobs Hlen Hl.
  - exists s. unfold popped, unpopped.
    destruct isLeft; simpl; rewrite ?take_0, ?drop_0, ?rev_involutive; by split.
  - apply Forall_cons in Hjobs as [[Hcmd Hkey] Hjobs]. simpl in Hcmd, Hkey, Hlen.
    assert (exists v l',
              (if isLeft then LeftPop l else RightPop l) = Some (v, l')
              /\ popped isLeft (S (length jobs)) l = v :: popped isLeft (length jobs) l'
              /\ unpopped isLeft (S (length jobs)) l = unpopped isLeft (length jobs) l'
              /\ (length jobs <= length l')%nat) as (v & l' & Hpop & Hp & Hu & Hlen').
    { unfold popped, unpopped, LeftPop, RightPop. destruct isLeft.
      - destruct l as [|v l0]; simpl in Hlen; [lia|].
        exists v, l0. repeat split. lia.
      - assert (Hrev : length (rev l) = length l) by apply length_rev.
        destruct (rev l) as [|v r] eqn:Hr; simpl in Hrev; [lia|].
        exists v, (rev r). rewrite rev_involutive, length_rev. repeat split. lia. }
    destruct (handleListPop_holds key isLeft now s l v l' Hl Hpop) as (s1 & Hrun1 & Hl1).
    destruct (IH s1 l' Hjobs Hlen' Hl1) as (s' & Hrun & Hl').
    exists s'. cbn [length]. rewrite Hp, Hu. split; [|done].
    assert (Hstep : processCommand msg now s = Some (s1, createResponse RESP_OK v)).
    { unfold processCommand, dispatch_common, pop_command in *.
      destruct isLeft; rewrite Hcmd; simpl; by rewrite Hkey, Hrun1. }
    cbn [run_commands]. rewrite Hstep. cbn [mbind option_bind]. by rewrite Hrun.
Qed.

(** Values pushed at one end of an absent key and popped as many times from
    the other end come back in the order pushed; popped from the same end
    they come back in reverse.  The pushes reply with the lengths 1, 2, ...
    and the last pop removes the key. *)
Theorem list_is_queue_and_stack (pushLeft popLeft : bool) (key : string)
    (pushes pops : list (Message * Z)) (values : list bytes) (s : GoFastServer) :
  storage s !! key = None ->
  Forall2 (push_job pushLeft key) pushes values ->
  Forall (pop_job popLeft key) pops ->
  length pops = length values ->
  exists s',
    run_commands (pushes ++ pops) s
    = Some (s', map (fun n => createResponse RESP_OK (itoa (Z.of_nat n)))
                  (seq 1 (length values))
                ++ map (createResponse RESP_OK)
                     (if eqb pushLeft popLeft then rev values else values))
    /\ storage s' !! key = None.
Proof.
  intros Hnone Hpushes Hpops Hlen.
  destruct (run_pushes pushLeft key pushes values s [] Hpushes Hnone)
    as (s1 & Hrun1 & Hl1).
  assert (Hfull : length (pushed pushLeft [] values) = length values).
  { unfold pushed. destruct pushLeft; rewrite ?app_nil_r, ?length_rev; done. }
  destruct (run_pops popLeft key pops s1 (pushed pushLeft [] values) Hpops)
    as (s' & Hrun2 & Hl'); [lia | exact Hl1 |].
  exists s'. split.
  - rewrite (run_commands_app _ _ _ _ _ _ _ Hrun1 Hrun2).
    rewrite Hlen. unfold popped, pushed.
    destruct pushLeft, popLeft; simpl;
      rewrite ?app_nil_r, ?rev_involutive;
      rewrite firstn_all2 by (rewrite ?length_rev; lia); reflexivity.
  - rewrite Hlen in Hl'. unfold unpopped, pushed in Hl'.
    destruct pushLeft, popLeft; simpl in Hl';
      rewrite ?app_nil_r, ?rev_involutive in Hl';
      rewrite skipn_all2 in Hl' by (rewrite ?length_rev; lia); exact Hl'.
Qed.

Lemma list_is_queue_and_stack_witness :
  exists s',
    run_commands [(mkMessage 0 1 CMD_RPUSH (str "q") (str "a") 0, 10);
                  (mkMessage 0 1 CMD_RPUSH (str "q") (str "b") 0, 11);
                  (mkMessage 0 1 CMD_LPOP (str "q") [] 0, 12);
                  (mkMessage 0 1 CMD_LPOP (str "q") [] 0, 13)] NewGoFastServer
    = Some (s', [createResponse RESP_OK (itoa 1); createResponse RESP_OK (itoa 2);
                 createResponse RESP_OK (str "a"); createResponse RESP_OK (str "b")])
    /\ storage s' !! "q" = None.
Proof.
  apply (list_is_queue_and_stack false true "q"
           [(mkMessage 0 1 CMD_RPUSH (str "q") (str "a") 0, 10);
            (mkMessage 0 1 CMD_RPUSH (str "q") (str "b") 0, 11)]
           [(mkMessage 0 1 CMD_LPOP (str "q") [] 0, 12);
            (mkMessage 0 1 CMD_LPOP (str "q") [] 0, 13)]
           [str "a"; str "b"] NewGoFastServer).
  - reflexivity.
  - repeat first [apply List.Forall2_nil | apply List.Forall2_cons]; by repeat split.
  - repeat first [apply List.Forall_nil | apply List.Forall_cons]; by split.
  - reflexivity.
Defined.

(** [Range] with unsigned bounds is the inclusive window [a..b] cut at the
    end of the list. *)
Lemma ListRange_window (l : list bytes) (a b : nat) :
  ListRange l (Z.of_nat a) (Z.of_nat b) = take (S b - a) (drop a l).
Proof.
  unfold ListRange, ListLength.
  rewrite (proj2 (Z.ltb_ge (Z.of_nat a) 0)) by lia.
  destruct (Z.leb_spec (Z.of_nat (length l)) (Z.of_nat b)) as [Hclip|Hin].
  - destruct (Z.ltb_spec (Z.of_nat (length l) - 1) (Z.of_nat a)) as [Hpast|Hstart].
    + rewrite drop_ge by lia. by rewrite take_nil.
    + rewrite Nat2Z.id.
      rewrite !take_ge; rewrite ?length_drop; [done | lia | lia].
  - destruct (Z.ltb_spec (Z.of_nat b) (Z.of_nat a)) as [Hempty|Hstart].
    + replace (S b - a)%nat with 0%nat by lia. reflexivity.
    + rewrite Nat2Z.id. f_equal. lia.
Qed.

(** LRANGE a b on a live list replies with the elements at positions a to b
    inclusive, cut at the end of the list, and LINDEX a with the element at
    position a or NOT_FOUND past the end; neither changes the state. *)
Theorem lrange_and_lindex_read_positions (range idx : Message) (now : Z)
    (s : GoFastServer) (item : CacheItem) (l : list bytes) (a b : nat) :
  Command range = CMD_LRANGE -> Command idx = CMD_LINDEX -> Key idx = Key range ->
  TTL range = Z.of_nat a -> Value range = PutUint32 (Z.of_nat b) ->
  TTL idx = Z.of_nat a -> Z.of_nat b < 2 ^ 32 ->
  live_at s (gostring (Key range)) now item -> ItemVal item = VList l ->
  processCommand range now s
  = Some (s, createResponse RESP_OK (encodeArray (take (S b - a) (drop a l))))
  /\ processCommand idx now s
     = Some (s, match l !! a with
                | Some value => createResponse RESP_OK value
                | None => createResponse RESP_NOT_FOUND []
                end).
Proof.
  destruct range as [l1 v1 c1 key val1 t1], idx as [l2 v2 c2 k2 val2 t2]. simpl.
  intros -> -> -> -> -> -> Hb [Hl He] Hv.
  unfold processCommand, dispatch_common; simpl Command; cbv beta iota zeta.
  cbn [Key Value TTL].
  rewrite <- (app_nil_r (PutUint32 (Z.of_nat b))), Uint32_PutUint32 by lia.
  cbn [mbind option_bind].
  unfold handleListRange, handleListIndex. rewrite Hl, He, Hv, ListRange_window.
  split; [reflexivity|].
  unfold ListIndex, ListLength. rewrite (proj2 (Z.ltb_ge (Z.of_nat a) 0)) by lia.
  rewrite Nat2Z.id. simpl orb.
  destruct (Z.leb_spec (Z.of_nat (length l)) (Z.of_nat a)) as [Hpast|Hin].
  - by rewrite lookup_ge_None_2 by lia.
  - by destruct (l !! a).
Qed.

Lemma lrange_and_lindex_read_positions_witness :
  processCommand (mkMessage 0 1 CMD_LRANGE (str "jobs") (PutUint32 5) 0) 1000 list_demo
  = Some (list_demo, createResponse RESP_OK (encodeArray [str "a"]))
  /\ processCommand (mkMessage 0 1 CMD_LINDEX (str "jobs") [] 0) 1000 list_demo
     = Some (list_demo, createResponse RESP_OK (str "a")).
Proof.
  apply (lrange_and_lindex_read_positions
           (mkMessage 0 1 CMD_LRANGE (str "jobs") (PutUint32 5) 0)
           (mkMessage 0 1 CMD_LINDEX (str "jobs") [] 0) 1000 list_demo
           (mkItem (VList [str "a"]) 2000 900) [str "a"] 0 5);
    try reflexivity; try (simpl; lia).
  by split.
Defined.

(** ** Sets and hashes against their mathematical contents *)






















(** ** MGET and MSET on malformed payloads *)

Lemma mset_loop_pairs now pairs : forall more rest pre successCount s,
  Forall triple_fits pairs ->
  mset_loop (length pairs + more) (pre ++ flat_map mset_triple pairs ++ rest) (len pre)
    successCount now s
  = mset_loop more (pre ++ flat_map mset_triple pairs ++ rest)
      (len pre + len (flat_map mset_triple pairs))
      (successCount + Z.of_nat (length pairs)) now (fold_left (mset_apply now) pairs s).
Proof.
  induction pairs as [|[[k v] ttl] tail IH]; intros more rest pre cnt s Hfit.
  - simpl. rewrite len_nil, !Z.add_0_r. reflexivity.
  - apply Forall_cons in Hfit as [(Hk & Hv & Httl) Htail].
    assert (Hdata : pre ++ flat_map mset_triple ((k, v, ttl) :: tail) ++ rest
                    = pre ++ PutUint32 (len k) ++ k ++ PutUint32 (len v) ++ v
                      ++ PutUint32 ttl ++ flat_map mset_triple tail ++ rest)
      by (cbn [flat_map mset_triple]; unfold field; by rewrite <- !app_assoc).
    assert (Hlen : len (flat_map mset_triple ((k, v, ttl) :: tail))
                   = 4 + len k + 4 + len v + 4 + len (flat_map mset_triple tail)).
    { cbn [flat_map mset_triple]. unfold field.
      rewrite !len_app, !len_PutUint32. lia. }
    rewrite Hlen, Hdata.
    cbn [length Nat.add mset_loop fold_left mset_apply].
    bound_check. read_head.
    bound_check. read_head.
    bound_check. read_head.
    bound_check. read_head.
    bound_check. read_head.
    specialize (IH more rest
                  (pre ++ PutUint32 (len k) ++ k ++ PutUint32 (len v) ++ v ++ PutUint32 ttl)
                  (cnt + 1) (set_string (gostring k) v ttl now s) Htail).
    rewrite <- !app_assoc in IH. rewrite !len_app, !len_PutUint32 in IH.
    match goal with
    | |- mset_loop _ _ ?o _ _ _ = _ =>
        replace o with (len pre + (4 + (len k + (4 + (len v + 4))))) by len_lia
    end.
    rewrite IH. f_equal; lia.
Qed.

(** MSET is not all-or-nothing: when the payload announces more triples
    than it holds, the complete triples are stored and stay stored, and the
    reply is an ERROR. *)
Theorem mset_stores_the_triples_before_an_error (msg : Message)
    (pairs : list (bytes * bytes * Z)) (count now : Z) (s : GoFastServer) :
  Command msg = CMD_MSET ->
  Value msg = PutUint32 count ++ flat_map mset_triple pairs ->
  Forall triple_fits pairs ->
  Z.of_nat (length pairs) < count < 2 ^ 32 ->
  processCommand msg now s
  = Some (fold_left (mset_apply now) pairs s,
          ERROR "Invalid MSET data - insufficient key length").
Proof.
  destruct msg as [l v c key val t]. simpl. intros -> -> Hfit Hcount.
  change (processCommand _ now s)
    with (handleMSet (PutUint32 count ++ flat_map mset_triple pairs) now s).
  unfold handleMSet. bound_check.
  rewrite u32_at_head by lia. cbn [mbind option_bind].
  replace (count =? 0) with false by lia.
  replace (Z.to_nat count) with (length pairs + S (Z.to_nat count - S (length pairs)))%nat
    by lia.
  pose proof (mset_loop_pairs now pairs (S (Z.to_nat count - S (length pairs))) []
                (PutUint32 count) 0 s Hfit) as Hloop.
  rewrite app_nil_r, len_PutUint32 in Hloop. rewrite Hloop.
  cbn [mset_loop]. rewrite len_app, len_PutUint32.
  replace (4 + len (flat_map mset_triple pairs)
           <? 4 + len (flat_map mset_triple pairs) + 4) with true by lia.
  reflexivity.
Qed.

Lemma mset_stores_the_triples_before_an_error_witness :
  processCommand
    (mkMessage 0 1 CMD_MSET [] (PutUint32 2 ++ flat_map mset_triple [(str "a", str "1", 0)]) 0)
    7 NewGoFastServer
  = Some (fold_left (mset_apply 7) [(str "a", str "1", 0)] NewGoFastServer,
          ERROR "Invalid MSET data - insufficient key length").
Proof.
  apply (mset_stores_the_triples_before_an_error
           (mkMessage 0 1 CMD_MSET [] (PutUint32 2 ++ flat_map mset_triple [(str "a", str "1", 0)]) 0)
           [(str "a", str "1", 0)] 2 7 NewGoFastServer).
  - reflexivity.
  - reflexivity.
  - apply List.Forall_cons; [|apply List.Forall_nil].
    unfold triple_fits, fits32. repeat split; reflexivity || discriminate.
  - split; reflexivity.
Defined.

(** Whatever bytes an MGET or MSET payload holds, the handler answers: every
    read is preceded by a bounds test, so none falls outside the payload; a
    malformed MGET leaves the state as it was. *)
Theorem batch_commands_answer_any_payload (msg : Message) (now : Z) (s : GoFastServer) :
  Command msg = CMD_MGET \/ Command msg = CMD_MSET ->
  exists s' response,
    processCommand msg now s = Some (s', response)
    /\ (Command msg = CMD_MGET ->
        (exists data, response = createResponse RESP_ERROR data) -> s' = s).
Proof.
  destruct msg as [l v c key val t]. simpl. intros [-> | ->].
  - change (processCommand _ now s) with (handleMGet val now s).
    unfold handleMGet.
    destruct (Z.ltb_spec (len val) 4) as [Hshort|Hlong]; [by eexists _, _|].
    destruct (u32_at_in_bounds val 0) as (count & -> & Hr); [lia | lia |].
    cbn [mbind option_bind].
    destruct (count =? 0).
    { eexists _, _. split; [reflexivity|]. by intros _. }
    destruct (mget_parse_total (Z.to_nat count) val 4 []) as [[response|keys] ->]; [lia | |];
      cbn [mbind option_bind].
    + eexists _, _. split; [reflexivity|]. by intros _.
    + destruct (mget_fetch keys now s) as [s1 values].
      eexists _, _. split; [reflexivity|]. intros _ [data Hdata].
      exfalso. exact (OK_is_not_ERROR _ _ Hdata).
  - change (processCommand _ now s) with (handleMSet val now s).
    destruct (handleMSet_total val now s) as [[s' response] ->].
    eexists _, _. split; [reflexivity|]. discriminate.
Qed.

Lemma batch_commands_answer_any_payload_witness :
  exists s' response,
    processCommand (mkMessage 0 1 CMD_MGET [] (PutUint32 3) 0) 7 foo_stored
    = Some (s', response)
    /\ (CMD_MGET = CMD_MGET ->
        (exists data, response = createResponse RESP_ERROR data) -> s' = foo_stored).
Proof.
  apply (batch_commands_answer_any_payload
           (mkMessage 0 1 CMD_MGET [] (PutUint32 3) 0) 7 foo_stored).
  by left.
Defined.

(** ** PIPELINE: missing frames, the version byte and KEYS *)

Lemma pipeline_loop_past_end n : forall data offset now s,
  len data <= offset ->
  pipeline_loop n data offset now s
  = Some (s, repeat (ERROR "Incomplete pipeline command") n).
Proof.
  induction n as [|n IH]; intros data offset now s Hend; [reflexivity|].
  cbn [pipeline_loop]. unfold pipeline_slot.
  replace (len data <=? offset) with true by lia.
  cbn [mbind option_bind]. rewrite IH by done. reflexivity.
Qed.

Lemma pipeline_loop_frames_then now frames : forall more pre s s' responses,
  Forall well_framed frames ->
  run_frames frames now s = Some (s', responses) ->
  pipeline_loop (length frames + more) (pre ++ concat frames) (len pre) now s
  = '(s2, rest) ← pipeline_loop more (pre ++ concat frames)
                    (len pre + len (concat frames)) now s';
    Some (s2, responses ++ rest).
Proof.
  induction frames as [|fr rest IH]; intros more pre s s' responses Hwf Hrun.
  - injection Hrun as <- <-. simpl. rewrite len_nil, Z.add_0_r.
    by destruct (pipeline_loop more _ _ _ _) as [[s2 rs]|].
  - apply Forall_cons in Hwf as [Hfr Hrest].
    cbn [run_frames] in Hrun.
    destruct (slot_reply fr now s) as [[s1 response]|] eqn:Hslot; [|done].
    cbn [mbind option_bind] in Hrun.
    destruct (run_frames rest now s1) as [[s2 rs]|] eqn:Hrs; [|done].
    cbn [mbind option_bind] in Hrun. injection Hrun as <- <-.
    cbn [length Nat.add pipeline_loop concat].
    rewrite (slot_in_context pre (concat rest) fr now s s1 response Hfr Hslot).
    cbn [mbind option_bind].
    specialize (IH more (pre ++ fr) s1 s2 rs Hrest Hrs).
    rewrite len_app, <- app_assoc in IH. rewrite IH.
    rewrite len_app, Z.add_assoc.
    destruct (pipeline_loop more _ _ _ _) as [[s3 rs3]|]; reflexivity.
Qed.

(** A PIPELINE that announces more commands than it carries runs the frames
    it has, answers "Incomplete pipeline command" for each missing one, and
    still returns as many responses as announced. *)
Theorem pipeline_reports_missing_frames (msg : Message) (frames : list bytes)
    (count now : Z) (s s' : GoFastServer) (responses : list bytes) :
  Command msg = CMD_PIPELINE ->
  Value msg = PutUint32 count ++ concat frames ->
  Forall well_framed frames ->
  Z.of_nat (length frames) < count < 2 ^ 32 ->
  run_frames frames now s = Some (s', responses) ->
  processCommand msg now s
  = Some (s', createResponse RESP_OK
                (PutUint32 count ++ concat responses
                 ++ concat (repeat (ERROR "Incomplete pipeline command")
                              (Z.to_nat count - length frames)))).
Proof.
  destruct msg as [l v c key val t]. simpl. intros -> -> Hwf Hcount Hrun.
  change (processCommand _ now s)
    with (handlePipeline (PutUint32 count ++ concat frames) now s).
  unfold handlePipeline. bound_check.
  rewrite u32_at_head by lia. cbn [mbind option_bind].
  replace (count =? 0) with false by lia.
  replace (Z.to_nat count) with (length frames + (Z.to_nat count - length frames))%nat
    at 1 by lia.
  rewrite (pipeline_loop_frames_then now frames _ (PutUint32 count) s s' responses Hwf Hrun).
  rewrite pipeline_loop_past_end by (rewrite len_app; lia).
  cbn [mbind option_bind]. unfold encodePipelineResponse.
  destruct (pipeline_loop_frames now frames [] s s' responses Hwf Hrun) as [_ Hlen].
  rewrite length_app, repeat_length, Hlen.
  replace (Z.of_nat (length frames + (Z.to_nat count - length frames))) with count by lia.
  unfold uint32. rewrite Z.mod_small by lia.
  by rewrite concat_app.
Qed.

Lemma pipeline_reports_missing_frames_witness :
  processCommand (mkMessage 0 1 CMD_PIPELINE [] (PutUint32 2 ++ concat [get_ab]) 0)
    7 NewGoFastServer
  = Some (NewGoFastServer,
          createResponse RESP_OK
            (PutUint32 2 ++ concat [createResponse RESP_NOT_FOUND []]
             ++ concat (repeat (ERROR "Incomplete pipeline command")
                          (Z.to_nat 2 - length [get_ab])))).
Proof.
  apply (pipeline_reports_missing_frames
           (mkMessage 0 1 CMD_PIPELINE [] (PutUint32 2 ++ concat [get_ab]) 0)
           [get_ab] 2 7 NewGoFastServer NewGoFastServer [createResponse RESP_NOT_FOUND []]).
  - reflexivity.
  - reflexivity.
  - apply List.Forall_cons; [|apply List.Forall_nil].
    exists 1, CMD_GET, (field (str "ab")). split; reflexivity.
  - split; reflexivity.
  - reflexivity.
Defined.

(** A PIPELINE of well-framed commands answers with the replies of the
    commands run one by one. *)
Lemma pipeline_of_frames frames now s s' responses :
  Forall well_framed frames ->
  Z.of_nat (length frames) < 2 ^ 32 ->
  run_frames frames now s = Some (s', responses) ->
  processCommand (pipeline_message frames) now s
  = Some (s', createResponse RESP_OK
                (PutUint32 (Z.of_nat (length frames)) ++ concat responses)).
Proof.
  intros Hwf Hcount Hrun.
  destruct (pipeline_loop_frames now frames (PutUint32 (Z.of_nat (length frames)))
              s s' responses Hwf Hrun) as [Hloop Hlen].
  change (processCommand (pipeline_message frames) now s)
    with (handlePipeline (pipeline_payload frames) now s).
  unfold handlePipeline, pipeline_payload.
  bound_check.
  rewrite u32_at_head by lia. cbn [mbind option_bind].
  destruct frames as [|fr rest].
  - injection Hrun as <- <-. reflexivity.
  - replace (Z.of_nat (length (fr :: rest)) =? 0) with false
      by (symmetry; apply Z.eqb_neq; simpl; lia).
    rewrite Nat2Z.id. rewrite len_PutUint32 in Hloop. rewrite Hloop.
    cbn [mbind option_bind]. unfold encodePipelineResponse.
    rewrite Hlen. unfold uint32. rewrite Z.mod_small by lia. reflexivity.
Qed.

Lemma matchPattern_empty keys : List.filter (matchPattern "") keys = keys.
Proof. induction keys as [|k keys IH]; [done|]. simpl. by rewrite IH. Qed.

(** The KEYS frame with [pattern], as a client sends it. *)
Definition keys_frame (pattern : bytes) : bytes := frame 1 CMD_KEYS (field pattern).

Lemma slot_reply_keys pattern now s :
  len pattern + 6 < 2 ^ 32 ->
  slot_reply (keys_frame pattern) now s = Some (handleKeys "" now s).
Proof.
  intros Hfit. pose proof (len_nonneg pattern) as Hp.
  unfold slot_reply, keys_frame.
  pose proof (parsePipelineMessage_frame [] [] 1 CMD_KEYS (field pattern)) as Hiso.
  rewrite app_nil_l, app_nil_r in Hiso. change (len []) with 0 in Hiso.
  rewrite Hiso by (unfold field; rewrite len_app, len_PutUint32; lia). clear Hiso.
  change (Z_of_byte (byte_of_Z 1)) with 1. change (Z_of_byte (byte_of_Z CMD_KEYS)) with 67.
  cbv beta iota zeta delta [parse_payload].
  assert (Hlen : len (field pattern) = 4 + len pattern)
    by (unfold field; rewrite len_app, len_PutUint32; lia).
  rewrite Hlen. replace (2 + (4 + len pattern) - 2 <? 4) with false by lia.
  assert (Hread : read_field (frame 1 CMD_KEYS (field pattern)) (0 + 6)
                  = Some (pattern, 0 + 6 + 4 + len pattern)).
  { unfold read_field, frame, field.
    replace (0 + 6) with (len (PutUint32 (2 + len (PutUint32 (len pattern) ++ pattern))
                               ++ [byte_of_Z 1; byte_of_Z 67]) + 0)
      by (rewrite len_app, len_PutUint32; reflexivity).
    rewrite (app_assoc (PutUint32 _) [_; _]).
    rewrite u32_at_skip by lia. rewrite u32_at_head by lia. cbn [mbind option_bind].
    match goal with
    | |- (bytes_at (?a ++ _) ?o _ ≫= _) = _ =>
        replace o with (len a + 4) by lia
    end.
    rewrite bytes_at_skip by lia.
    replace 4 with (len (PutUint32 (len pattern)) + 0) at 1 by (rewrite len_PutUint32; lia).
    rewrite bytes_at_skip by lia.
    rewrite <- (app_nil_r pattern) at 1. rewrite bytes_at_head.
    cbn [mbind option_bind]. do 2 f_equal. }
  rewrite Hread. cbn [mbind option_bind]. reflexivity.
Qed.

(** ** The wire format: what the readers make of a well-formed request *)

(** The requests of the protocol, by the shape of their payload. *)
Inductive Request :=
  | ReqKey (command : Z) (key : bytes)
  | ReqKeyValue (command : Z) (key value : bytes)
  | ReqSet (key value : bytes) (ttl : Z)
  | ReqKeyNumber (command : Z) (key : bytes) (n : Z)
  | ReqRange (key : bytes) (start end_ : Z)
  | ReqHSet (key field_ value : bytes)
  | ReqBatch (command : Z) (payload : bytes)
  | ReqKeys (pattern : bytes)
  | ReqScan (cursor : Z) (pattern : bytes).

Definition key_commands : list Z :=
  [CMD_GET; CMD_DEL; CMD_EXISTS; CMD_TTL; CMD_LLEN; CMD_SMEMBERS; CMD_SCARD; CMD_HGETALL;
   CMD_HLEN; CMD_INCR; CMD_DECR; CMD_LPOP; CMD_RPOP].
Definition key_value_commands : list Z :=
  [CMD_LPUSH; CMD_RPUSH; CMD_SADD; CMD_GETSET; CMD_SREM; CMD_SISMEMBER; CMD_HGET; CMD_HDEL;
   CMD_HEXISTS].
Definition key_number_commands : list Z := [CMD_EXPIRE; CMD_LINDEX].
Definition batch_commands : list Z := [CMD_MGET; CMD_MSET; CMD_PIPELINE].

Definition request_command (r : Request) : Z :=
  match r with
  | ReqKey command _ | ReqKeyValue command _ _ | ReqKeyNumber command _ _
  | ReqBatch command _ => command
  | ReqSet _ _ _ => CMD_SET
  | ReqRange _ _ _ => CMD_LRANGE
  | ReqHSet _ _ _ => CMD_HSET
  | ReqKeys _ => CMD_KEYS
  | ReqScan _ _ => CMD_SCAN
  end.

(** The payload layouts, as the format comments of [readMessage] give them. *)
Definition request_payload (r : Request) : bytes :=
  match r with
  | ReqKey _ key => field key
  | ReqKeyValue _ key value => field key ++ field value
  | ReqSet key value ttl => field key ++ PutUint32 ttl ++ field value
  | ReqKeyNumber _ key n => field key ++ PutUint32 n
  | ReqRange key start end_ => field key ++ PutUint32 start ++ PutUint32 end_
  | ReqHSet key field_ value => field key ++ field field_ ++ field value
  | ReqBatch _ payload => payload
  | ReqKeys pattern => field pattern
  | ReqScan cursor pattern => PutUint32 cursor ++ field pattern
  end.

Definition request_wire (r : Request) : bytes :=
  frame PROTOCOL_VERSION (request_command r) (request_payload r).

(** The message the request stands for. *)
Definition request_message (r : Request) : Message :=
  let message := mkMessage (2 + len (request_payload r)) PROTOCOL_VERSION
                   (request_command r) in
  match r with
  | ReqKey _ key => message key [] 0
  | ReqKeyValue _ key value => message key value 0
  | ReqSet key value ttl => message key value ttl
  | ReqKeyNumber _ key n => message key [] n
  | ReqRange key start end_ => message key (PutUint32 end_) start
  | ReqHSet key field_ value => message key (hset_data field_ value) 0
  | ReqBatch _ payload => message [] payload 0
  | ReqKeys pattern => message [] pattern 0
  | ReqScan cursor pattern => message [] pattern cursor
  end.

Definition u32 (n : Z) : Prop := 0 <= n < 2 ^ 32.

(** The command fits the shape, the numbers are [uint32] and the frame
    length fits its length field. *)
Definition request_ok (r : Request) : Prop :=
  2 + len (request_payload r) < 2 ^ 32
  /\ match r with
     | ReqKey command _ => In command key_commands
     | ReqKeyValue command _ _ => In command key_value_commands
     | ReqSet _ _ ttl => u32 ttl
     | ReqKeyNumber command _ n => In command key_number_commands /\ u32 n
     | ReqRange _ start end_ => u32 start /\ u32 end_
     | ReqHSet _ _ _ => True
     | ReqBatch command payload => In command batch_commands /\ 4 <= len payload
     | ReqKeys _ => True
     | ReqScan cursor _ => u32 cursor
     end.

Lemma ReadFull_app x rest : ReadFull (len x) (x ++ rest) = Some (x, rest).
Proof.
  unfold ReadFull. pose proof (len_nonneg x). rewrite len_app.
  pose proof (len_nonneg rest).
  replace ((0 <=? len x) && (len x <=? len x + len rest)) with true
    by (symmetry; apply andb_true_intro; split; lia).
  unfold len. rewrite Nat2Z.id, take_app_length, drop_app_length. reflexivity.
Qed.

Lemma read_u32_PutUint32 v rest : u32 v -> read_u32 (PutUint32 v ++ rest) = Some (v, rest).
Proof.
  intros Hv. unfold read_u32.
  rewrite <- (len_PutUint32 v) at 1. rewrite ReadFull_app. cbn [mbind option_bind].
  rewrite <- (app_nil_r (PutUint32 v)), Uint32_PutUint32 by exact Hv. reflexivity.
Qed.

Lemma len_field x : len (field x) = 4 + len x.
Proof. unfold field. by rewrite len_app, len_PutUint32. Qed.

Lemma read_prefixed_field x rest :
  fits32 x -> read_prefixed (field x ++ rest) = Some (x, rest).
Proof.
  intros Hx. pose proof (len_nonneg x). unfold read_prefixed, field.
  rewrite <- app_assoc, read_u32_PutUint32 by (unfold u32, fits32 in *; lia).
  cbn [mbind option_bind]. apply ReadFull_app.
Qed.

Ltac all_len_nonneg :=
  repeat match goal with
         | x : list byte |- _ =>
             lazymatch goal with
             | _ : 0 <= len x |- _ => fail
             | _ => pose proof (len_nonneg x)
             end
         end.

Ltac wire_fits :=
  unfold fits32, u32 in *; rewrite ?len_app, ?len_field, ?len_PutUint32 in *; lia.

Lemma read_u32_field x rest :
  fits32 x -> read_u32 (field x ++ rest) = Some (len x, x ++ rest).
Proof.
  intros Hx. pose proof (len_nonneg x). unfold field.
  rewrite <- app_assoc. apply read_u32_PutUint32. unfold u32, fits32 in *. lia.
Qed.

Ltac wire_read :=
  repeat first
    [ rewrite read_prefixed_field by wire_fits
    | rewrite read_u32_PutUint32 by wire_fits
    | rewrite read_u32_field by wire_fits
    | rewrite ReadFull_app
    | progress cbn [mbind option_bind Z.eqb Pos.eqb andb orb] ].

Ltac wire_guard :=
  repeat match goal with
         | |- context [?a <? ?b] =>
             first [ replace (a <? b) with false by (symmetry; apply Z.ltb_ge; wire_fits)
                   | replace (a <? b) with true by (symmetry; apply Z.ltb_lt; wire_fits) ]
         end.

Lemma readMessage_request (r : Request) (rest : bytes) :
  request_ok r ->
  readMessage (request_wire r ++ rest) = ReadMessage (request_message r) rest.
Proof.
  intros [Hlen Hshape]. unfold readMessage, request_wire, frame, request_message.
  pose proof (len_nonneg (request_payload r)) as Hpay.
  rewrite <- !app_assoc. rewrite read_u32_PutUint32 by (unfold u32; lia).
  cbn [app read_byte]. change (Z_of_byte (byte_of_Z PROTOCOL_VERSION)) with 1.
  cbn [Z.eqb Pos.eqb negb].
  destruct r; cbn [request_command request_payload] in *; all_len_nonneg;
    unfold key_commands, key_value_commands, key_number_commands, batch_commands in Hshape;
    repeat match type of Hshape with
           | _ /\ _ => destruct Hshape as [Hshape ?]
           end;
    repeat match type of Hshape with
           | In _ _ => destruct Hshape as [<- | Hshape]
           end;
    try contradiction;
    match goal with
    | |- context [Z_of_byte (byte_of_Z ?c)] =>
        let v := eval vm_compute in (Z_of_byte (byte_of_Z c)) in
        change (Z_of_byte (byte_of_Z c)) with v
    end;
    cbv beta iota zeta delta [read_payload]; rewrite <- ?app_assoc;
    repeat (progress (wire_guard; wire_read));
    try reflexivity.
  - rewrite <- (len_PutUint32 end_) at 1. by rewrite ReadFull_app.
  - unfold uint32. rewrite Z.mod_small by wire_fits.
    replace (len field_ + 4 + len value - (4 + len field_)) with (len value) by lia.
    rewrite ReadFull_app. cbn [mbind option_bind]. do 2 f_equal.
    unfold hset_data. rewrite (app_assoc (PutUint32 _)). f_equal.
    apply take_ge. rewrite length_app.
    pose proof (len_PutUint32 (len field_)) as H4. unfold len in *. lia.
  - replace (2 + len payload - 2) with (len payload) by lia. by rewrite ReadFull_app.
  - replace (2 + len payload - 2) with (len payload) by lia. by rewrite ReadFull_app.
  - replace (2 + len payload - 2) with (len payload) by lia. by rewrite ReadFull_app.
Qed.

(** [readMessage] takes a well-formed request off the connection, hands
    back the message it stands for and leaves the bytes behind it
    untouched.  The same frame under another version byte is refused after
    the six header bytes, with its payload left on the connection. *)
Theorem readMessage_reads_back_a_request (r : Request) (rest : bytes) :
  request_ok r ->
  readMessage (request_wire r ++ rest) = ReadMessage (request_message r) rest
  /\ forall version,
       0 <= version < 256 -> version <> PROTOCOL_VERSION ->
       readMessage (frame version (request_command r) (request_payload r) ++ rest)
       = ReadError ("unsupported protocol version: " +:+ itoa_string version
                    +:+ " (expected 1)") (request_payload r ++ rest).
Proof.
  intros Hok. split; [by apply readMessage_request|].
  intros version Hversion Hother. destruct Hok as [Hlen _].
  pose proof (len_nonneg (request_payload r)) as Hpay.
  unfold readMessage, frame. rewrite <- !app_assoc.
  rewrite read_u32_PutUint32 by (unfold u32; lia).
  cbn [app read_byte]. rewrite Z_of_byte_of_Z, Z.mod_small by lia.
  by replace (version =? 1) with false by lia.
Qed.

Lemma readMessage_reads_back_a_request_witness :
  readMessage (request_wire (ReqSet (str "foo") (str "bar") 0) ++ get_foo)
  = ReadMessage (request_message (ReqSet (str "foo") (str "bar") 0)) get_foo.
Proof.
  apply (readMessage_reads_back_a_request (ReqSet (str "foo") (str "bar") 0) get_foo).
  split; [reflexivity|]. unfold u32. lia.
Defined.

(** Reads at a known position of a buffer given as [pre ++ x ++ post]. *)
Lemma u32_at_split pre v post o :
  o = len pre -> u32 v -> u32_at (pre ++ PutUint32 v ++ post) o = Some v.
Proof. intros -> Hv. by apply u32_at_PutUint32. Qed.

Lemma bytes_at_split pre x post o n :
  o = len pre -> n = len x -> bytes_at (pre ++ x ++ post) o n = Some x.
Proof. intros -> ->. apply bytes_at_whole. Qed.

Lemma slice_split pre x post lo hi :
  lo = len pre -> hi = len pre + len x -> slice (pre ++ x ++ post) lo hi = Some x.
Proof. intros -> ->. apply slice_whole. Qed.

Lemma u32_at_field_split pre x post o :
  o = len pre -> fits32 x -> u32_at (pre ++ field x ++ post) o = Some (len x).
Proof.
  intros -> Hx. pose proof (len_nonneg x). unfold field. rewrite <- app_assoc.
  apply u32_at_PutUint32. unfold fits32 in Hx. lia.
Qed.

Lemma bytes_at_field_split pre x post o n :
  o = len pre + 4 -> n = len x -> bytes_at (pre ++ field x ++ post) o n = Some x.
Proof.
  intros -> ->. unfold field. rewrite <- app_assoc, (app_assoc pre).
  rewrite <- (len_PutUint32 (len x)), <- len_app. apply bytes_at_whole.
Qed.

Lemma read_field_split pre x post o :
  o = len pre -> fits32 x ->
  read_field (pre ++ field x ++ post) o = Some (x, o + 4 + len x).
Proof.
  intros Ho Hx. unfold read_field.
  rewrite (u32_at_field_split pre x post o Ho Hx). cbn [mbind option_bind].
  rewrite (bytes_at_field_split pre x post (o + 4) (len x)) by (subst; lia).
  reflexivity.
Qed.

(** The message [parsePipelineMessage] builds for a request: the one of
    [readMessage], with the version byte of the frame, except that the
    pattern of KEYS is stored as the key. *)
Definition pipelined_message (version : Z) (r : Request) : Message :=
  let m := request_message r in
  match r with
  | ReqKeys pattern => mkMessage (Length m) version CMD_KEYS pattern [] 0
  | _ => mkMessage (Length m) version (Command m) (Key m) (Value m) (TTL m)
  end.

Definition batch_request (r : Request) : bool :=
  match r with
  | ReqBatch _ _ => true
  | _ => false
  end.

Ltac split_fits :=
  unfold fits32, u32 in *; rewrite ?len_app, ?len_field, ?len_PutUint32 in *; lia.

(** One read of the payload parser at the current position [p ++ x ++ q];
    the bytes read then join the prefix. *)
Ltac split_read :=
  match goal with
  | |- context [read_field (?p ++ field ?x ++ ?q) ?o] =>
      rewrite (read_field_split p x q o) by split_fits;
      rewrite ?(app_assoc p (field x) q)
  | |- context [u32_at (?p ++ PutUint32 ?v ++ ?q) ?o] =>
      rewrite (u32_at_split p v q o) by split_fits;
      rewrite ?(app_assoc p (PutUint32 v) q)
  | |- context [u32_at (?p ++ field ?x ++ ?q) ?o] =>
      rewrite (u32_at_field_split p x q o) by split_fits
  | |- context [bytes_at (?p ++ field ?x ++ ?q) ?o ?n] =>
      rewrite (bytes_at_field_split p x q o n) by split_fits;
      rewrite ?(app_assoc p (field x) q)
  | |- context [slice (?p ++ PutUint32 ?v ++ ?q) ?lo ?hi] =>
      rewrite (slice_split p (PutUint32 v) q lo hi) by split_fits;
      rewrite ?(app_assoc p (PutUint32 v) q)
  end; cbn [mbind option_bind Z.eqb Pos.eqb andb orb].

Lemma len_make n : 0 <= n -> len (make n) = n.
Proof. intros Hn. unfold len, make. rewrite repeat_length. lia. Qed.

Lemma make_add n m : 0 <= n -> 0 <= m -> make (n + m) = make n ++ make m.
Proof. intros Hn Hm. unfold make. by rewrite Z2Nat.inj_add, repeat_app by lia. Qed.

(** [copy] into the middle of a buffer overwrites exactly the bytes it
    covers. *)
Lemma copy_at_fill a y b x at_ :
  at_ = len a -> len y = len x -> copy_at (a ++ y ++ b) at_ x = Some (a ++ x ++ b).
Proof.
  intros -> Hxy. unfold copy_at. rewrite !len_app.
  pose proof (len_nonneg a). pose proof (len_nonneg y). pose proof (len_nonneg b).
  replace ((0 <=? len a) && (len a <=? len a + (len y + len b))) with true
    by (symmetry; apply andb_true_intro; split; lia).
  unfold len in *. rewrite Nat2Z.id, take_app_length.
  rewrite (take_ge x) by lia.
  replace (length a + length x)%nat with (length a + length y)%nat by lia.
  rewrite drop_app_add', drop_app_length by done. reflexivity.
Qed.

Lemma parsePipelineMessage_request (r : Request) (version : Z) (pre post : bytes) :
  request_ok r -> batch_request r = false -> 0 <= version < 256 ->
  parsePipelineMessage
    (pre ++ frame version (request_command r) (request_payload r) ++ post) (len pre)
  = Some (Parsed (pipelined_message version r)
            (len pre + 6 + len (request_payload r))).
Proof.
  intros [Hlen Hshape] Hbatch Hversion.
  rewrite parsePipelineMessage_frame by exact Hlen.
  rewrite Z_of_byte_of_Z, (Z.mod_small version) by lia.
  unfold frame. rewrite <- !app_assoc.
  rewrite (app_assoc pre (PutUint32 _)), (app_assoc (pre ++ PutUint32 _) [_; _]).
  match goal with
  | |- context [parse_payload (?p ++ _)] =>
      assert (Hpre : len p = len pre + 6)
        by (rewrite !len_app, len_PutUint32; unfold len; simpl; lia);
      revert Hpre; generalize p; intros pre0 Hpre
  end.
  unfold pipelined_message, request_message.
  destruct r; try discriminate Hbatch;
    cbn [request_command request_payload Length Command Key Value TTL] in *;
    all_len_nonneg;
    unfold key_commands, key_value_commands, key_number_commands in Hshape;
    repeat match type of Hshape with
           | _ /\ _ => destruct Hshape as [Hshape ?]
           end;
    repeat match type of Hshape with
           | In _ _ => destruct Hshape as [<- | Hshape]
           end;
    try contradiction;
    match goal with
    | |- context [Z_of_byte (byte_of_Z ?c)] =>
        let v := eval vm_compute in (Z_of_byte (byte_of_Z c)) in
        change (Z_of_byte (byte_of_Z c)) with v
    end;
    cbv beta iota zeta delta [parse_payload]; rewrite <- ?app_assoc;
    repeat (progress (wire_guard; repeat split_read));
    try (do 3 f_equal; lia).
  unfold uint32. rewrite !Z.mod_small by split_fits.
  assert (Hmake : make (4 + len field_ + len value)
                  = make 4 ++ make (len field_) ++ make (len value))
    by (rewrite !make_add by lia; by rewrite <- app_assoc).
  rewrite Hmake, (len_app (make 4)), (len_make 4) by lia.
  pose proof (len_nonneg (make (len field_) ++ make (len value))) as Hroom.
  replace (4 + len (make (len field_) ++ make (len value)) <? 4) with false
    by (symmetry; apply Z.ltb_ge; lia).
  pose proof (copy_at_fill [] (make 4) (make (len field_) ++ make (len value))
                (PutUint32 (len field_)) 0 eq_refl eq_refl) as Hcopy.
  rewrite !app_nil_l in Hcopy. rewrite Hcopy.
  cbn [mbind option_bind].
  rewrite (copy_at_fill (PutUint32 (len field_)) (make (len field_)) _ field_ 4)
    by (rewrite ?len_make, ?len_PutUint32; done || lia).
  cbn [mbind option_bind].
  match goal with
  | |- context [slice (?p ++ field ?x ++ ?q) ?lo ?hi] =>
      change (slice (p ++ field x ++ q) lo hi) with (bytes_at (p ++ field x ++ q) lo (len x));
      rewrite (bytes_at_field_split p x q lo (len x)) by split_fits
  end.
  cbn [mbind option_bind].
  rewrite (app_assoc (PutUint32 (len field_)) field_).
  rewrite <- (app_nil_r (make (len value))).
  rewrite (copy_at_fill (PutUint32 (len field_) ++ field_) (make (len value)) [] value)
    by (rewrite ?len_app, ?len_make, ?len_PutUint32; done || lia).
  cbn [mbind option_bind]. unfold hset_data.
  rewrite app_nil_r, <- app_assoc. do 3 f_equal. lia.
Qed.

(** [parsePipelineMessage] finds a well-formed request embedded in a buffer,
    builds its message, whatever the version byte of the frame, and returns
    the offset just behind the frame; for MGET, MSET and PIPELINE it returns
    that offset with the error "unsupported command in pipeline". *)
Theorem parsePipelineMessage_reads_back_a_request (r : Request) (version : Z)
    (pre post : bytes) :
  request_ok r -> 0 <= version < 256 ->
  parsePipelineMessage
    (pre ++ frame version (request_command r) (request_payload r) ++ post) (len pre)
  = Some (if batch_request r
          then ParseError (len pre + 6 + len (request_payload r))
                 ("unsupported command in pipeline: " +:+ itoa_string (request_command r))
          else Parsed (pipelined_message version r)
                 (len pre + 6 + len (request_payload r))).
Proof.
  intros Hok Hversion. destruct (batch_request r) eqn:Hbatch.
  - destruct r; try discriminate Hbatch. destruct Hok as [Hlen [Hin _]].
    cbn [request_command request_payload] in *.
    rewrite parsePipelineMessage_frame by exact Hlen.
    unfold batch_commands in Hin.
    destruct Hin as [<- | [<- | [<- | []]]];
      cbv beta iota zeta delta [parse_payload];
      match goal with
      | |- context [Z_of_byte (byte_of_Z ?c)] =>
          let v := eval vm_compute in (Z_of_byte (byte_of_Z c)) in
          change (Z_of_byte (byte_of_Z c)) with v
      end; cbv beta iota; do 3 f_equal; lia.
  - by apply parsePipelineMessage_request.
Qed.

Lemma parsePipelineMessage_reads_back_a_request_witness :
  parsePipelineMessage
    ([] ++ frame 1 (request_command (ReqHSet (str "user") (str "name") (str "ann")))
             (request_payload (ReqHSet (str "user") (str "name") (str "ann"))) ++ get_foo)
    (len [])
  = Some (if batch_request (ReqHSet (str "user") (str "name") (str "ann"))
          then ParseError
                 (len [] + 6 + len (request_payload (ReqHSet (str "user") (str "name") (str "ann"))))
                 ("unsupported command in pipeline: "
                  +:+ itoa_string (request_command (ReqHSet (str "user") (str "name") (str "ann"))))
          else Parsed (pipelined_message 1 (ReqHSet (str "user") (str "name") (str "ann")))
                 (len [] + 6
                  + len (request_payload (ReqHSet (str "user") (str "name") (str "ann"))))).
Proof.
  apply (parsePipelineMessage_reads_back_a_request
           (ReqHSet (str "user") (str "name") (str "ann")) 1 [] get_foo).
  - by split.
  - lia.
Defined.

(** Inside a PIPELINE the pattern of KEYS lands in the key field, which the
    handler does not read: the command lists every live key, whereas the same
    frame sent on its own is read with the pattern as its value and lists the
    keys matching it. *)
Theorem pipelined_keys_ignores_its_pattern (pattern : bytes) (now : Z) (s : GoFastServer) :
  len pattern + 6 < 2 ^ 32 ->
  processCommand (pipeline_message [keys_frame pattern]) now s
  = Some ((range_live now s).1,
          createResponse RESP_OK
            (PutUint32 1
             ++ createResponse RESP_OK (encodeStringArray (range_live now s).2)))
  /\ readMessage (keys_frame pattern) = ReadMessage (request_message (ReqKeys pattern)) []
  /\ processCommand (request_message (ReqKeys pattern)) now s
     = Some ((range_live now s).1,
             createResponse RESP_OK
               (encodeStringArray
                  (List.filter (matchPattern (gostring pattern)) (range_live now s).2))).
Proof.
  intros Hfit. pose proof (len_nonneg pattern) as Hp. split; [|split].
  - rewrite (pipeline_of_frames [keys_frame pattern] now s (range_live now s).1
               [createResponse RESP_OK (encodeStringArray (range_live now s).2)]).
    + simpl concat. by rewrite app_nil_r.
    + apply List.Forall_cons; [|apply List.Forall_nil].
      exists 1, CMD_KEYS, (field pattern). split; [reflexivity|].
      rewrite len_field. lia.
    + simpl. lia.
    + cbn [run_frames]. rewrite slot_reply_keys by done. cbn [mbind option_bind].
      unfold handleKeys. destruct (range_live now s) as [s1 keys]. simpl.
      by rewrite matchPattern_empty.
  - rewrite <- (app_nil_r (keys_frame pattern)).
    apply (readMessage_request (ReqKeys pattern) []).
    split; [|done]. cbn [request_payload]. rewrite len_field. lia.
  - unfold processCommand, dispatch_common. simpl. unfold handleKeys.
    by destruct (range_live now s) as [s1 keys].
Qed.

Lemma pipelined_keys_ignores_its_pattern_witness :
  processCommand (pipeline_message [keys_frame (str "user:*")]) 7 foo_stored
  = Some ((range_live 7 foo_stored).1,
          createResponse RESP_OK
            (PutUint32 1
             ++ createResponse RESP_OK (encodeStringArray (range_live 7 foo_stored).2))).
Proof.
  apply (pipelined_keys_ignores_its_pattern (str "user:*") 7 foo_stored).
  reflexivity.
Defined.

(** ** Pipelined and plain execution *)

(** The requests that a PIPELINE runs as the connection would: all but the
    batch commands, which it refuses, and KEYS, whose pattern it drops. *)
Definition plain_request (r : Request) : bool :=
  match r with
  | ReqBatch _ _ | ReqKeys _ => false
  | _ => true
  end.

Lemma request_wire_well_framed r : request_ok r -> well_framed (request_wire r).
Proof. intros [Hlen _]. by exists PROTOCOL_VERSION, (request_command r), (request_payload r). Qed.

Lemma processIndividualCommand_plain r now s :
  request_ok r -> plain_request r = true ->
  processIndividualCommand (pipelined_message PROTOCOL_VERSION r) now s
  = processCommand (request_message r) now s.
Proof.
  intros [_ Hshape] Hplain.
  destruct r; try discriminate Hplain; cbn [pipelined_message];
    unfold key_commands, key_value_commands, key_number_commands in Hshape;
    repeat match type of Hshape with
           | _ /\ _ => destruct Hshape as [Hshape ?]
           end;
    repeat match type of Hshape with
           | In _ _ => destruct Hshape as [<- | Hshape]
           end;
    try contradiction; reflexivity.
Qed.

Lemma slot_reply_request r now s :
  request_ok r -> plain_request r = true ->
  slot_reply (request_wire r) now s = processCommand (request_message r) now s.
Proof.
  intros Hok Hplain. unfold slot_reply, request_wire.
  pose proof (parsePipelineMessage_request r PROTOCOL_VERSION [] []) as Hparse.
  rewrite app_nil_l, app_nil_r in Hparse. change (len []) with 0 in Hparse.
  rewrite Hparse; [|done|by destruct r|done].
  cbn [mbind option_bind]. by apply processIndividualCommand_plain.
Qed.

Lemma run_frames_requests now requests : forall s,
  Forall request_ok requests -> Forall (fun r => plain_request r = true) requests ->
  run_frames (map request_wire requests) now s
  = run_commands (map (fun r => (request_message r, now)) requests) s.
Proof.
  induction requests as [|r requests IH]; intros s Hok Hplain; [done|].
  apply Forall_cons in Hok as [Hr Hok]. apply Forall_cons in Hplain as [Hp Hplain].
  cbn [map run_frames run_commands]. rewrite slot_reply_request by done.
  destruct (processCommand (request_message r) now s) as [[s1 response]|]; [|done].
  cbn [mbind option_bind]. by rewrite IH.
Qed.

(** A PIPELINE of plain requests changes the state and answers exactly as
    the same requests sent one by one at the same clock reading: the inner
    responses are those replies, in order, behind their count. *)
Theorem pipeline_runs_requests_one_by_one (requests : list Request) (now : Z)
    (s s' : GoFastServer) (responses : list bytes) :
  Forall request_ok requests ->
  Forall (fun r => plain_request r = true) requests ->
  Z.of_nat (length requests) < 2 ^ 32 ->
  run_commands (map (fun r => (request_message r, now)) requests) s = Some (s', responses) ->
  processCommand (pipeline_message (map request_wire requests)) now s
  = Some (s', createResponse RESP_OK
                (PutUint32 (Z.of_nat (length requests)) ++ concat responses)).
Proof.
  intros Hok Hplain Hcount Hrun.
  rewrite <- (length_map request_wire requests).
  apply pipeline_of_frames.
  - apply Forall_map. eapply Forall_impl; [exact Hok|]. apply request_wire_well_framed.
  - by rewrite length_map.
  - by rewrite run_frames_requests.
Qed.

Lemma pipeline_runs_requests_one_by_one_witness :
  processCommand
    (pipeline_message (map request_wire [ReqSet (str "foo") (str "bar") 0;
                                          ReqKey CMD_GET (str "foo")])) 0 NewGoFastServer
  = Some (foo_stored,
          createResponse RESP_OK
            (PutUint32 (Z.of_nat (length [ReqSet (str "foo") (str "bar") 0;
                                          ReqKey CMD_GET (str "foo")]))
             ++ concat [createResponse RESP_OK [];
                        createResponse RESP_OK (str "bar")])).
Proof.
  apply (pipeline_runs_requests_one_by_one
           [ReqSet (str "foo") (str "bar") 0; ReqKey CMD_GET (str "foo")] 0
           NewGoFastServer foo_stored
           [createResponse RESP_OK []; createResponse RESP_OK (str "bar")]).
  - repeat first [apply List.Forall_nil | apply List.Forall_cons];
      (split; [reflexivity|]); [unfold u32; lia | by left].
  - repeat first [apply List.Forall_nil | apply List.Forall_cons]; reflexivity.
  - reflexivity.
  - reflexivity.
Defined.

(** ** The connection loop (handleConnection)

    [reader] holds the bytes the client sends before it closes the
    connection, [clock n] is the reading of the clock for the [n]-th command;
    the result is the state left behind and the bytes written, the writes
    taken to succeed.  The loop ends at the first read error or end of
    input.  [None]: a payload read met the end of the input, or the fuel ran
    out. *)
Fixpoint handleConnection (fuel : nat) (clock : nat -> Z) (n : nat) (reader : bytes)
    (s : GoFastServer) : option (GoFastServer * bytes) :=
  match fuel with
  | O => None
  | S fuel' =>
      match readMessage reader with
      | ReadMessage msg rest =>
          '(s1, response) ← processCommand msg (clock n) s;
          '(s2, written) ← handleConnection fuel' clock (S n) rest s1;
          Some (s2, response ++ written)
      | ReadError _ _ | ReadEOF => Some (s, [])
      | ReadTruncated => None
      end
  end.

(** The commands of a connection with their clock readings, from the
    [n]-th on. *)
Fixpoint connection_jobs (clock : nat -> Z) (n : nat) (requests : list Request)
    : list (Message * Z) :=
  match requests with
  | [] => []
  | r :: rest => (request_message r, clock n) :: connection_jobs clock (S n) rest
  end.

Definition stops_reading (tail : bytes) : Prop :=
  readMessage tail = ReadEOF \/ exists err rest, readMessage tail = ReadError err rest.

Lemma handleConnection_step fuel clock n reader s :
  handleConnection (S fuel) clock n reader s
  = match readMessage reader with
    | ReadMessage msg rest =>
        '(s1, response) ← processCommand msg (clock n) s;
        '(s2, written) ← handleConnection fuel clock (S n) rest s1;
        Some (s2, response ++ written)
    | ReadError _ _ | ReadEOF => Some (s, [])
    | ReadTruncated => None
    end.
Proof. reflexivity. Qed.

Lemma handleConnection_requests clock tail requests : forall n s s' responses,
  Forall request_ok requests -> stops_reading tail ->
  run_commands (connection_jobs clock n requests) s = Some (s', responses) ->
  handleConnection (S (length requests)) clock n
    (concat (map request_wire requests) ++ tail) s
  = Some (s', concat responses).
Proof.
  induction requests as [|r requests IH]; intros n s s' responses Hok Htail Hrun.
  - injection Hrun as <- <-. cbn [map concat app length].
    rewrite handleConnection_step.
    by destruct Htail as [-> | (err & rest & ->)].
  - apply Forall_cons in Hok as [Hr Hok].
    cbn [connection_jobs run_commands] in Hrun.
    destruct (processCommand (request_message r) (clock n) s) as [[s1 response]|] eqn:Hstep;
      [|done].
    cbn [mbind option_bind] in Hrun.
    destruct (run_commands (connection_jobs clock (S n) requests) s1)
      as [[s2 rs]|] eqn:Hrest; [|done].
    cbn [mbind option_bind] in Hrun. injection Hrun as <- <-.
    cbn [map concat length]. rewrite <- app_assoc.
    rewrite handleConnection_step, readMessage_request by done.
    rewrite Hstep. cbn [mbind option_bind].
    rewrite (IH (S n) s1 s2 rs Hok Htail Hrest). reflexivity.
Qed.

(** A connection that sends well-formed requests and then closes gets the
    replies of the commands, run in the order sent, written back to back;
    when instead a frame with another version byte follows the requests, the
    loop ends there and nothing behind that frame is answered. *)
Theorem connection_answers_requests_in_order (clock : nat -> Z)
    (requests : list Request) (s s' : GoFastServer) (responses : list bytes) :
  Forall request_ok requests ->
  run_commands (connection_jobs clock 0 requests) s = Some (s', responses) ->
  handleConnection (S (length requests)) clock 0 (concat (map request_wire requests)) s
  = Some (s', concat responses)
  /\ forall version command payload behind,
       0 <= version < 256 -> version <> PROTOCOL_VERSION -> 2 + len payload < 2 ^ 32 ->
       handleConnection (S (length requests)) clock 0
         (concat (map request_wire requests) ++ frame version command payload ++ behind) s
       = Some (s', concat responses).
Proof.
  intros Hok Hrun. split.
  - rewrite <- (app_nil_r (concat _)).
    apply handleConnection_requests; [done | by left | done].
  - intros version command payload behind Hversion Hother Hlen.
    apply handleConnection_requests; [done | | done].
    right. pose proof (len_nonneg payload) as Hpay.
    unfold readMessage, frame. rewrite <- !app_assoc.
    rewrite read_u32_PutUint32 by (unfold u32; lia).
    cbn [app read_byte]. rewrite Z_of_byte_of_Z, Z.mod_small by lia.
    replace (version =? 1) with false by lia. cbn [negb]. by eexists _, _.
Qed.

Lemma connection_answers_requests_in_order_witness :
  handleConnection 3 (fun n => Z.of_nat n) 0
    (concat (map request_wire [ReqSet (str "foo") (str "bar") 0;
                               ReqKey CMD_GET (str "foo")])) NewGoFastServer
  = Some (foo_stored,
          concat [createResponse RESP_OK []; createResponse RESP_OK (str "bar")]).
Proof.
  refine (proj1 (connection_answers_requests_in_order (fun n => Z.of_nat n)
                   [ReqSet (str "foo") (str "bar") 0; ReqKey CMD_GET (str "foo")]
                   NewGoFastServer foo_stored
                   [createResponse RESP_OK []; createResponse RESP_OK (str "bar")] _ _)).
  - repeat first [apply List.Forall_nil | apply List.Forall_cons];
      (split; [reflexivity|]); [unfold u32; lia | by left].
  - vm_compute. reflexivity.
Defined.

(** ** The sweeper (cleanupExpiredKeys) *)

(** The TTL index holds a deadline for [key] that has passed. *)
Definition due (now : Z) (s : GoFastServer) (key : string) : bool :=
  match ttlIndex s !! key with
  | Some expiresAt => expiresAt <=? now
  | None => false
  end.

Lemma evict_all_lookup keys : forall s key,
  storage (fold_left (fun s0 k => evict k s0) keys s) !! key
  = (if bool_decide (key ∈ keys) then None else storage s !! key)
  /\ ttlIndex (fold_left (fun s0 k => evict k s0) keys s) !! key
     = (if bool_decide (key ∈ keys) then None else ttlIndex s !! key).
Proof.
  induction keys as [|k keys IH]; intros s key.
  - rewrite bool_decide_eq_false_2 by apply not_elem_of_nil. done.
  - cbn [fold_left]. destruct (IH (evict k s) key) as [-> ->].
    destruct (decide (key ∈ keys)) as [Hin|Hout].
    + rewrite !bool_decide_eq_true_2; [done | by right | done].
    + rewrite (bool_decide_eq_false_2 (key ∈ keys)) by done.
      destruct (decide (key = k)) as [->|Hne].
      * rewrite bool_decide_eq_true_2 by left. simpl.
        by rewrite !lookup_delete_eq.
      * rewrite bool_decide_eq_false_2
          by (intros [?|?]%elem_of_cons; contradiction).
        simpl. by rewrite !lookup_delete_ne.
Qed.

Lemma due_keys now s key :
  key ∈ map fst (List.filter (fun '(_, expiresAt) => expiresAt <=? now)
                   (map_to_list (ttlIndex s)))
  <-> due now s key = true.
Proof.
  unfold due. rewrite list_elem_of_In, in_map_iff. split.
  - intros ([k d] & <- & [Hin Hd]%filter_In). simpl.
    apply list_elem_of_In, elem_of_map_to_list in Hin. by rewrite Hin.
  - destruct (ttlIndex s !! key) as [d|] eqn:Hl; [|done]. intros Hd.
    exists (key, d). split; [done|]. apply filter_In. split; [|done].
    by apply list_elem_of_In, elem_of_map_to_list.
Qed.

(** One round of the sweeper removes, from the keyspace and from the TTL
    index, exactly the keys whose index entry is due, and leaves every other
    key and entry as it was.  It goes by the index entry alone, not by the
    deadline the item itself carries. *)
Theorem sweeper_removes_exactly_the_due_keys (now : Z) (s : GoFastServer) (key : string) :
  storage (cleanupExpiredKeys_round now s) !! key
  = (if due now s key then None else storage s !! key)
  /\ ttlIndex (cleanupExpiredKeys_round now s) !! key
     = (if due now s key then None else ttlIndex s !! key).
Proof.
  unfold cleanupExpiredKeys_round.
  destruct (evict_all_lookup
              (map fst (List.filter (fun '(_, expiresAt) => expiresAt <=? now)
                          (map_to_list (ttlIndex s)))) s key) as [-> ->].
  destruct (due now s key) eqn:Hdue.
  - by rewrite bool_decide_eq_true_2 by by apply due_keys.
  - rewrite bool_decide_eq_false_2; [done|].
    intros Hin%due_keys. congruence.
Qed.

(** A key set with a TTL and then set again without one keeps its old index
    entry, so the sweeper deletes it once the old deadline has passed,
    although the item it holds by then has no deadline. *)
Theorem sweeper_deletes_key_overwritten_without_ttl (first second : Message)
    (now1 now2 now3 : Z) (s : GoFastServer) :
  Command first = CMD_SET -> Command second = CMD_SET -> Key second = Key first ->
  0 < TTL first < 2 ^ 32 -> TTL second = 0 ->
  0 <= now1 -> now1 + 2 ^ 32 < 2 ^ 63 -> now1 + TTL first <= now3 ->
  exists s1 s2,
    processCommand first now1 s = Some (s1, createResponse RESP_OK [])
    /\ processCommand second now2 s1 = Some (s2, createResponse RESP_OK [])
    /\ storage s2 !! gostring (Key first) = Some (mkItem (VString (Value second)) 0 now2)
    /\ storage (cleanupExpiredKeys_round now3 s2) !! gostring (Key first) = None.
Proof.
  destruct first as [l1 v1 c1 key val1 ttl], second as [l2 v2 c2 k2 val2 t2]. simpl.
  intros -> -> -> Httl -> Hnow Hmax Hdue.
  exists (set_string (gostring key) val1 ttl now1 s).
  exists (set_string (gostring key) val2 0 now2 (set_string (gostring key) val1 ttl now1 s)).
  split; [reflexivity|]. split; [reflexivity|]. split.
  - unfold set_string at 1. simpl. apply lookup_insert_eq.
  - unfold cleanupExpiredKeys_round.
    match goal with
    | |- storage (fold_left _ ?keys ?s0) !! ?k = None =>
        destruct (evict_all_lookup keys s0 k) as [-> _];
        rewrite bool_decide_eq_true_2; [done|]
    end.
    apply due_keys. unfold due, set_string.
    replace (0 <? ttl) with true by lia. simpl.
    rewrite lookup_insert_eq, wrap64_small by lia. lia.
Qed.

Lemma sweeper_deletes_key_overwritten_without_ttl_witness :
  exists s1 s2,
    processCommand (mkMessage 0 1 CMD_SET (str "k") (str "a") 5) 100 NewGoFastServer
    = Some (s1, createResponse RESP_OK [])
    /\ processCommand (mkMessage 0 1 CMD_SET (str "k") (str "b") 0) 101 s1
       = Some (s2, createResponse RESP_OK [])
    /\ storage s2 !! "k" = Some (mkItem (VString (str "b")) 0 101)
    /\ storage (cleanupExpiredKeys_round 110 s2) !! "k" = None.
Proof.
  apply (sweeper_deletes_key_overwritten_without_ttl
           (mkMessage 0 1 CMD_SET (str "k") (str "a") 5)
           (mkMessage 0 1 CMD_SET (str "k") (str "b") 0) 100 101 110 NewGoFastServer);
    try reflexivity; simpl; lia.
Defined.

(** ** Unknown commands *)

Definition known_commands : list Z :=
  [CMD_SET; CMD_GET; CMD_DEL; CMD_EXISTS; CMD_EXPIRE; CMD_TTL; CMD_MGET; CMD_MSET;
   CMD_PIPELINE; CMD_LPUSH; CMD_RPUSH; CMD_LPOP; CMD_RPOP; CMD_LLEN; CMD_LINDEX;
   CMD_LRANGE; CMD_SADD; CMD_SREM; CMD_SMEMBERS; CMD_SCARD; CMD_SISMEMBER; CMD_HSET;
   CMD_HGET; CMD_HDEL; CMD_HGETALL; CMD_HLEN; CMD_HEXISTS; CMD_INCR; CMD_DECR;
   CMD_GETSET; CMD_KEYS; CMD_SCAN].

Lemma read_payload_unknown command :
  In command known_commands
  \/ forall r length version,
       read_payload r length version command
       = inr (Some (mkMessage length version command [] [] 0, r)).
Proof.
  unfold read_payload.
  repeat (match goal with
          | |- context [match ?c with _ => _ end] =>
              is_var c; destruct c; try (right; reflexivity)
          end);
    left; simpl; tauto.
Qed.

Lemma processCommand_unknown command :
  In command known_commands
  \/ forall length version key value ttl now s,
       processCommand (mkMessage length version command key value ttl) now s
       = Some (s, ERROR "Unknown command").
Proof.
  unfold processCommand, dispatch_common. cbn [Command].
  repeat (match goal with
          | |- context [match ?c with _ => _ end] =>
              is_var c; destruct c; try (right; reflexivity)
          end);
    left; simpl; tauto.
Qed.

(** A frame whose command byte is none of the protocol's is accepted by
    [readMessage] without reading its payload, which stays on the connection
    in front of the next frame; the command is answered with ERROR "Unknown
    command" and changes nothing. *)
Theorem unknown_command_leaves_its_payload_unread (command : Z) (payload rest : bytes)
    (now : Z) (s : GoFastServer) :
  0 <= command < 256 -> ~ In command known_commands -> 2 + len payload < 2 ^ 32 ->
  readMessage (frame PROTOCOL_VERSION command payload ++ rest)
  = ReadMessage (mkMessage (2 + len payload) PROTOCOL_VERSION command [] [] 0)
      (payload ++ rest)
  /\ processCommand (mkMessage (2 + len payload) PROTOCOL_VERSION command [] [] 0) now s
     = Some (s, ERROR "Unknown command").
Proof.
  intros Hbyte Hunknown Hlen. pose proof (len_nonneg payload) as Hpay. split.
  - unfold readMessage, frame. rewrite <- !app_assoc.
    rewrite read_u32_PutUint32 by (unfold u32; lia).
    cbn [app read_byte]. change (Z_of_byte (byte_of_Z PROTOCOL_VERSION)) with 1.
    rewrite Z_of_byte_of_Z, Z.mod_small by lia. cbn [Z.eqb Pos.eqb negb].
    destruct (read_payload_unknown command) as [Hin | ->]; [contradiction | reflexivity].
  - destruct (processCommand_unknown command) as [Hin | ->]; [contradiction | reflexivity].
Qed.

Lemma unknown_command_leaves_its_payload_unread_witness :
  readMessage (frame PROTOCOL_VERSION 200 (field (str "foo")) ++ get_foo)
  = ReadMessage (mkMessage (2 + len (field (str "foo"))) PROTOCOL_VERSION 200 [] [] 0)
      (field (str "foo") ++ get_foo)
  /\ processCommand (mkMessage (2 + len (field (str "foo"))) PROTOCOL_VERSION 200 [] [] 0)
       5 foo_stored
     = Some (foo_stored, ERROR "Unknown command").
Proof.
  apply (unknown_command_leaves_its_payload_unread 200 (field (str "foo")) get_foo 5
           foo_stored).
  - lia.
  - unfold known_commands. simpl. intros H.
    repeat (destruct H as [H | H]; [discriminate H|]). exact H.
  - reflexivity.
Defined.

(** ** KEYS and SCAN over the whole keyspace *)

(** The keys stored and not expired at [now]. *)
Definition live_keys (now : Z) (s : GoFastServer) : list string :=
  map fst (List.filter (fun '(_, item) => negb (expired item now))
             (map_to_list (storage s))).

Lemma range_live_state now s :
  storage (range_live now s).1 = storage s /\ ttlIndex (range_live now s).1 = ttlIndex s.
Proof.
  unfold range_live.
  assert (H : forall l s0 acc,
    let r := fold_left (fun '(s0, keys) '(keyStr, item) =>
               if expired item now then (spawn_delete keyStr s0, keys)
               else (s0, keys ++ [keyStr])) l (s0, acc) in
    storage r.1 = storage s0 /\ ttlIndex r.1 = ttlIndex s0).
  { induction l as [|[k item] l IH]; intros s0 acc; simpl; [done|].
    destruct (expired item now); [exact (IH (spawn_delete k s0) acc) | apply IH]. }
  apply (H _ s []).
Qed.

Lemma live_keys_spec now s key :
  key ∈ live_keys now s
  <-> exists item, storage s !! key = Some item /\ expired item now = false.
Proof.
  unfold live_keys. rewrite list_elem_of_In, in_map_iff. split.
  - intros ([k item] & <- & [Hin Hlive]%filter_In). simpl.
    apply list_elem_of_In, elem_of_map_to_list in Hin.
    exists item. split; [done|]. by destruct (expired item now).
  - intros (item & Hl & He). exists (key, item). split; [done|].
    apply filter_In. split; [by apply list_elem_of_In, elem_of_map_to_list|].
    by rewrite He.
Qed.

Lemma live_keys_NoDup now s : NoDup (live_keys now s).
Proof.
  unfold live_keys.
  assert (H : forall l : list (string * CacheItem),
            NoDup (map fst l) ->
            NoDup (map fst (List.filter (fun '(_, item) => negb (expired item now)) l))).
  { induction l as [|[k item] l IH]; simpl; [done|].
    intros [Hk Hl]%NoDup_cons. destruct (negb (expired item now)); simpl; [|by apply IH].
    apply NoDup_cons. split; [|by apply IH].
    intros Hin. apply Hk. apply list_elem_of_In, in_map_iff.
    apply list_elem_of_In, in_map_iff in Hin as (x & Hx & [Hin _]%filter_In). by exists x. }
  apply H, NoDup_fst_map_to_list.
Qed.

(** KEYS replies with the keys that are stored, not expired and match the
    pattern, each once; it leaves the keyspace and the TTL index as they
    are (the removal of the expired keys it meets is handed to goroutines). *)
Theorem keys_lists_the_live_matching_keys (msg : Message) (now : Z) (s : GoFastServer) :
  Command msg = CMD_KEYS ->
  exists s' keys,
    processCommand msg now s = Some (s', createResponse RESP_OK (encodeStringArray keys))
    /\ NoDup keys
    /\ (forall key,
          key ∈ keys
          <-> matchPattern (gostring (Value msg)) key = true
              /\ exists item, storage s !! key = Some item /\ expired item now = false)
    /\ storage s' = storage s /\ ttlIndex s' = ttlIndex s.
Proof.
  destruct msg as [l v c k pattern t]. simpl. intros ->.
  unfold processCommand, dispatch_common. simpl. unfold handleKeys.
  pose proof (range_live_keys now s) as Hkeys.
  pose proof (range_live_state now s) as [Hstore Hindex].
  destruct (range_live now s) as [s1 collected]. simpl in *.
  fold (live_keys now s) in Hkeys. subst collected.
  eexists _, _. split; [reflexivity|]. split; [|split; [|done]].
  - pose proof (live_keys_NoDup now s) as Hnd. revert Hnd.
    generalize (live_keys now s). induction l0 as [|x xs IH]; simpl; [done|].
    intros [Hx Hxs]%NoDup_cons. destruct (matchPattern _ x); [|by apply IH].
    apply NoDup_cons. split; [|by apply IH].
    intros Hin. apply Hx. by apply list_elem_of_In, filter_In in Hin as [Hin%list_elem_of_In _].
  - intros key. rewrite list_elem_of_In, filter_In, <- list_elem_of_In, live_keys_spec. tauto.
Qed.

Lemma keys_lists_the_live_matching_keys_witness :
  exists s' keys,
    processCommand (request_message (ReqKeys (str "f*"))) 5 foo_stored
    = Some (s', createResponse RESP_OK (encodeStringArray keys))
    /\ NoDup keys
    /\ (forall key,
          key ∈ keys
          <-> matchPattern (gostring (Value (request_message (ReqKeys (str "f*"))))) key = true
              /\ exists item, storage foo_stored !! key = Some item /\ expired item 5 = false)
    /\ storage s' = storage foo_stored /\ ttlIndex s' = ttlIndex foo_stored.
Proof.
  apply (keys_lists_the_live_matching_keys (request_message (ReqKeys (str "f*"))) 5
           foo_stored).
  reflexivity.
Defined.

(** One page of SCAN over the sorted key list: the next cursor and the keys
    returned. *)
Definition scan_page (cursor : Z) (pattern : string) (keys : list string)
    : Z * list string :=
  let n := Z.of_nat (length keys) in
  if n <=? cursor then (0, [])
  else
    let '(endIndex, nextCursor) :=
      if n <? cursor + 10 then (n, 0) else (cursor + 10, uint32 (cursor + 10)) in
    (nextCursor,
     List.filter (matchPattern pattern)
       (take (Z.to_nat (endIndex - cursor)) (drop (Z.to_nat cursor) keys))).

(** A client that starts at cursor 0 and calls SCAN again with each cursor
    it is handed, until it is handed 0. *)
Fixpoint scan_from (fuel : nat) (cursor : Z) (pattern : string) (keys : list string)
    : list string :=
  match fuel with
  | O => []
  | S fuel' =>
      let '(next, page) := scan_page cursor pattern keys in
      page ++ (if next =? 0 then [] else scan_from fuel' next pattern keys)
  end.

Lemma handleScan_page cursor pattern now s :
  handleScan cursor pattern 10 now s
  = ((range_live now s).1,
     createResponse RESP_OK
       (encodeScanResponse
          (scan_page cursor pattern (sort_strings (range_live now s).2)).1
          (scan_page cursor pattern (sort_strings (range_live now s).2)).2)).
Proof.
  unfold handleScan, scan_page. destruct (range_live now s) as [s1 collected]. simpl.
  destruct (_ <=? cursor); [done|]. by destruct (_ <? cursor + 10).
Qed.

Lemma scan_from_drop pattern keys : forall fuel cursor,
  Z.of_nat (length keys) + 10 < 2 ^ 32 ->
  0 <= cursor -> (0 < fuel)%nat ->
  Z.of_nat (length keys) - cursor < 10 * Z.of_nat fuel ->
  scan_from fuel cursor pattern keys
  = List.filter (matchPattern pattern) (drop (Z.to_nat cursor) keys).
Proof.
  induction fuel as [|fuel IH]; intros cursor Hfit Hc Hfuel Hsteps; [lia|].
  cbn [scan_from]. unfold scan_page.
  destruct (Z.leb_spec (Z.of_nat (length keys)) cursor) as [Hpast|Hin].
  - simpl. by rewrite drop_ge by lia.
  - destruct (Z.ltb_spec (Z.of_nat (length keys)) (cursor + 10)) as [Hlast|Hmore].
    + simpl. rewrite app_nil_r. by rewrite take_ge by (rewrite length_drop; lia).
    + unfold uint32. rewrite Z.mod_small by lia.
      replace (cursor + 10 =? 0) with false by lia.
      rewrite IH by lia.
      replace (Z.to_nat (cursor + 10 - cursor)) with 10%nat by lia.
      replace (Z.to_nat (cursor + 10)) with (Z.to_nat cursor + 10)%nat by lia.
      rewrite <- drop_drop, <- List.filter_app. by rewrite take_drop.
Qed.

(** Following the cursors of SCAN from 0 over an unchanging keyspace returns
    every live key that matches the pattern exactly once, in ascending
    byte order: each reply is the page of ten positions of the sorted live
    keys that starts at its cursor, with the cursor of the next page. *)
Theorem scan_cursors_visit_every_live_key (pattern : string) (now : Z) (s : GoFastServer) :
  Z.of_nat (length (live_keys now s)) + 10 < 2 ^ 32 ->
  let keys := sort_strings (live_keys now s) in
  (forall cursor,
     (handleScan cursor pattern 10 now s).2
     = createResponse RESP_OK
         (encodeScanResponse (scan_page cursor pattern keys).1
            (scan_page cursor pattern keys).2))
  /\ scan_from (S (length keys)) 0 pattern keys = List.filter (matchPattern pattern) keys
  /\ Sorted string_le keys /\ keys ≡ₚ live_keys now s.
Proof.
  intros Hfit keys.
  destruct (sort_strings_sorted (live_keys now s)) as [Hsorted Hperm].
  assert (Hlen : length keys = length (live_keys now s))
    by exact (Permutation_length Hperm).
  split; [|split; [|done]].
  - intros cursor. rewrite handleScan_page. simpl.
    pose proof (range_live_keys now s) as Hkeys. simpl in Hkeys.
    fold (live_keys now s) in Hkeys. by rewrite Hkeys.
  - rewrite scan_from_drop by lia. reflexivity.
Qed.

Lemma scan_cursors_visit_every_live_key_witness :
  scan_from (S (length (sort_strings (live_keys 5 foo_stored)))) 0 "*"
    (sort_strings (live_keys 5 foo_stored))
  = List.filter (matchPattern "*") (sort_strings (live_keys 5 foo_stored)).
Proof.
  refine (proj1 (proj2 (scan_cursors_visit_every_live_key "*" 5 foo_stored _))).
  vm_compute. reflexivity.
Defined.

(** ** Response encodings can be read back *)

Lemma PutUint32_prefix a b r1 r2 :
  u32 a -> u32 b -> PutUint32 a ++ r1 = PutUint32 b ++ r2 -> a = b /\ r1 = r2.
Proof.
  intros Ha Hb Heq.
  assert (Hab : a = b).
  { pose proof (Uint32_PutUint32 a r1 Ha) as H1. rewrite Heq in H1.
    rewrite (Uint32_PutUint32 b r2 Hb) in H1. congruence. }
  subst b. split; [done|]. by apply app_inv_head in Heq.
Qed.

Lemma field_prefix x y r1 r2 :
  fits32 x -> fits32 y ->
  PutUint32 (uint32 (len x)) ++ x ++ r1 = PutUint32 (uint32 (len y)) ++ y ++ r2 ->
  x = y /\ r1 = r2.
Proof.
  intros Hx Hy. pose proof (len_nonneg x). pose proof (len_nonneg y).
  unfold uint32, fits32 in *. rewrite !Z.mod_small by lia.
  intros [Hlen Heq]%PutUint32_prefix; [|unfold u32; lia..].
  apply app_inj_1 in Heq; [done|]. unfold len in Hlen. lia.
Qed.

(** Lists of self-delimiting encodings: equal concatenations, equal lists. *)
Lemma flat_map_prefix_inj {A} (enc : A -> bytes) (P : A -> Prop) :
  (forall x y r1 r2, P x -> P y -> enc x ++ r1 = enc y ++ r2 -> x = y /\ r1 = r2) ->
  forall l1 l2,
    Forall P l1 -> Forall P l2 -> length l1 = length l2 ->
    flat_map enc l1 = flat_map enc l2 -> l1 = l2.
Proof.
  intros Hprefix. induction l1 as [|x l1 IH]; intros [|y l2] H1 H2 Hlen Heq;
    try discriminate Hlen; [done|].
  apply Forall_cons in H1 as [Hx H1]. apply Forall_cons in H2 as [Hy H2].
  simpl in Heq. apply Hprefix in Heq as [-> Heq]; [|done..].
  f_equal. apply IH; [done | done | | done]. simpl in Hlen. lia.
Qed.

(** A value MGET can report without it being taken for [nil]. *)
Definition mget_fits (value : option bytes) : Prop :=
  match value with
  | Some v => len v < 2 ^ 32 - 1
  | None => True
  end.

(** The array encodings of the responses are injective: the bytes of an
    LRANGE (or KEYS, SMEMBERS) array determine its elements, and the bytes
    of an MGET reply determine, entry by entry, which keys were missing and
    what the others hold. *)
Theorem array_encodings_are_injective (l1 l2 : list bytes) (v1 v2 : list (option bytes)) :
  Forall fits32 l1 -> Forall fits32 l2 ->
  Z.of_nat (length l1) < 2 ^ 32 -> Z.of_nat (length l2) < 2 ^ 32 ->
  Forall mget_fits v1 -> Forall mget_fits v2 ->
  Z.of_nat (length v1) < 2 ^ 32 -> Z.of_nat (length v2) < 2 ^ 32 ->
  (encodeArray l1 = encodeArray l2 -> l1 = l2)
  /\ (encodeMGetResponse v1 = encodeMGetResponse v2 -> v1 = v2).
Proof.
  intros Hl1 Hl2 Hn1 Hn2 Hv1 Hv2 Hm1 Hm2. split.
  - unfold encodeArray, uint32. rewrite !Z.mod_small by lia.
    intros [Hlen Heq]%PutUint32_prefix; [|unfold u32; lia..].
    apply (flat_map_prefix_inj _ fits32) in Heq; [done | | done | done | lia].
    intros x y r1 r2 Hx Hy. rewrite <- !app_assoc. by apply field_prefix.
  - unfold encodeMGetResponse, uint32 at 1 3. rewrite !Z.mod_small by lia.
    intros [Hlen Heq]%PutUint32_prefix; [|unfold u32; lia..].
    apply (flat_map_prefix_inj _ mget_fits) in Heq; [done | | done | done | lia].
    intros [x|] [y|] r1 r2 Hx Hy; simpl in Hx, Hy.
    + rewrite <- !app_assoc. intros [-> ->]%field_prefix; [done | |];
        unfold fits32; lia.
    + pose proof (len_nonneg x). unfold uint32. rewrite Z.mod_small by lia.
      rewrite <- app_assoc. intros [Hlen' _]%PutUint32_prefix; [lia | |]; unfold u32; lia.
    + pose proof (len_nonneg y). unfold uint32. rewrite Z.mod_small by lia.
      rewrite <- app_assoc. intros [Hlen' _]%PutUint32_prefix; [lia | |]; unfold u32; lia.
    + intros Hrest. split; [done|]. by apply app_inv_head in Hrest.
Qed.

Lemma array_encodings_are_injective_witness :
  (encodeArray [str "x"] = encodeArray [str "x"] -> [str "x"] = [str "x"])
  /\ (encodeMGetResponse [Some (str "a"); None] = encodeMGetResponse [Some (str "a"); None]
      -> [Some (str "a"); None] = [Some (str "a"); None]).
Proof.
  apply (array_encodings_are_injective [str "x"] [str "x"]
           [Some (str "a"); None] [Some (str "a"); None]);
    try (repeat first [apply List.Forall_nil | apply List.Forall_cons]; reflexivity || exact I);
    reflexivity.
Defined.

(** ** The pattern matcher against glob matching *)

(** Glob matching by recursion on the pattern: [?] stands for one byte, [*]
    for any run of bytes, every other byte for itself. *)
Fixpoint some_suffix (f : bytes -> bool) (s : bytes) : bool :=
  f s || match s with
         | [] => false
         | _ :: s' => some_suffix f s'
         end.

Fixpoint glob (p s : bytes) : bool :=
  match p with
  | [] => match s with
          | [] => true
          | _ => false
          end
  | c :: p' =>
      if byte_is "*" (Some c) then some_suffix (glob p') s
      else match s with
           | [] => false
           | x :: s' => (byte_is "?" (Some c) || Byte.eqb c x) && glob p' s'
           end
  end.

Definition star_free (l : bytes) : Prop := Forall (fun b => byte_is "*" (Some b) = false) l.

Lemma some_suffix_true f s :
  some_suffix f s = true <-> exists k, (k <= length s)%nat /\ f (drop k s) = true.
Proof.
  induction s as [|x s IH]; simpl.
  - rewrite orb_false_r. split.
    + intros Hf. exists 0%nat. by split.
    + intros (k & _ & Hf). by rewrite drop_nil in Hf.
  - rewrite orb_true_iff, IH. split.
    + intros [Hf | (k & Hk & Hf)].
      * exists 0%nat. split; [lia | done].
      * exists (S k). split; [lia | done].
    + intros ([|k] & Hk & Hf); [by left|].
      right. exists k. split; [lia | done].
Qed.

Lemma glob_nil_r p : glob p [] = forallb (fun b => byte_is "*" (Some b)) p.
Proof.
  induction p as [|c p IH]; simpl; [done|].
  destruct (Byte.eqb c _); simpl; [|done]. by rewrite orb_false_r.
Qed.

(** A pattern that begins with a run without [*] consumes exactly that many
    bytes before the rest is matched. *)
Lemma glob_star_free_prefix seg : forall q t,
  star_free seg -> glob (seg ++ q) t = true ->
  (length seg <= length t)%nat /\ glob q (drop (length seg) t) = true.
Proof.
  induction seg as [|c seg IH]; intros q t Hfree Hg; simpl in *.
  - split; [lia | done].
  - apply Forall_cons in Hfree as [Hc Hfree]. simpl in Hc. rewrite Hc in Hg.
    destruct t as [|x t]; [done|].
    apply andb_true_iff in Hg as [_ Hg].
    destruct (IH q t Hfree Hg) as [Hlen Hrest]. split; [simpl; lia | done].
Qed.

Lemma drop_index (l : bytes) (i : Z) :
  0 <= i < len l ->
  exists b, index l i = Some b
            /\ drop (Z.to_nat i) l = b :: drop (Z.to_nat (i + 1)) l.
Proof.
  intros Hi. unfold index.
  replace ((0 <=? i) && (i <? len l)) with true
    by (symmetry; apply andb_true_intro; split; lia).
  destruct (l !! Z.to_nat i) as [b|] eqn:Hb.
  - exists b. split; [done|].
    replace (Z.to_nat (i + 1)) with (S (Z.to_nat i)) by lia.
    by apply drop_S.
  - apply lookup_ge_None in Hb. unfold len in Hi. lia.
Qed.

(** What the backtracking point [(starIdx, match)] still promises: the
    pattern behind the star matches from some later position of [s]. *)
Definition alternatives (pattern s : bytes) (starIdx mtch : Z) : bool :=
  negb (starIdx =? -1)
  && some_suffix (glob (drop (Z.to_nat (starIdx + 1)) pattern)) (drop (Z.to_nat (mtch + 1)) s).

(** Between the star and [j] the pattern has no star, and it has matched
    the bytes of [s] between [match] and [i]. *)
Definition backtrack_ok (pattern : bytes) (i j starIdx mtch : Z) : Prop :=
  starIdx = -1
  \/ (0 <= starIdx < j /\ j - (starIdx + 1) = i - mtch
      /\ star_free (take (Z.to_nat (j - (starIdx + 1)))
                      (drop (Z.to_nat (starIdx + 1)) pattern))).

Lemma some_suffix_drop f (s : bytes) n :
  some_suffix f (drop n s) = f (drop n s) || some_suffix f (drop (S n) s).
Proof.
  destruct (drop n s) as [|x t] eqn:Hd.
  - assert (Hlen : (length s <= n)%nat).
    { apply (f_equal length) in Hd. rewrite length_drop in Hd. simpl in Hd. lia. }
    rewrite (drop_ge s (S n)) by lia. simpl. by destruct (f []).
  - replace (drop (S n) s) with t; [done|].
    replace (S n) with (n + 1)%nat by lia.
    rewrite <- (drop_drop s 1 n), Hd. reflexivity.
Qed.

Lemma pattern_split pattern j starIdx :
  0 <= starIdx < j -> j <= len pattern ->
  drop (Z.to_nat (starIdx + 1)) pattern
  = take (Z.to_nat (j - (starIdx + 1))) (drop (Z.to_nat (starIdx + 1)) pattern)
    ++ drop (Z.to_nat j) pattern.
Proof.
  intros Hs Hj.
  rewrite <- (take_drop (Z.to_nat (j - (starIdx + 1)))
                (drop (Z.to_nat (starIdx + 1)) pattern)) at 1.
  f_equal. rewrite drop_drop. f_equal. lia.
Qed.

(** At the end of [s] the backtracking point offers nothing that the
    current position does not. *)
Lemma alternatives_at_end pattern s j starIdx mtch :
  0 <= mtch <= len s -> j <= len pattern ->
  backtrack_ok pattern (len s) j starIdx mtch ->
  alternatives pattern s starIdx mtch = true ->
  glob (drop (Z.to_nat j) pattern) [] = true.
Proof.
  intros Hm Hj [-> | (Hstar & Hseg & Hfree)] Halt; [done|].
  unfold alternatives in Halt. apply andb_true_iff in Halt as [_ Halt].
  apply some_suffix_true in Halt as (k & Hk & Hg).
  rewrite (pattern_split pattern j starIdx) in Hg by lia.
  apply glob_star_free_prefix in Hg as [_ Hg]; [|done].
  rewrite !drop_drop in Hg.
  rewrite (drop_ge s) in Hg; [done|].
  rewrite length_take, length_drop. unfold len in *. lia.
Qed.

(** A new star makes the older backtracking point redundant. *)
Lemma alternatives_subsumed pattern s i j starIdx mtch c :
  0 <= mtch <= i -> i < len s -> j < len pattern ->
  drop (Z.to_nat j) pattern = c :: drop (Z.to_nat (j + 1)) pattern ->
  byte_is "*" (Some c) = true ->
  backtrack_ok pattern i j starIdx mtch ->
  alternatives pattern s starIdx mtch = true ->
  some_suffix (glob (drop (Z.to_nat (j + 1)) pattern)) (drop (Z.to_nat i) s) = true.
Proof.
  intros Hm Hi Hj Hc Hstar [-> | (Hs & Hseg & Hfree)] Halt; [done|].
  unfold alternatives in Halt. apply andb_true_iff in Halt as [_ Halt].
  apply some_suffix_true in Halt as (k & Hk & Hg).
  rewrite (pattern_split pattern j starIdx) in Hg by lia.
  apply glob_star_free_prefix in Hg as [Hlen Hg]; [|done].
  assert (Hseglen : length (take (Z.to_nat (j - (starIdx + 1)))
                              (drop (Z.to_nat (starIdx + 1)) pattern))
                    = Z.to_nat (j - (starIdx + 1))).
  { rewrite length_take, length_drop. unfold len in *. lia. }
  rewrite Hseglen in Hlen, Hg.
  rewrite Hc in Hg. cbn [glob] in Hg. rewrite Hstar in Hg.
  apply some_suffix_true in Hg as (k' & Hk' & Hg).
  rewrite ?length_drop in Hlen. rewrite ?length_drop in Hk'. rewrite length_drop in Hk.
  rewrite !drop_drop in Hg.
  apply some_suffix_true. exists (k' + 1 + k)%nat.
  rewrite length_drop, drop_drop. unfold len in *. split; [lia|].
  rewrite <- Hg. do 2 f_equal. lia.
Qed.

Lemma star_free_lookup (s : bytes) i x :
  star_free s -> s !! i = Some x -> byte_is "*" (Some x) = false.
Proof. intros Hfree Hx. exact (proj1 (Forall_lookup _ _) Hfree i x Hx). Qed.

Lemma backtrack_ok_step pattern i j starIdx mtch c :
  0 <= j < len pattern ->
  drop (Z.to_nat j) pattern = c :: drop (Z.to_nat (j + 1)) pattern ->
  byte_is "*" (Some c) = false ->
  backtrack_ok pattern i j starIdx mtch ->
  backtrack_ok pattern (i + 1) (j + 1) starIdx mtch.
Proof.
  intros Hj Hc Hnostar [-> | (Hs & Hseg & Hfree)]; [by left|]. right.
  split; [lia|]. split; [lia|].
  replace (Z.to_nat (j + 1 - (starIdx + 1))) with (S (Z.to_nat (j - (starIdx + 1)))) by lia.
  rewrite (take_S_r _ _ c).
  - apply Forall_app. split; [done|]. by apply Forall_singleton.
  - rewrite lookup_drop.
    replace (Z.to_nat (starIdx + 1) + Z.to_nat (j - (starIdx + 1)))%nat
      with (Z.to_nat j) by lia.
    rewrite <- (Nat.add_0_r (Z.to_nat j)), <- lookup_drop, Hc. reflexivity.
Qed.

(** The loop of [wildcardMatch] decides glob matching from its position on,
    together with what its backtracking point still offers. *)
Lemma wildcardMatch_loop_glob pattern s :
  star_free s ->
  forall fuel i j starIdx mtch,
    0 <= mtch <= i -> i <= len s -> 0 <= j <= len pattern -> -1 <= starIdx < len pattern ->
    backtrack_ok pattern i j starIdx mtch ->
    wildcard_measure pattern s i j mtch < Z.of_nat fuel ->
    wildcardMatch_loop fuel pattern s i j starIdx mtch
    = glob (drop (Z.to_nat j) pattern) (drop (Z.to_nat i) s)
      || alternatives pattern s starIdx mtch.
Proof.
  intros Hfree. unfold wildcard_measure.
  induction fuel as [|fuel IH]; intros i j starIdx mtch Hm Hi Hj Hstar Hok Hfuel.
  { exfalso. assert (0 <= (len s - mtch) * (len s + len pattern + 1)) by nia. lia. }
  cbn [wildcardMatch_loop].
  destruct (Z.ltb_spec i (len s)) as [Hlt|Hend].
  - destruct (drop_index s i) as (x & Hx & Hdx); [lia|].
    assert (Hxfree : byte_is "*" (Some x) = false).
    { unfold index in Hx. destruct ((0 <=? i) && (i <? len s)); [|done].
      by apply (star_free_lookup s (Z.to_nat i)). }
    assert (Hrestart :
      (if negb (starIdx =? -1)
       then wildcardMatch_loop fuel pattern s (mtch + 1) (starIdx + 1) starIdx (mtch + 1)
       else false)
      = alternatives pattern s starIdx mtch).
    { destruct (Z.eqb_spec starIdx (-1)) as [->|Hne]; cbn [negb]; [done|].
      rewrite IH; [| lia | lia | lia | lia | | ].
      - unfold alternatives. replace (starIdx =? -1) with false by lia. cbn [negb andb].
        replace (Z.to_nat (mtch + 1 + 1)) with (S (Z.to_nat (mtch + 1))) by lia.
        by rewrite <- some_suffix_drop.
      - right. split; [lia|]. split; [lia|].
        replace (Z.to_nat (starIdx + 1 - (starIdx + 1))) with 0%nat by lia.
        apply Forall_nil_2.
      - replace ((len s - (mtch + 1)) * (len s + len pattern + 1))
          with ((len s - mtch) * (len s + len pattern + 1) - (len s + len pattern + 1))
          by ring. lia. }
    destruct (Z.ltb_spec j (len pattern)) as [Hjlt|Hjge]; cbn [andb].
    + destruct (drop_index pattern j) as (c & Hc & Hdc); [lia|].
      rewrite Hc, Hx, Hdc, Hdx. cbn [same_byte].
      destruct (byte_is "?" (Some c) || Byte.eqb c x) eqn:Hmatch.
      * assert (Hcfree : byte_is "*" (Some c) = false).
        { apply orb_true_iff in Hmatch as [Hq | Heq].
          - unfold byte_is in *. simpl in *.
            apply Byte.byte_dec_bl in Hq. by subst c.
          - apply Byte.byte_dec_bl in Heq. by subst c. }
        rewrite IH;
          [| lia | lia | lia | lia
           | apply (backtrack_ok_step _ _ _ _ _ c); [lia | done | done | done] | lia].
        cbn [glob]. by rewrite Hcfree, Hmatch.
      * destruct (byte_is "*" (Some c)) eqn:Hcstar.
        -- rewrite IH; [| lia | lia | lia | lia | | nia].
           ++ rewrite <- Hdx. cbn [glob]. rewrite Hcstar.
              unfold alternatives at 1. replace (j =? -1) with false by lia.
              cbn [negb andb].
              replace (Z.to_nat (i + 1)) with (S (Z.to_nat i)) by lia.
              rewrite <- (some_suffix_drop _ s (Z.to_nat i)).
              destruct (alternatives pattern s starIdx mtch) eqn:Halt;
                [|by rewrite orb_false_r].
              rewrite orb_true_r.
              apply (alternatives_subsumed pattern s i j starIdx mtch c);
                [lia | lia | lia | done | done | done | done].
           ++ right. split; [lia|]. split; [lia|].
              replace (Z.to_nat (j + 1 - (j + 1))) with 0%nat by lia.
              apply Forall_nil_2.
        -- rewrite Hrestart. cbn [glob]. by rewrite Hcstar, Hmatch.
    + rewrite Hrestart, Hdx. by rewrite drop_ge by (unfold len in *; lia).
  - assert (i = len s) as -> by lia.
    rewrite (drop_ge s) by (unfold len; lia).
    rewrite <- glob_nil_r.
    destruct (alternatives pattern s starIdx mtch) eqn:Halt; [|by rewrite orb_false_r].
    rewrite orb_true_r.
    apply (alternatives_at_end pattern s j starIdx mtch); [lia | lia | done | done].
Qed.

(** On keys without a [*] byte [wildcardMatch] is glob matching: [?] stands
    for one byte, [*] for any run of bytes, every other byte for itself;
    [matchPattern] adds that the empty pattern matches every key. *)
Theorem wildcardMatch_is_glob_matching (pattern key : string) :
  star_free (str key) ->
  wildcardMatch pattern key = glob (str pattern) (str key)
  /\ matchPattern pattern key = (String.eqb pattern "" || glob (str pattern) (str key)).
Proof.
  intros Hfree.
  assert (Hloop : wildcardMatch pattern key = glob (str pattern) (str key)).
  { unfold wildcardMatch.
    pose proof (len_nonneg (str pattern)) as Hp. pose proof (len_nonneg (str key)) as Hk.
    rewrite (wildcardMatch_loop_glob (str pattern) (str key) Hfree); try lia.
    - unfold alternatives. cbn [Z.eqb negb andb Z.to_nat drop]. by rewrite orb_false_r.
    - by left.
    - unfold wildcard_measure, wildcard_fuel, len in *. nia. }
  split; [exact Hloop|]. unfold matchPattern.
  destruct (String.eqb_spec pattern "") as [->|Hne]; [done|].
  destruct (String.eqb_spec pattern "*") as [->|Hstar]; cbn [orb]; [|exact Hloop].
  symmetry. change (str "*") with ["*"%byte]. cbn [glob byte_is].
  change (Byte.eqb "*" "*") with true. cbv iota.
  apply some_suffix_true. exists (length (str key)). split; [lia|].
  by rewrite drop_all.
Qed.

Lemma wildcardMatch_is_glob_matching_witness :
  wildcardMatch "user:*" "user:42" = glob (str "user:*") (str "user:42")
  /\ matchPattern "user:*" "user:42"
     = (String.eqb "user:*" "" || glob (str "user:*") (str "user:42")).
Proof.
  apply (wildcardMatch_is_glob_matching "user:*" "user:42").
  repeat first [apply List.Forall_nil | apply List.Forall_cons]; reflexivity.
Defined.

(** A [*] in the key is first tried as the byte itself, which can lose the
    match. *)
Example star_in_key_defeats_the_star :
  matchPattern "*b" "*ab" = false /\ glob (str "*b") (str "*ab") = true.
Proof. split; reflexivity. Qed.

(** ** Pooled buffers (BytePool) under the encoders

    [sync.Pool] hands back any buffer that was put into it, with the bytes
    it held; [stale] is such a buffer up to its capacity.  The encoders
    above are written as if their buffer were fresh; here they are written
    as the source has them, as writes into the buffer [Get] returns. *)
Definition BytePool_Get (stale : bytes) (size : Z) : bytes :=
  if len stale <? size then make size else take (Z.to_nat size) stale.

(** [buf[i] = b] and [binary.BigEndian.PutUint32(buf[at:at+4], v)]; [None]
    is the panic of an index or slice out of range. *)
Definition set_byte (buf : bytes) (i : Z) (b : byte) : option bytes :=
  if (0 <=? i) && (i <? len buf) then Some (<[Z.to_nat i := b]> buf) else None.
Definition put_u32 (buf : bytes) (at_ : Z) (v : Z) : option bytes :=
  if (0 <=? at_) && (at_ + 4 <=? len buf) then copy_at buf at_ (PutUint32 v) else None.

Definition createResponse_pooled (stale : bytes) (status : Z) (data : bytes)
    : option bytes :=
  let dataLen := len data in
  let response := BytePool_Get stale (5 + dataLen) in
  response ← set_byte response 0 (byte_of_Z status);
  response ← put_u32 response 1 (uint32 dataLen);
  if 0 <? dataLen then copy_at response 5 data else Some response.

Fixpoint encodeArray_loop (values : list bytes) (result : bytes) (offset : Z)
    : option bytes :=
  match values with
  | [] => Some result
  | val :: rest =>
      result ← put_u32 result offset (uint32 (len val));
      let offset := offset + 4 in
      result ← copy_at result offset val;
      encodeArray_loop rest result (offset + len val)
  end.

Definition encodeArray_pooled (stale : bytes) (values : list bytes) : option bytes :=
  let totalLen := fold_left (fun total val => total + (4 + len val)) values 4 in
  let result := BytePool_Get stale totalLen in
  result ← put_u32 result 0 (uint32 (Z.of_nat (length values)));
  encodeArray_loop values result 4.

Lemma len_BytePool_Get stale size : 0 <= size -> len (BytePool_Get stale size) = size.
Proof.
  intros Hsize. unfold BytePool_Get.
  destruct (Z.ltb_spec (len stale) size); [by apply len_make|].
  unfold len in *. rewrite length_take. lia.
Qed.

(** A buffer of [n + m] bytes is [n] bytes followed by [m] bytes. *)
Lemma split_buffer (buf : bytes) n m :
  0 <= n -> 0 <= m -> len buf = n + m ->
  exists y rest, buf = y ++ rest /\ len y = n /\ len rest = m.
Proof.
  intros Hn Hm Hlen. exists (take (Z.to_nat n) buf), (drop (Z.to_nat n) buf).
  split; [by rewrite take_drop|].
  unfold len in *. rewrite length_take, length_drop. lia.
Qed.

Lemma put_u32_fill a y b v at_ :
  at_ = len a -> len y = 4 -> put_u32 (a ++ y ++ b) at_ v = Some (a ++ PutUint32 v ++ b).
Proof.
  intros -> Hy. unfold put_u32. rewrite !len_app, Hy.
  pose proof (len_nonneg a). pose proof (len_nonneg b).
  replace ((0 <=? len a) && (len a + 4 <=? len a + (4 + len b))) with true
    by (symmetry; apply andb_true_intro; split; lia).
  apply copy_at_fill; [done | by rewrite len_PutUint32].
Qed.

Lemma encodeArray_loop_fill values : forall pre rest,
  len rest = len (flat_map (fun val => PutUint32 (uint32 (len val)) ++ val) values) ->
  encodeArray_loop values (pre ++ rest) (len pre)
  = Some (pre ++ flat_map (fun val => PutUint32 (uint32 (len val)) ++ val) values).
Proof.
  induction values as [|val values IH]; intros pre rest Hlen.
  - simpl in *. unfold len in Hlen. destruct rest; [done | simpl in Hlen; lia].
  - cbn [flat_map encodeArray_loop] in *.
    rewrite !len_app, len_PutUint32 in Hlen.
    pose proof (len_nonneg val) as Hval.
    pose proof (len_nonneg (flat_map (fun val => PutUint32 (uint32 (len val)) ++ val) values))
      as Htail.
    destruct (split_buffer rest 4 (len val + len (flat_map
                (fun val => PutUint32 (uint32 (len val)) ++ val) values)))
      as (y4 & rest1 & -> & Hy4 & Hrest1); [lia | lia | lia |].
    destruct (split_buffer rest1 (len val) (len (flat_map
                (fun val => PutUint32 (uint32 (len val)) ++ val) values)))
      as (yv & rest2 & -> & Hyv & Hrest2); [lia | lia | lia |].
    rewrite (put_u32_fill pre y4 _ _ (len pre)) by done. cbn [mbind option_bind].
    rewrite (app_assoc pre (PutUint32 _)).
    rewrite (copy_at_fill (pre ++ PutUint32 (uint32 (len val))) yv rest2 val)
      by (rewrite ?len_app, ?len_PutUint32; done).
    cbn [mbind option_bind]. rewrite (app_assoc _ val rest2).
    replace (len pre + 4 + len val)
      with (len ((pre ++ PutUint32 (uint32 (len val))) ++ val))
      by (rewrite !len_app, len_PutUint32; lia).
    rewrite IH by done. by rewrite <- !app_assoc.
Qed.

Lemma len_encodeArray_body values :
  fold_left (fun total val => total + (4 + len val)) values 4
  = 4 + len (flat_map (fun val => PutUint32 (uint32 (len val)) ++ val) values).
Proof.
  assert (H : forall acc,
            fold_left (fun total val => total + (4 + len val)) values acc
            = acc + len (flat_map (fun val => PutUint32 (uint32 (len val)) ++ val) values)).
  { induction values as [|val values IH]; intros acc; cbn [fold_left flat_map].
    - rewrite len_nil. lia.
    - rewrite IH, !len_app, len_PutUint32. lia. }
  apply H.
Qed.

(** Whatever the pooled buffer held before, [createResponse] and
    [encodeArray] overwrite every byte of it: the response is the status
    byte, the length and the data, and nothing of an earlier response or
    request shows through. *)
Theorem pooled_buffers_are_overwritten (stale : bytes) (status : Z) (data : bytes)
    (values : list bytes) :
  createResponse_pooled stale status data = Some (createResponse status data)
  /\ encodeArray_pooled stale values = Some (encodeArray values).
Proof.
  split.
  - unfold createResponse_pooled, createResponse.
    pose proof (len_nonneg data) as Hdata.
    pose proof (len_BytePool_Get stale (5 + len data) ltac:(lia)) as Hget.
    destruct (split_buffer (BytePool_Get stale (5 + len data)) 1 (4 + len data))
      as (y1 & rest & -> & Hy1 & Hrest); [lia | lia | lia |].
    destruct (split_buffer rest 4 (len data)) as (y4 & tail & -> & Hy4 & Htail);
      [lia | lia | lia |].
    destruct y1 as [|b0 [|? ?]]; try (unfold len in Hy1; simpl in Hy1; lia).
    unfold set_byte. rewrite !len_app, Hy4, Htail.
    change (len [b0]) with 1.
    replace ((0 <=? 0) && (0 <? 1 + (4 + len data))) with true
      by (symmetry; apply andb_true_intro; split; lia).
    cbn [mbind option_bind Z.to_nat app]. change (<[0%nat:=byte_of_Z status]> (b0 :: y4 ++ tail))
      with ([byte_of_Z status] ++ y4 ++ tail).
    rewrite (put_u32_fill [byte_of_Z status] y4 tail _ 1) by done.
    cbn [mbind option_bind].
    destruct (Z.ltb_spec 0 (len data)) as [Hpos|Hzero].
    + rewrite (app_assoc [byte_of_Z status]), <- (app_nil_r tail).
      rewrite (copy_at_fill ([byte_of_Z status] ++ PutUint32 _) tail [] data)
        by (rewrite ?len_app, ?len_PutUint32; done).
      by rewrite app_nil_r, <- app_assoc.
    + assert (len data = 0) as Hempty by lia.
      destruct data; [|unfold len in Hempty; simpl in Hempty; lia].
      destruct tail; [|unfold len in Htail; simpl in Htail; lia]. reflexivity.
  - unfold encodeArray_pooled, encodeArray. rewrite len_encodeArray_body.
    pose proof (len_nonneg (flat_map (fun val => PutUint32 (uint32 (len val)) ++ val) values))
      as Hbody.
    pose proof (len_BytePool_Get stale
                  (4 + len (flat_map (fun val => PutUint32 (uint32 (len val)) ++ val) values))
                  ltac:(lia)) as Hget.
    destruct (split_buffer (BytePool_Get stale (4 + len (flat_map
                (fun val => PutUint32 (uint32 (len val)) ++ val) values))) 4
                (len (flat_map (fun val => PutUint32 (uint32 (len val)) ++ val) values)))
      as (y4 & rest & -> & Hy4 & Hrest); [lia | lia | exact Hget |].
    pose proof (put_u32_fill [] y4 rest (uint32 (Z.of_nat (length values))) 0 eq_refl Hy4)
      as Hput.
    rewrite !app_nil_l in Hput. rewrite Hput. cbn [mbind option_bind].
    exact (encodeArray_loop_fill values (PutUint32 (uint32 (Z.of_nat (length values))))
             rest Hrest).
Qed.

(** ** The deletions KEYS and SCAN hand to goroutines *)

(** All pending deletions running to completion, oldest first. *)
Fixpoint run_all_deferred (n : nat) (s : GoFastServer) : GoFastServer :=
  match n with
  | O => s
  | S n' => run_all_deferred n' (run_deferred s)
  end.

Lemma run_all_deferred_lookup : forall pending st idx key,
  storage (run_all_deferred (length pending) (mkServer st idx pending)) !! key
  = (if bool_decide (key ∈ pending) then None else st !! key).
Proof.
  induction pending as [|k pending IH]; intros st idx key.
  - by rewrite bool_decide_eq_false_2 by apply not_elem_of_nil.
  - cbn [length run_all_deferred]. unfold run_deferred. cbn [deferred storage ttlIndex].
    unfold evict, ttlIndex_delete, Delete. cbn [deferred storage ttlIndex].
    rewrite IH.
    destruct (decide (key ∈ pending)) as [Hin|Hout].
    + rewrite !bool_decide_eq_true_2; [done | by right | done].
    + rewrite (bool_decide_eq_false_2 (key ∈ pending)) by done.
      destruct (decide (key = k)) as [->|Hne].
      * rewrite bool_decide_eq_true_2 by left. apply lookup_delete_eq.
      * rewrite bool_decide_eq_false_2
          by (intros [?|?]%elem_of_cons; contradiction).
        by rewrite lookup_delete_ne.
Qed.

Lemma range_live_deferred now s key item :
  storage s !! key = Some item -> expired item now = true ->
  key ∈ deferred (range_live now s).1.
Proof.
  intros Hl He. unfold range_live.
  assert (H : forall l s0 acc,
    let r := fold_left (fun '(s0, keys) '(keyStr, item) =>
               if expired item now then (spawn_delete keyStr s0, keys)
               else (s0, keys ++ [keyStr])) l (s0, acc) in
    (key ∈ deferred s0 \/ (key, item) ∈ l) -> key ∈ deferred r.1).
  { induction l as [|[k it] l IH]; intros s0 acc; simpl.
    - intros [Hin | Hin]; [done | by apply elem_of_nil in Hin].
    - intros [Hin | [Heq | Hin]%elem_of_cons].
      + destruct (expired it now); apply IH; left; [|done].
        simpl. apply elem_of_app. by left.
      + injection Heq as <- <-. rewrite He. apply IH. left. simpl.
        apply elem_of_app. right. by left.
      + destruct (expired it now); apply IH; by right. }
  apply H. right. by apply elem_of_map_to_list.
Qed.

(** KEYS hands the removal of each expired key it meets to a goroutine
    that deletes by name.  When the key is SET again before that goroutine
    runs, the fresh value is what gets deleted. *)
Theorem deferred_deletion_removes_a_fresh_value (keys set : Message) (now later : Z)
    (s : GoFastServer) (item : CacheItem) :
  Command keys = CMD_KEYS -> Command set = CMD_SET ->
  storage s !! gostring (Key set) = Some item -> expired item now = true ->
  exists s1 s2 listing,
    processCommand keys now s = Some (s1, listing)
    /\ processCommand set later s1 = Some (s2, createResponse RESP_OK [])
    /\ is_Some (storage s2 !! gostring (Key set))
    /\ storage (run_all_deferred (length (deferred s2)) s2) !! gostring (Key set) = None.
Proof.
  destruct keys as [l1 v1 c1 k1 pattern t1], set as [l2 v2 c2 key value ttl]. simpl.
  intros -> -> Hl He.
  pose proof (range_live_deferred now s (gostring key) item Hl He) as Hpending.
  unfold processCommand, dispatch_common. simpl. unfold handleKeys, string_cmd_set. simpl.
  destruct (range_live now s) as [s1 collected]. simpl in Hpending.
  eexists _, _, _. split; [reflexivity|]. split; [reflexivity|].
  assert (Hdef : deferred (set_string (gostring key) value ttl later s1) = deferred s1)
    by (unfold set_string; by destruct (0 <? ttl)).
  split.
  - unfold set_string. destruct (0 <? ttl); simpl; rewrite lookup_insert_eq; eauto.
  - destruct (set_string (gostring key) value ttl later s1) as [st idx pending].
    simpl in Hdef. subst pending. cbn [deferred].
    rewrite run_all_deferred_lookup. by rewrite bool_decide_eq_true_2.
Qed.

Lemma deferred_deletion_removes_a_fresh_value_witness :
  exists s1 s2 listing,
    processCommand (request_message (ReqKeys (str "*"))) 2000 expired_demo
    = Some (s1, listing)
    /\ processCommand (mkMessage 0 1 CMD_SET (str "session") (str "fresh") 0) 2001 s1
       = Some (s2, createResponse RESP_OK [])
    /\ is_Some (storage s2 !! "session")
    /\ storage (run_all_deferred (length (deferred s2)) s2) !! "session" = None.
Proof.
  apply (deferred_deletion_removes_a_fresh_value (request_message (ReqKeys (str "*")))
           (mkMessage 0 1 CMD_SET (str "session") (str "fresh") 0) 2000 2001 expired_demo
           (mkItem (VString (str "v")) 100 50)); reflexivity.
Defined.

(** ** Configuration: ParseMemorySize (config.go)

    [strings.ToUpper] on a string of ASCII bytes maps the letters a-z to
    A-Z byte by byte; on other strings it works rune by rune, which is not
    modelled ([None]).  [HasSuffix] and [TrimSuffix] are those of the
    [strings] package. *)
Definition upper_ascii (c : ascii) : ascii :=
  let n := nat_of_ascii c in
  if (97 <=? n)%nat && (n <=? 122)%nat then ascii_of_nat (n - 32) else c.

Definition is_ascii (c : ascii) : bool := (nat_of_ascii c <? 128)%nat.

Definition ToUpper (s : string) : option string :=
  let l := list_ascii_of_string s in
  if forallb is_ascii l then Some (string_of_list_ascii (map upper_ascii l)) else None.

Definition HasSuffix (s suffix_ : string) : bool :=
  bool_decide (list_ascii_of_string suffix_ `suffix_of` list_ascii_of_string s).

Definition TrimSuffix (s suffix_ : string) : string :=
  if HasSuffix s suffix_
  then string_of_list_ascii
         (take (String.length s - String.length suffix_) (list_ascii_of_string s))
  else s.

(** [inl] is the error, [inr] the size in bytes; the product is an [int64]
    product and wraps. *)
Definition ParseMemorySize (MaxMemory : string) : option (string + Z) :=
  size ← ToUpper MaxMemory;
  if String.eqb size "" then Some (inr 0)
  else
    let '(multiplier, size) :=
      if HasSuffix size "KB" then (1024, TrimSuffix size "KB")
      else if HasSuffix size "MB" then (1024 * 1024, TrimSuffix size "MB")
      else if HasSuffix size "GB" then (1024 * 1024 * 1024, TrimSuffix size "GB")
      else (1, size) in
    match ParseInt size with
    | None => Some (inl ("invalid memory size: " +:+ MaxMemory))
    | Some value => Some (inr (wrap64 (value * multiplier)))
    end.

(** The units [ParseMemorySize] knows, in upper case, with their factors. *)
Definition memory_units : list (string * Z) :=
  [("KB", 1024); ("MB", 1024 * 1024); ("GB", 1024 * 1024 * 1024)]%string.

(** The bytes of a decimal number: digits and the sign. *)
Definition number_char (c : ascii) : Prop :=
  In c (list_ascii_of_string "0123456789-").

Lemma list_ascii_of_string_app s1 s2 :
  list_ascii_of_string (s1 +:+ s2) = list_ascii_of_string s1 ++ list_ascii_of_string s2.
Proof. induction s1 as [|c s1 IH]; simpl; [done | by rewrite IH]. Qed.

Lemma string_of_list_ascii_app (l1 l2 : list ascii) :
  string_of_list_ascii (l1 ++ l2) = string_of_list_ascii l1 +:+ string_of_list_ascii l2.
Proof. induction l1 as [|c l1 IH]; simpl; [done | by rewrite IH]. Qed.

Lemma length_list_ascii s : length (list_ascii_of_string s) = String.length s.
Proof. induction s as [|c s IH]; simpl; [done | by rewrite IH]. Qed.

Lemma string_of_uint_chars d :
  Forall number_char (list_ascii_of_string (NilEmpty.string_of_uint d)).
Proof.
  induction d; simpl; [apply Forall_nil_2 | ..];
    (apply Forall_cons; split; [unfold number_char; simpl; tauto | done]).
Qed.

Lemma FormatInt_chars n :
  Forall number_char (list_ascii_of_string (FormatInt n)) /\ FormatInt n <> "".
Proof.
  unfold FormatInt, itoa_string.
  destruct n as [|p|p]; unfold Z.to_int, NilZero.string_of_int.
  - split; [|done]. apply Forall_cons. split; [|apply Forall_nil_2].
    unfold number_char. simpl. tauto.
  - rewrite NilZero_string_of_to_uint.
    destruct (string_of_uint_digits _ (to_uint_nonnil p)) as (c & rest & Hs & _).
    split; [apply string_of_uint_chars | by rewrite Hs].
  - rewrite NilZero_string_of_to_uint. split; [|done].
    apply Forall_cons. split; [unfold number_char; simpl; tauto|].
    apply string_of_uint_chars.
Qed.

Lemma number_char_upper c : number_char c -> upper_ascii c = c /\ is_ascii c = true.
Proof.
  unfold number_char. simpl.
  intros [<-|[<-|[<-|[<-|[<-|[<-|[<-|[<-|[<-|[<-|[<-|[]]]]]]]]]]]]; by split.
Qed.

Lemma ToUpper_number d unit U :
  Forall number_char (list_ascii_of_string d) -> ToUpper unit = Some U ->
  ToUpper (d +:+ unit) = Some (d +:+ U).
Proof.
  unfold ToUpper. intros Hd. rewrite list_ascii_of_string_app, forallb_app, map_app.
  destruct (forallb is_ascii (list_ascii_of_string unit)); [|done]. intros [= <-].
  assert (Hall : forallb is_ascii (list_ascii_of_string d) = true
                 /\ map upper_ascii (list_ascii_of_string d) = list_ascii_of_string d).
  { induction Hd as [|c l Hc Hl [IH1 IH2]]; [done|]. simpl.
    destruct (number_char_upper c Hc) as [-> ->]. by rewrite IH1, IH2. }
  destruct Hall as [-> ->]. simpl.
  by rewrite string_of_list_ascii_app, string_of_list_ascii_of_string.
Qed.

Lemma suffix_same_length {A} (u u' d : list A) :
  length u = length u' -> u `suffix_of` d ++ u' -> u = u'.
Proof. intros Hlen [k Hk]. apply app_inj_2 in Hk as [_ ->]; done. Qed.

Lemma HasSuffix_unit d U U' :
  String.length U = String.length U' ->
  HasSuffix (d +:+ U') U = bool_decide (U = U').
Proof.
  intros Hlen. unfold HasSuffix. rewrite list_ascii_of_string_app.
  apply bool_decide_ext. split.
  - intros Hsuf%suffix_same_length; [|by rewrite !length_list_ascii].
    by rewrite <- (string_of_list_ascii_of_string U), Hsuf, string_of_list_ascii_of_string.
  - intros ->. by apply suffix_app_r.
Qed.

Lemma HasSuffix_number d U :
  Forall number_char (list_ascii_of_string d) ->
  (exists front, list_ascii_of_string U = front ++ ["B"%char]) ->
  HasSuffix d U = false.
Proof.
  intros Hd [front HU]. unfold HasSuffix. apply bool_decide_eq_false_2.
  rewrite HU. intros [k Hk]. rewrite Hk in Hd.
  apply Forall_app in Hd as [_ Hd]. apply Forall_app in Hd as [_ Hd].
  apply Forall_cons in Hd as [Hb _]. unfold number_char in Hb. simpl in Hb.
  repeat (destruct Hb as [Hb | Hb]; [discriminate Hb|]). exact Hb.
Qed.

Lemma TrimSuffix_unit d U : TrimSuffix (d +:+ U) U = d.
Proof.
  unfold TrimSuffix.
  rewrite (HasSuffix_unit d U U eq_refl), bool_decide_eq_true_2 by done.
  rewrite list_ascii_of_string_app, <- !length_list_ascii, list_ascii_of_string_app.
  rewrite length_app, Nat.add_sub, take_app_length.
  apply string_of_list_ascii_of_string.
Qed.

(** [ParseMemorySize] reads a decimal number followed by KB, MB or GB, in
    upper or lower case, as the number times 1024, 1024^2 or 1024^3, and a
    bare number as a number of bytes; the product is taken in [int64] and
    wraps around without an error. *)
Theorem ParseMemorySize_reads_number_and_unit (n factor : Z) (unit U : string) :
  - 2 ^ 63 <= n < 2 ^ 63 -> ToUpper unit = Some U -> In (U, factor) memory_units ->
  ParseMemorySize (FormatInt n +:+ unit) = Some (inr (wrap64 (n * factor)))
  /\ ParseMemorySize (FormatInt n) = Some (inr n).
Proof.
  intros Hn Hunit Hin. destruct (FormatInt_chars n) as [Hchars Hnonempty].
  assert (Hne : forall tail, String.eqb (FormatInt n +:+ tail) "" = false).
  { intros tail. destruct (FormatInt n); [done | reflexivity]. }
  split.
  - unfold ParseMemorySize. rewrite (ToUpper_number _ unit U Hchars Hunit).
    cbn [mbind option_bind]. rewrite Hne.
    unfold memory_units in Hin.
    destruct Hin as [[= <- <-] | [[= <- <-] | [[= <- <-] | []]]];
      rewrite ?HasSuffix_unit by reflexivity;
      rewrite ?bool_decide_eq_true_2 by reflexivity;
      rewrite ?bool_decide_eq_false_2 by discriminate;
      rewrite ?bool_decide_eq_true_2 by reflexivity;
      rewrite TrimSuffix_unit, ParseInt_FormatInt by done; reflexivity.
  - unfold ParseMemorySize.
    pose proof (ToUpper_number (FormatInt n) "" "" Hchars eq_refl) as Hup.
    assert (Hright : forall s : string, s +:+ "" = s).
    { intros s. rewrite <- (string_of_list_ascii_of_string (s +:+ "")).
      rewrite list_ascii_of_string_app, app_nil_r.
      apply string_of_list_ascii_of_string. }
    rewrite (Hright (FormatInt n)) in Hup. rewrite Hup. cbn [mbind option_bind].
    replace (String.eqb (FormatInt n) "") with false
      by (symmetry; by apply String.eqb_neq).
    rewrite !HasSuffix_number; [| done | by exists ["G"%char] | done | by exists ["M"%char]
                               | done | by exists ["K"%char]].
    rewrite ParseInt_FormatInt by done. by rewrite Z.mul_1_r, wrap64_small.
Qed.

Lemma ParseMemorySize_reads_number_and_unit_witness :
  ParseMemorySize (FormatInt 512 +:+ "mb") = Some (inr (wrap64 (512 * (1024 * 1024))))
  /\ ParseMemorySize (FormatInt 512) = Some (inr 512).
Proof.
  apply (ParseMemorySize_reads_number_and_unit 512 (1024 * 1024) "mb" "MB").
  - lia.
  - reflexivity.
  - right. by left.
Defined.

(** The default of 1GB, and a size whose product leaves [int64]. *)
Example ParseMemorySize_examples :
  ParseMemorySize "1GB" = Some (inr 1073741824)
  /\ ParseMemorySize "8589934592GB" = Some (inr (- 2 ^ 63))
  /\ ParseMemorySize "64B" = Some (inl "invalid memory size: 64B"%string).
Proof. repeat split; vm_compute; reflexivity. Qed.
